(** * Zone-occupancy pipeline of the CCTV relay worker: a shallow embedding

    The development follows the Python sources of [cctv-worker/src]:

    - [core/roi_matcher.py]       (module [ROIMatcher])
    - [workers/detection_worker.py] (module [ChannelWorker])
    - [database/seat_repository.py] (module [SeatRepository])
    - [utils/detection_logger.py]  (module [DetectionLogger])

    Conventions.  Python [int]s are [Z].  Python [float]s (IoU scores, the
    bottom-center point, wall-clock readings) are exact rationals [Q]: the
    embedding does not model rounding.  A Python [dict] keyed by strings is
    a [gmap string _]; the result of [check_occupancy], whose insertion
    order is observed by the worker loop, is an insertion-ordered
    association list.  A call that may raise lives in [result]; code that
    also changes an object lives in [io], where [try] /
    [except Exception] is [io_try]. *)

From Stdlib Require Import ZArith QArith Qminmax Qround Ascii String List.
From Stdlib Require Import Lia Lqa Permutation.
From stdpp Require Import gmap strings list fin_maps pretty.
Import ListNotations.

Local Open Scope string_scope.
Local Open Scope list_scope.

(** ** Python outcomes *)

Module Py.

Inductive exn : Type :=
| IndexError
| ZeroDivisionError
| UnboundLocalError
| ValueError
| OtherError (msg : string).

Inductive result (A : Type) : Type :=
| Ok (a : A)
| Raise (e : exn).
Arguments Ok {A} a.
Arguments Raise {A} e.

Definition bind {A B} (r : result A) (k : A -> result B) : result B :=
  match r with
  | Ok a => k a
  | Raise e => Raise e
  end.

Definition returns {A} (r : result A) : Prop := exists a, r = Ok a.

(** Comparisons on floats, read on exact rationals. *)
Definition Qltb (a b : Q) : bool := negb (Qle_bool b a).
Definition Qleb (a b : Q) : bool := Qle_bool a b.

(** [int(x)] on a float: truncation toward zero. *)
Definition int_of_float (q : Q) : Z := Z.quot (Qnum q) (Zpos (Qden q)).

(** Code that changes a state [S] and may raise: what was changed
    before an exception stays changed. *)
Definition io (S A : Type) : Type := S -> S * result A.

Definition io_ret {S A} (a : A) : io S A := fun s => (s, Ok a).
Definition io_bind {S A B} (m : io S A) (k : A -> io S B) : io S B :=
  fun s =>
    match m s with
    | (s', Ok a) => k a s'
    | (s', Raise e) => (s', Raise e)
    end.
(** [try: body except Exception: handler] *)
Definition io_try {S A} (body : io S A) (handler : exn -> io S A)
  : io S A :=
  fun s =>
    match body s with
    | (s', Ok a) => (s', Ok a)
    | (s', Raise e) => handler e s'
    end.
Definition io_get {S} : io S S := fun s => (s, Ok s).
Definition io_modify {S} (f : S -> S) : io S unit :=
  fun s => (f s, Ok tt).
Definition io_lift {S A} (r : result A) : io S A := fun s => (s, r).

End Py.

Import Py.
Notation "'let*' x ':=' e 'in' k" := (Py.bind e (fun x => k))
  (at level 10, x name, e at level 200, k at level 200,
   format "'[v' 'let*'  x  ':='  e  'in' '/' k ']'").
Notation "'run*' x ':=' e 'in' k" := (Py.io_bind e (fun x => k))
  (at level 10, x name, e at level 200, k at level 200,
   format "'[v' 'run*'  x  ':='  e  'in' '/' k ']'").
Notation "e1 ';;*' e2" := (Py.io_bind e1 (fun _ => e2))
  (at level 100, e2 at level 200, right associativity).

(** ** Insertion-ordered dictionaries

    [results[seat_id] = v] on a Python [dict]: an existing key keeps its
    position and takes the new value, a new key goes to the end. *)

Module OrderedDict.
Section Dict.
Context {V : Type}.

Fixpoint set (k : string) (v : V) (d : list (string * V))
  : list (string * V) :=
  match d with
  | [] => [(k, v)]
  | (k', v') :: d' =>
      if String.eqb k k' then (k', v) :: d' else (k', v') :: set k v d'
  end.

Fixpoint get (k : string) (d : list (string * V)) : option V :=
  match d with
  | [] => None
  | (k', v') :: d' => if String.eqb k k' then Some v' else get k d'
  end.

End Dict.
End OrderedDict.

(** ** [core/roi_matcher.py] *)

Module ROIMatcher.

(** [(x1, y1, x2, y2)] *)
Definition box : Type := (Z * Z * Z * Z)%type.

(** [(x1, y1, x2, y2, confidence)], as [PersonDetector.detect_persons]
    builds it. *)
Definition detection : Type := (Z * Z * Z * Z * Q)%type.

(** [person_box[:4]] *)
Definition bbox (d : detection) : box :=
  let '(x1, y1, x2, y2, _) := d in (x1, y1, x2, y2).

(** A seat of the ROI configuration.  The dictionaries of the source
    carry a ['type'] tag next to ['roi']; the tag and the payload it
    announces are one constructor here. *)
Inductive roi : Type :=
| Rectangle (seat_box : box)
| Polygon (polygon : list (Z * Z)).

Record seat : Type := Seat {
  seat_id : string;
  seat_label : option string;
  seat_roi : roi
}.

Definition calculate_iou (box1 box2 : box) : Q :=
  let '(x1_1, y1_1, x2_1, y2_1) := box1 in
  let '(x1_2, y1_2, x2_2, y2_2) := box2 in
  let x1_i := Z.max x1_1 x1_2 in
  let y1_i := Z.max y1_1 y1_2 in
  let x2_i := Z.min x2_1 x2_2 in
  let y2_i := Z.min y2_1 y2_2 in
  if ((x2_i <? x1_i) || (y2_i <? y1_i))%Z then 0%Q
  else
    let intersection := ((x2_i - x1_i) * (y2_i - y1_i))%Z in
    let area1 := ((x2_1 - x1_1) * (y2_1 - y1_1))%Z in
    let area2 := ((x2_2 - x1_2) * (y2_2 - y1_2))%Z in
    let union := (area1 + area2 - intersection)%Z in
    if (union =? 0)%Z then 0%Q
    else (inject_Z intersection / inject_Z union)%Q.

(** The local variables of the loop of [point_in_polygon].  [xinters]
    is unbound until its first assignment and keeps its value from one
    iteration to the next. *)
Record pip_locals : Type := PipLocals {
  inside : bool;
  xinters : option Q;
  p1x : Z;
  p1y : Z
}.

(** [polygon[i]] *)
Definition index (polygon : list (Z * Z)) (i : nat) : result (Z * Z) :=
  match polygon !! i with
  | Some p => Ok p
  | None => Raise IndexError
  end.

(** [a / b] on floats *)
Definition truediv (a b : Q) : result Q :=
  if Qeq_bool b 0 then Raise ZeroDivisionError else Ok (a / b)%Q.

(** Reading a local variable. *)
Definition read_local (v : option Q) : result Q :=
  match v with
  | Some q => Ok q
  | None => Raise UnboundLocalError
  end.

(** One iteration of [for i in range(1, n + 1)]. *)
Definition pip_body (x y : Q) (polygon : list (Z * Z)) (n : nat)
    (st : pip_locals) (i : nat) : result pip_locals :=
  let* p2 := index polygon (i mod n) in
  let '(p2x, p2y) := p2 in
  let* st' :=
    (if Qltb (inject_Z (Z.min (p1y st) p2y)) y then
       if Qleb y (inject_Z (Z.max (p1y st) p2y)) then
         if Qleb x (inject_Z (Z.max (p1x st) p2x)) then
           let* xi :=
             (if negb (p1y st =? p2y)%Z then
                let* q := truediv ((y - inject_Z (p1y st))
                              * inject_Z (p2x - p1x st))%Q
                             (inject_Z (p2y - p1y st)) in
                Ok (Some (q + inject_Z (p1x st))%Q)
              else Ok (xinters st)) in
           let* flip :=
             (if (p1x st =? p2x)%Z then Ok true
              else let* xv := read_local xi in Ok (Qleb x xv)) in
           Ok (PipLocals (if flip then negb (inside st) else inside st)
                         xi (p1x st) (p1y st))
         else Ok st
       else Ok st
     else Ok st) in
  Ok (PipLocals (inside st') (xinters st') p2x p2y).

Fixpoint pip_loop (x y : Q) (polygon : list (Z * Z)) (n : nat)
    (st : pip_locals) (range : list nat) : result pip_locals :=
  match range with
  | [] => Ok st
  | i :: range' =>
      let* st' := pip_body x y polygon n st i in
      pip_loop x y polygon n st' range'
  end.

Definition point_in_polygon (point : Q * Q) (polygon : list (Z * Z))
  : result bool :=
  let '(x, y) := point in
  let n := length polygon in
  let* p1 := index polygon 0 in
  let '(p1x0, p1y0) := p1 in
  let* st := pip_loop x y polygon n (PipLocals false None p1x0 p1y0)
                 (seq 1 n) in
  Ok (inside st).

(** [((x1 + x2) / 2, y2)] *)
Definition person_bottom_center (person_box : detection) : Q * Q :=
  let '(x1, y1, x2, y2) := bbox person_box in
  ((inject_Z (x1 + x2) / 2)%Q, inject_Z y2).

(** The polygon branch of the first loop: [(occupied, max_iou)]. *)
Fixpoint polygon_scan (polygon : list (Z * Z))
    (person_detections : list detection) : result (bool * Q) :=
  match person_detections with
  | [] => Ok (false, 0%Q)
  | person_box :: rest =>
      let* hit := point_in_polygon (person_bottom_center person_box) polygon in
      if hit then Ok (true, 1%Q) else polygon_scan polygon rest
  end.

(** The rectangle branch of the first loop, from the running
    [max_iou]: [(occupied, max_iou)]. *)
Fixpoint rectangle_scan (seat_box : box) (iou_threshold : Q)
    (max_iou : Q) (person_detections : list detection) : bool * Q :=
  match person_detections with
  | [] => (false, max_iou)
  | person_box :: rest =>
      let iou := calculate_iou (bbox person_box) seat_box in
      let max_iou := if Qltb max_iou iou then iou else max_iou in
      if Qltb iou_threshold iou then (true, max_iou)
      else rectangle_scan seat_box iou_threshold max_iou rest
  end.

(** The second loop: the detection that matched this seat. *)
Fixpoint find_matched (r : roi) (iou_threshold : Q)
    (person_detections : list detection) : result (option detection) :=
  match person_detections with
  | [] => Ok None
  | person_box :: rest =>
      match r with
      | Polygon polygon =>
          let* hit := point_in_polygon (person_bottom_center person_box)
                                  polygon in
          if hit then Ok (Some person_box)
          else find_matched r iou_threshold rest
      | Rectangle seat_box =>
          if Qltb iou_threshold (calculate_iou (bbox person_box) seat_box)
          then Ok (Some person_box)
          else find_matched r iou_threshold rest
      end
  end.

Record entry : Type := Entry {
  status : string;
  max_iou : Q;
  label : string;
  matched_detection : option detection
}.

(** The body of [for seat in self.seats]. *)
Definition check_seat (person_detections : list detection)
    (iou_threshold : Q) (s : seat) : result entry :=
  let* first :=
    match seat_roi s with
    | Polygon polygon => polygon_scan polygon person_detections
    | Rectangle seat_box =>
        Ok (rectangle_scan seat_box iou_threshold 0%Q person_detections)
    end in
  let '(occupied, max_iou) := first in
  let* matched :=
    (if occupied && negb (Nat.eqb (length person_detections) 0)
     then find_matched (seat_roi s) iou_threshold person_detections
     else Ok None) in
  Ok (Entry (if occupied then "occupied" else "empty")
            max_iou
            (match seat_label s with
             | Some l => l
             | None => String.append "Seat " (seat_id s)
             end)
            matched).

Fixpoint check_loop (person_detections : list detection)
    (iou_threshold : Q) (seats : list seat)
    (results : list (string * entry)) : result (list (string * entry)) :=
  match seats with
  | [] => Ok results
  | s :: seats' =>
      let* e := check_seat person_detections iou_threshold s in
      check_loop person_detections iou_threshold seats'
                 (OrderedDict.set (seat_id s) e results)
  end.

Definition check_occupancy (seats : list seat)
    (person_detections : list detection) (iou_threshold : Q)
  : result (list (string * entry)) :=
  check_loop person_detections iou_threshold seats [].

End ROIMatcher.

(** ** [utils/detection_logger.py] *)

Module DetectionLogger.

(** The dictionary [_build_event] returns; a key that is set only
    under a condition is an [option]. *)
Record event : Type := Event {
  ev_store_id : string;
  ev_seat_id : string;
  ev_channel_id : Z;
  ev_event_type : string;
  ev_person_detected : bool;
  ev_person_count : Z;
  ev_belongings_detected : bool;
  ev_model_version : string;
  ev_confidence : option Q;
  ev_person_bboxes : option (list ROIMatcher.box);
  ev_bbox : option ROIMatcher.box;
  ev_belongings_confidence : option Q;
  ev_belongings_bboxes : option (list ROIMatcher.box);
  ev_previous_status : option string;
  ev_new_status : option string;
  ev_processing_time_ms : option Z;
  ev_metadata : option (gmap string Q);
  ev_object_detected : bool
}.

Record statistics : Type := Statistics {
  total_logged : Z;
  batch_inserts : Z;
  errors : Z
}.

Record logger : Type := Logger {
  store_id : string;
  channel_id : Z;
  batch_size : Z;
  flush_interval : Q;
  enable_frame_logging : bool;
  _batch : list event;
  _last_flush : Q;
  stats : statistics
}.

(** What the logger asks of the database client. *)
Inductive db_call : Type :=
| insert (rows : list event)
    (* db.client.table('detection_events').insert(rows).execute() *)
| log_detection_event (e : event).

(** The logger together with the requests it has issued so far. *)
Record state : Type := State {
  self : logger;
  db_calls : list db_call
}.

(** What the surroundings answer: the clock readings of
    [datetime.now()] and whether a database request raises. *)
Record environment : Type := Environment {
  now_at_check : Q;    (* read in [_add_to_batch] *)
  now_at_flush : Q;    (* read in [_flush_batch] *)
  db_answer : db_call -> result unit
}.

Definition __init__ (now : Q) (store_id : string) (channel_id : Z)
    (batch_size : Z) (flush_interval : Q) (enable_frame_logging : bool)
  : logger :=
  Logger store_id channel_id batch_size flush_interval
         enable_frame_logging [] now (Statistics 0 0 0).

(** [if xs:] on an optional list *)
Definition truthy_list {A} (xs : option (list A)) : option (list A) :=
  match xs with
  | Some (x :: l) => Some (x :: l)
  | _ => None
  end.

(** [if s:] on an optional string *)
Definition truthy_string (s : option string) : option string :=
  match s with
  | Some EmptyString => None
  | other => other
  end.

(** [if metadata:] on an optional dictionary *)
Definition truthy_dict (m : option (gmap string Q))
  : option (gmap string Q) :=
  match m with
  | Some d => if bool_decide (d = ∅) then None else Some d
  | None => None
  end.

Definition _build_event (l : logger) (seat_id event_type : string)
    (person_detected : bool) (person_count : Z)
    (person_confidence : option Q)
    (person_bboxes : option (list ROIMatcher.box))
    (belongings_detected : bool) (belongings_confidence : option Q)
    (belongings_bboxes : option (list ROIMatcher.box))
    (previous_status new_status : option string)
    (model_version : string) (processing_time_ms : option Z)
    (metadata : option (gmap string Q)) : event :=
  Event (store_id l) seat_id (channel_id l) event_type person_detected
        person_count belongings_detected model_version
        person_confidence
        (truthy_list person_bboxes)
        (match truthy_list person_bboxes with
         | Some (bbox :: _) => Some bbox
         | _ => None
         end)
        belongings_confidence
        (truthy_list belongings_bboxes)
        (truthy_string previous_status)
        (truthy_string new_status)
        processing_time_ms
        (truthy_dict metadata)
        belongings_detected.

(** Issue a request: it is recorded, and it raises when the database
    says so. *)
Definition request (env : environment) (c : db_call) : io state unit :=
  fun s => (State (self s) (db_calls s ++ [c]), db_answer env c).

Definition update_self (f : logger -> logger) : io state unit :=
  io_modify (fun s => State (f (self s)) (db_calls s)).

Definition set_batch (b : list event) (l : logger) : logger :=
  Logger (store_id l) (channel_id l) (batch_size l) (flush_interval l)
         (enable_frame_logging l) b (_last_flush l) (stats l).

Definition set_last_flush (t : Q) (l : logger) : logger :=
  Logger (store_id l) (channel_id l) (batch_size l) (flush_interval l)
         (enable_frame_logging l) (_batch l) t (stats l).

Definition set_stats (st : statistics) (l : logger) : logger :=
  Logger (store_id l) (channel_id l) (batch_size l) (flush_interval l)
         (enable_frame_logging l) (_batch l) (_last_flush l) st.

Definition count_logged (n : Z) (l : logger) : logger :=
  set_stats (Statistics (total_logged (stats l) + n)
                        (batch_inserts (stats l)) (errors (stats l))) l.

Definition count_batch_insert (l : logger) : logger :=
  set_stats (Statistics (total_logged (stats l))
                        (batch_inserts (stats l) + 1)
                        (errors (stats l))) l.

Definition count_error (l : logger) : logger :=
  set_stats (Statistics (total_logged (stats l))
                        (batch_inserts (stats l))
                        (errors (stats l) + 1)) l.

Definition _flush_batch (env : environment) : io state unit :=
  run* s := io_get in
  match _batch (self s) with
  | [] => io_ret tt
  | _ :: _ =>
      let batch_to_insert := _batch (self s) in
      update_self (set_batch []) ;;*
      update_self (set_last_flush (now_at_flush env)) ;;*
      io_try
        (request env (insert batch_to_insert) ;;*
         update_self (count_logged (Z.of_nat (length batch_to_insert))) ;;*
         update_self count_batch_insert)
        (fun _ => update_self count_error)
  end.

Definition should_flush (env : environment) (l : logger) : bool :=
  (batch_size l <=? Z.of_nat (length (_batch l)))%Z
  || Qleb (flush_interval l) (now_at_check env - _last_flush l)%Q.

Definition _add_to_batch (env : environment) (e : event) : io state unit :=
  update_self (fun l => set_batch (_batch l ++ [e]) l) ;;*
  run* s := io_get in
  if should_flush env (self s) then _flush_batch env else io_ret tt.

Definition _insert_single (env : environment) (e : event)
  : io state unit :=
  io_try
    (request env (log_detection_event e) ;;*
     update_self (count_logged 1))
    (fun _ => update_self count_error).

Definition log_frame_detection (env : environment) (seat_id : string)
    (person_detected : bool) (person_count : Z)
    (person_confidence : option Q)
    (person_bboxes : option (list ROIMatcher.box))
    (belongings_detected : bool) (belongings_confidence : option Q)
    (belongings_bboxes : option (list ROIMatcher.box))
    (model_version : string) (processing_time_ms : option Z)
  : io state unit :=
  run* s := io_get in
  if negb (enable_frame_logging (self s)) then io_ret tt
  else
    _add_to_batch env
      (_build_event (self s) seat_id "detection_frame" person_detected
         person_count person_confidence person_bboxes
         belongings_detected belongings_confidence belongings_bboxes
         None None model_version processing_time_ms None).

Definition log_status_change (env : environment)
    (seat_id event_type previous_status new_status : string)
    (person_detected : bool) (person_confidence : option Q)
    (person_bboxes : option (list ROIMatcher.box))
    (belongings_detected : bool) (belongings_confidence : option Q)
    (metadata : option (gmap string Q)) : io state unit :=
  run* s := io_get in
  _insert_single env
    (_build_event (self s) seat_id event_type person_detected 0
       person_confidence person_bboxes belongings_detected
       belongings_confidence None (Some previous_status)
       (Some new_status) "yolov8n" None metadata).

Definition flush (env : environment) : io state unit := _flush_batch env.

(** [get_stats()['pending_batch']] *)
Definition pending_batch (l : logger) : nat := length (_batch l).

Definition create_detection_logger (now : Q) (store_id : string)
    (channel_id : Z) (enable_frame_logging : bool) : logger :=
  __init__ now store_id channel_id 10 5 enable_frame_logging.

End DetectionLogger.

(** ** [workers/detection_worker.py] *)

Module ChannelWorker.
Import ROIMatcher.

(** The row [db.get_seat_status] returns, as far as [process_frame]
    reads it. *)
Record seat_status_row : Type := SeatStatusRow {
  row_last_empty_time : option Q
}.

(** The dictionary [status_update]. *)
Record status_update : Type := StatusUpdate {
  su_status : string;
  su_person_detected : bool;
  su_object_detected : bool;
  su_detection_confidence : Q;
  su_last_person_seen : option Q;
  su_last_empty_time : option Q;
  su_vacant_duration_seconds : Z
}.

(** The calls [process_frame] makes on [self.db] and on
    [self.detection_logger], in the order it makes them.  Calls on
    [self.logger] and [self.perf_monitor] only write log lines and
    counters and are left out. *)
Inductive call : Type :=
| log_frame_detection (seat_id : string) (person_detected : bool)
    (person_count : Z) (person_confidence : option Q)
    (person_bboxes : option (list box)) (belongings_detected : bool)
    (processing_time_ms : Z)
| get_seat_status (seat_id : string)
| update_seat_status (seat_id : string) (status_data : status_update)
| log_status_change (seat_id event_type previous_status
                     new_status : string)
    (person_detected : bool) (person_confidence : option Q)
    (person_bboxes : option (list box)) (belongings_detected : bool)
    (detections_count : nat) (iou : Q).

(** What the database answers during one frame. *)
Record database : Type := Database {
  seat_status : string -> result (option seat_status_row);
  upsert : string -> status_update -> result unit
}.

Record worker : Type := Worker {
  snapshot_interval : Z;
  seats : list seat;                 (* self.roi_matcher.seats *)
  detection_logger : bool;           (* [self.detection_logger] is set *)
  previous_occupancy : gmap string string;
  abandoned_timers : gmap string Z   (* defaultdict(float) *)
}.

(** The worker and the calls made so far. *)
Record state : Type := State {
  self : worker;
  calls : list call
}.

Definition emit (c : call) : io state unit :=
  io_modify (fun s => State (self s) (calls s ++ [c])).

Definition update_self (f : worker -> worker) : io state unit :=
  io_modify (fun s => State (f (self s)) (calls s)).

Definition set_previous_occupancy (seat_id new_status : string)
    (w : worker) : worker :=
  Worker (snapshot_interval w) (seats w) (detection_logger w)
         (<[seat_id := new_status]> (previous_occupancy w))
         (abandoned_timers w).

Definition set_abandoned_timer (seat_id : string) (t : Z) (w : worker)
  : worker :=
  Worker (snapshot_interval w) (seats w) (detection_logger w)
         (previous_occupancy w)
         (<[seat_id := t]> (abandoned_timers w)).

(** [self.abandoned_timers[seat_id]] on the [defaultdict] *)
Definition abandoned_timer (w : worker) (seat_id : string) : Z :=
  default 0%Z (abandoned_timers w !! seat_id).

Definition event_type_map : gmap (string * string) string :=
  list_to_map
    [ (("empty", "occupied"), "person_enter");
      (("occupied", "empty"), "person_leave");
      (("empty", "abandoned"), "abandoned_detected");
      (("occupied", "abandoned"), "abandoned_detected");
      (("abandoned", "occupied"), "person_enter");
      (("abandoned", "empty"), "item_removed") ].

(** [event_type_map.get((prev_status, new_status), 'status_change')] *)
Definition event_type (prev_status new_status : string) : string :=
  default "status_change" (event_type_map !! (prev_status, new_status)).

(** Lines 211-221: the new status and the timer written back. *)
Definition abandoned_logic (w : worker) (seat_id current_status : string)
    (person_detected belongings_detected : bool) : string * Z :=
  if negb person_detected && belongings_detected then
    let t := (abandoned_timer w seat_id + snapshot_interval w)%Z in
    (if (600 <=? t)%Z then "abandoned" else current_status, t)
  else (current_status, 0%Z).

(** Lines 223-245: [(vacant_duration, last_person_seen,
    last_empty_time)]. *)
Definition vacancy (db : database) (seat_id new_status : string)
    (current_time : Q) : io state (Z * option Q * option Q) :=
  if String.eqb new_status "empty" then
    emit (get_seat_status seat_id) ;;*
    run* db_status := io_lift (seat_status db seat_id) in
    match db_status with
    | Some row =>
        match row_last_empty_time row with
        | Some last_empty_time =>
            io_ret (int_of_float (current_time - last_empty_time)%Q,
                    None, Some last_empty_time)
        | None => io_ret (0%Z, None, Some current_time)
        end
    | None => io_ret (0%Z, None, Some current_time)
    end
  else if String.eqb new_status "occupied" then
    io_ret (0%Z, Some current_time, None)
  else io_ret (0%Z, None, None).

(** The body of [for seat_id, info in occupancy.items()].
    [belongings_detected] is a local variable of the source, bound to
    [False] on line 184; it is an argument here and [process_frame]
    passes the source's value. *)
Definition process_seat (db : database) (belongings_detected : bool)
    (detections_count : nat) (current_time : Q) (detection_time_ms : Z)
    (seat_id : string) (info : entry) : io state unit :=
  let current_status := status info in
  let person_detected := String.eqb current_status "occupied" in
  let confidence := if person_detected then max_iou info else 0%Q in
  let person :=
    match person_detected, matched_detection info with
    | true, Some det => ([bbox det], 1%Z)
    | _, _ => ([], 0%Z)
    end in
  let person_bboxes :=
    match fst person with [] => None | l => Some l end in
  let person_count := snd person in
  let person_confidence :=
    if person_detected then Some confidence else None in
  run* s0 := io_get in
  (if detection_logger (self s0) then
     emit (log_frame_detection seat_id person_detected person_count
             person_confidence person_bboxes belongings_detected
             detection_time_ms)
   else io_ret tt) ;;*
  let prev_status :=
    default "empty" (previous_occupancy (self s0) !! seat_id) in
  let '(new_status, timer) :=
    abandoned_logic (self s0) seat_id current_status person_detected
                    belongings_detected in
  update_self (set_abandoned_timer seat_id timer) ;;*
  run* v := vacancy db seat_id new_status current_time in
  let '(vacant_duration, last_person_seen, last_empty_time) := v in
  let status_data :=
    StatusUpdate new_status person_detected belongings_detected
                 confidence last_person_seen last_empty_time
                 vacant_duration in
  io_try (emit (update_seat_status seat_id status_data) ;;*
          io_lift (upsert db seat_id status_data))
         (fun _ => io_ret tt) ;;*
  (if negb (String.eqb new_status prev_status) then
     if detection_logger (self s0) then
       emit (log_status_change seat_id
               (event_type prev_status new_status) prev_status new_status
               person_detected person_confidence person_bboxes
               belongings_detected detections_count (max_iou info))
     else io_ret tt
   else io_ret tt) ;;*
  update_self (set_previous_occupancy seat_id new_status).

Fixpoint process_items (db : database) (belongings_detected : bool)
    (detections_count : nat) (current_time : Q) (detection_time_ms : Z)
    (occupancy : list (string * entry)) : io state unit :=
  match occupancy with
  | [] => io_ret tt
  | (seat_id, info) :: rest =>
      process_seat db belongings_detected detections_count current_time
                   detection_time_ms seat_id info ;;*
      process_items db belongings_detected detections_count current_time
                    detection_time_ms rest
  end.

(** [process_frame], from the detections the detector returned for the
    frame. *)
Definition process_frame (db : database) (iou_threshold : Q)
    (detections : list detection) (current_time : Q)
    (detection_time_ms : Z) : io state unit :=
  run* s := io_get in
  run* occupancy :=
    io_lift (check_occupancy (seats (self s)) detections iou_threshold) in
  process_items db false (length detections) current_time
                detection_time_ms occupancy.

(** One iteration of the loop of [run] that captured a frame. *)
Record frame : Type := Frame {
  fr_db : database;
  fr_detections : list detection;
  fr_time : Q;
  fr_ms : Z
}.

(** The loop of [run] over the captured frames: [except Exception]
    counts the error and the loop goes on with the next frame. *)
Fixpoint run_frames (iou_threshold : Q) (frames : list frame)
    (s : state) : state :=
  match frames with
  | [] => s
  | f :: frames' =>
      run_frames iou_threshold frames'
        (fst (process_frame (fr_db f) iou_threshold (fr_detections f)
                            (fr_time f) (fr_ms f) s))
  end.

End ChannelWorker.

(** ** [database/seat_repository.py] *)

Module SeatRepository.

(** A row of the [seats] table as the query selects it. *)
Record seat_row : Type := SeatRow {
  seat_id : string;
  roi_polygon : list (Z * Z);
  seat_label : option string;
  channel_id : Z
}.

Record cache_entry : Type := CacheEntry {
  data : list seat_row;
  timestamp : Q
}.

Definition _cache_ttl : Q := 60.

(** The class-level cache, the files of [fallback_dir] and the queries
    sent to the backend so far.  A file maps to what [json.load] makes
    of it: [None] stands for a file that cannot be read or parsed. *)
Record state : Type := State {
  _cache : gmap string cache_entry;
  files : gmap string (option (list seat_row));
  queries : list (string * Z)
}.

(** What the surroundings answer during one call: the readings of
    [time.time()], the outcome of the query ([response.data], or an
    exception) and whether the snapshot file can be written. *)
Record environment : Type := Environment {
  time_at_check : Q;
  time_at_update : Q;
  execute : string -> Z -> result (option (list seat_row));
  write_file : string -> result unit
}.

(** [f"{store_id}:{channel_id}"] *)
Definition cache_key (store_id : string) (channel_id : Z) : string :=
  String.append store_id (String.append ":" (pretty channel_id)).

(** [cache_key.replace(':', '_')] *)
Fixpoint replace_colon (s : string) : string :=
  match s with
  | EmptyString => EmptyString
  | String c s' =>
      String (if Ascii.eqb c ":"%char then "_"%char else c)
             (replace_colon s')
  end.

Definition fallback_path (cache_key : string) : string :=
  String.append (replace_colon cache_key) ".json".

Definition set_cache (k : string) (e : cache_entry) (s : state) : state :=
  State (<[k := e]> (_cache s)) (files s) (queries s).

Definition set_file (path : string) (d : list seat_row) (s : state)
  : state :=
  State (_cache s) (<[path := Some d]> (files s)) (queries s).

Definition record_query (store_id : string) (channel_id : Z) (s : state)
  : state :=
  State (_cache s) (files s) (queries s ++ [(store_id, channel_id)]).

Definition _save_fallback (env : environment) (cache_key : string)
    (d : list seat_row) : io state unit :=
  io_try
    (let path := fallback_path cache_key in
     io_lift (write_file env path) ;;*
     io_modify (set_file path d))
    (fun _ => io_ret tt).

(** [json.load] of an existing file *)
Definition json_load (content : option (list seat_row))
  : result (list seat_row) :=
  match content with
  | Some d => Ok d
  | None => Raise (OtherError "json.load")
  end.

Definition _load_fallback (cache_key : string)
  : io state (list seat_row) :=
  run* found :=
    io_try
      (let path := fallback_path cache_key in
       run* s := io_get in
       match files s !! path with
       | Some content =>
           run* d := io_lift (json_load content) in io_ret (Some d)
       | None => io_ret None
       end)
      (fun _ => io_ret None) in
  match found with
  | Some d => io_ret d
  | None => io_ret []
  end.

(** Step 1, under the lock: the fresh entry, if there is one. *)
Definition fresh_entry (env : environment) (key : string) (s : state)
  : option (list seat_row) :=
  match _cache s !! key with
  | Some entry =>
      if Qltb (time_at_check env - timestamp entry)%Q _cache_ttl
      then Some (data entry) else None
  | None => None
  end.

Definition get_seats_by_channel (env : environment) (store_id : string)
    (channel_id : Z) : io state (list seat_row) :=
  let key := cache_key store_id channel_id in
  run* s := io_get in
  match fresh_entry env key s with
  | Some d => io_ret d
  | None =>
      io_try
        (io_modify (record_query store_id channel_id) ;;*
         run* response_data := io_lift (execute env store_id channel_id) in
         let d :=
           match response_data with
           | Some (r :: rows) => r :: rows
           | _ => []
           end in
         io_modify (set_cache key (CacheEntry d (time_at_update env))) ;;*
         (match d with
          | [] => io_ret tt
          | _ :: _ => _save_fallback env key d
          end) ;;*
         io_ret d)
        (fun _ =>
           run* s' := io_get in
           match _cache s' !! key with
           | Some entry => io_ret (data entry)
           | None => _load_fallback key
           end)
  end.

End SeatRepository.

(** * Properties *)

(** ** The vocabulary of the statements *)

Module Geometry.
Import ROIMatcher.

(** Corners in the order [(x1, y1, x2, y2)] announces. *)
Definition valid_box (b : box) : Prop :=
  let '(x1, y1, x2, y2) := b in (x1 <= x2)%Z /\ (y1 <= y2)%Z.

Definition area (b : box) : Z :=
  let '(x1, y1, x2, y2) := b in ((x2 - x1) * (y2 - y1))%Z.

(** Two boxes that an axis-parallel line separates. *)
Definition disjoint (b1 b2 : box) : Prop :=
  let '(x1_1, y1_1, x2_1, y2_1) := b1 in
  let '(x1_2, y1_2, x2_2, y2_2) := b2 in
  (x2_1 <= x1_2 \/ x2_2 <= x1_1 \/ y2_1 <= y1_2 \/ y2_2 <= y1_1)%Z.

(** The criterion by which a detection claims a seat. *)
Definition satisfies (r : roi) (iou_threshold : Q) (d : detection)
  : Prop :=
  match r with
  | Polygon polygon =>
      point_in_polygon (person_bottom_center d) polygon = Ok true
  | Rectangle seat_box =>
      (iou_threshold < calculate_iou (bbox d) seat_box)%Q
  end.

(** [d] is the first element of [l] with [P]. *)
Definition earliest {A} (P : A -> Prop) (l : list A) (d : A) : Prop :=
  exists pre post,
    l = pre ++ d :: post /\ Forall (fun d' => ~ P d') pre /\ P d.

Definition nonempty_polygons (seats : list seat) : Prop :=
  Forall (fun s => match seat_roi s with
                   | Polygon polygon => polygon <> []
                   | Rectangle _ => True
                   end) seats.

(** The IoU of a detection with a seat's rectangle. *)
Definition iou_with (seat_box : box) (d : detection) : Q :=
  calculate_iou (bbox d) seat_box.

(** What one entry of the result says about its seat. *)
Definition entry_invariant (s : seat) (dets : list detection) (thr : Q)
    (e : entry) : Prop :=
  (status e = "occupied" <-> matched_detection e <> None)
  /\ (status e = "occupied" \/ status e = "empty")
  /\ (forall d, matched_detection e = Some d ->
                earliest (satisfies (seat_roi s) thr) dets d)
  /\ (matched_detection e = None ->
      Forall (fun d => ~ satisfies (seat_roi s) thr d) dets).

End Geometry.

Module Occupancy.
Import ROIMatcher ChannelWorker.

(** The status-change events among the calls:
    [(seat_id, event_type, previous_status, new_status)]. *)
Definition status_changes (cs : list call)
  : list (string * string * string * string) :=
  flat_map (fun c =>
              match c with
              | log_status_change sid et prev new _ _ _ _ _ _ =>
                  [(sid, et, prev, new)]
              | _ => []
              end) cs.

(** Those of one seat. *)
Definition changes_of (seat_id : string) (cs : list call)
  : list (string * string * string * string) :=
  List.filter (fun ev => String.eqb (fst (fst (fst ev))) seat_id)
              (status_changes cs).

(** [self.previous_occupancy.get(seat_id, 'empty')] *)
Definition prev_status_of (w : worker) (seat_id : string) : string :=
  default "empty" (previous_occupancy w !! seat_id).

(** The status [process_frame] computes for a seat from the matcher's
    entry. *)
Definition new_status_of (w : worker) (belongings_detected : bool)
    (seat_id : string) (info : entry) : string :=
  fst (abandoned_logic w seat_id (status info)
         (String.eqb (status info) "occupied") belongings_detected).

(** The documented transitions. *)
Definition transition_table : list (string * string) :=
  [ ("empty", "occupied"); ("occupied", "empty");
    ("empty", "abandoned"); ("occupied", "abandoned");
    ("abandoned", "occupied"); ("abandoned", "empty") ].

(** Consecutive cycles as one seat sees them, the matcher answering
    [info] each time; an exception ends the cycle, not the loop. *)
Fixpoint seat_cycles (belongings_detected : bool)
    (detections_count : nat) (seat_id : string) (info : entry)
    (cycles : list (database * Q * Z)) (s : state) : state :=
  match cycles with
  | [] => s
  | (db, now, ms) :: cycles' =>
      seat_cycles belongings_detected detections_count seat_id info
        cycles'
        (fst (process_seat db belongings_detected detections_count now
                           ms seat_id info s))
  end.

Definition sample_db : database :=
  Database (fun _ => Ok None) (fun _ _ => Ok tt).

Definition sample_worker : worker :=
  Worker 3 [] true {[ "A-01" := "occupied" ]} ∅.

Definition sample_state : state := State sample_worker [].

(** A worker with one polygon seat, seen occupied before. *)
Definition sample_seats : list seat :=
  [Seat "A-01" None
        (Polygon [(100, 100); (200, 100); (200, 200); (100, 200)]%Z)].

Definition sample_detections : list detection :=
  [(120, 80, 180, 200, 95 # 100)%Z].

Definition sample_frame : frame :=
  Frame sample_db sample_detections (100 # 1) 12.

Definition sample_running : state :=
  State (Worker 3 sample_seats true {[ "A-01" := "occupied" ]} ∅) [].

(** Whether the seat's previous status still differs from [st]. *)
Definition pending (sid st : string) (s : state) : nat :=
  if String.eqb (prev_status_of (self s) sid) st then 0 else 1.

(** From [s] to [s'] the seat [sid], observed with status [st], logs
    at most the one change that was pending. *)
Definition settles (sid st : string) (s s' : state) : Prop :=
  exists extra,
    changes_of sid (calls s') = changes_of sid (calls s) ++ extra
    /\ (length extra + pending sid st s' <= pending sid st s)%nat
    /\ seats (self s') = seats (self s).

(** What one pass over a seat leaves behind. *)
Record seat_outcome (db : database) (b : bool) (sid : string)
    (info : entry) (s0 s1 : state) (r : result unit) : Prop := {
  so_changes :
    status_changes (calls s1)
    = status_changes (calls s0)
      ++ match r with
         | Ok _ =>
             if detection_logger (self s0)
                && negb (String.eqb (new_status_of (self s0) b sid info)
                                    (prev_status_of (self s0) sid))
             then [(sid,
                    event_type (prev_status_of (self s0) sid)
                               (new_status_of (self s0) b sid info),
                    prev_status_of (self s0) sid,
                    new_status_of (self s0) b sid info)]
             else []
         | Raise _ => []
         end;
  so_timer :
    abandoned_timers (self s1)
    = <[sid := snd (abandoned_logic (self s0) sid (status info)
                      (String.eqb (status info) "occupied") b)]>
        (abandoned_timers (self s0));
  so_previous :
    previous_occupancy (self s1)
    = match r with
      | Ok _ => <[sid := new_status_of (self s0) b sid info]>
                  (previous_occupancy (self s0))
      | Raise _ => previous_occupancy (self s0)
      end;
  so_interval : snapshot_interval (self s1) = snapshot_interval (self s0);
  so_seats : seats (self s1) = seats (self s0);
  so_logger : detection_logger (self s1) = detection_logger (self s0);
  so_result :
    match r with
    | Ok _ => new_status_of (self s0) b sid info <> "empty"
              \/ returns (seat_status db sid)
    | Raise e => new_status_of (self s0) b sid info = "empty"
                 /\ seat_status db sid = Raise e
    end
}.

End Occupancy.

Module Batching.
Import DetectionLogger.

(** The flush condition, after the event has joined the queue. *)
Definition flush_due (env : environment) (l : logger) : Prop :=
  (batch_size l <= Z.of_nat (length (_batch l)) + 1)%Z
  \/ (flush_interval l <= now_at_check env - _last_flush l)%Q.

Definition sample_logger : logger :=
  create_detection_logger 0 "oryudong" 1 true.

Definition sample_event : event :=
  _build_event sample_logger "A-01" "detection_frame" false 0 None None
               false None None None None "yolov8n" (Some 12%Z) None.

(** Nine events are waiting and the database refuses the insert. *)
Definition nine_waiting : state :=
  State (set_batch (repeat sample_event 9) sample_logger) [].

Definition db_refuses : environment :=
  Environment 1 1 (fun _ => Raise (OtherError "insert")).
End Batching.

Module Tiers.
Import SeatRepository.

(** The cache holds an entry for the key that is younger than the TTL
    at the time of the check. *)
Definition fresh (env : environment) (key : string) (s : state)
    (entry : cache_entry) : Prop :=
  _cache s !! key = Some entry
  /\ (time_at_check env - timestamp entry < _cache_ttl)%Q.

Definition no_fresh_entry (env : environment) (key : string) (s : state)
  : Prop :=
  forall entry, ~ fresh env key s entry.

Definition fetch_fails (env : environment) (store_id : string)
    (channel_id : Z) : Prop :=
  exists e, execute env store_id channel_id = Raise e.

(** [response.data or []] *)
Definition rows_of (response_data : option (list seat_row))
  : list seat_row :=
  match response_data with
  | Some rows => rows
  | None => []
  end.

(** What the local snapshot yields: the file's contents, nothing when
    the file is absent or unreadable. *)
Definition snapshot (s : state) (key : string) : list seat_row :=
  match files s !! fallback_path key with
  | Some (Some d) => d
  | _ => []
  end.

(** No tier has anything to offer. *)
Definition tiers_exhausted (env : environment) (store_id : string)
    (channel_id : Z) (s : state) : Prop :=
  _cache s !! cache_key store_id channel_id = None
  /\ fetch_fails env store_id channel_id
  /\ snapshot s (cache_key store_id channel_id) = [].

Definition a_seat : seat_row :=
  SeatRow "A-01" [(100, 100); (200, 100); (200, 200); (100, 200)]%Z
          (Some "A-01") 1.

(** The backend answers with no rows while the snapshot holds a seat. *)
Definition no_rows : environment :=
  Environment 1000 1000 (fun _ _ => Ok (Some [])) (fun _ => Ok tt).

Definition only_snapshot : state :=
  State ∅ {[ fallback_path (cache_key "oryudong" 1) := Some [a_seat] ]} [].

(** The backend is down, the cache entry is 100 seconds old. *)
Definition backend_down : environment :=
  Environment 1000 1000 (fun _ _ => Raise (OtherError "timeout"))
              (fun _ => Ok tt).

Definition stale_cache : state :=
  State {[ cache_key "oryudong" 1 := CacheEntry [a_seat] 900 ]} ∅ [].
End Tiers.

(** ** More of the code

    What the modules above leave out of the files they embed, and the
    loop that drives them. *)

(** *** [core/roi_matcher.py]: the tests of the ray casting loop *)

Module Crossing.
Import ROIMatcher.

(** The three outer tests of the loop body on the edge from [p1] to
    [p2]. *)
Definition outer_tests (x y : Q) (p1 p2 : Z * Z) : bool :=
  Qltb (inject_Z (Z.min (snd p1) (snd p2))) y
  && Qleb y (inject_Z (Z.max (snd p1) (snd p2)))
  && Qleb x (inject_Z (Z.max (fst p1) (fst p2))).

Definition below (y : Q) (py : Z) : bool := Qltb (inject_Z py) y.

End Crossing.

(** *** [core/roi_matcher.py]: [add_seat], [remove_seat] *)

Module SeatList.
Import ROIMatcher.

(** [label or f'{seat_id}번 좌석'] *)
Definition label_or_default (seat_id : string) (label : option string)
  : string :=
  match label with
  | Some (String c l) => String c l
  | _ => String.append seat_id "번 좌석"
  end.

(** [add_seat]: the dictionary it appends has no ['type'] key, so the
    seat is a rectangle to [check_occupancy]. *)
Definition add_seat (seat_id : string) (roi : box) (label : option string)
    (seats : list seat) : list seat :=
  seats ++ [Seat seat_id (Some (label_or_default seat_id label))
                 (Rectangle roi)].

(** [remove_seat]: the list after the call and the value returned. *)
Fixpoint remove_seat (seat_id : string) (seats : list seat)
  : list seat * bool :=
  match seats with
  | [] => ([], false)
  | s :: rest =>
      if String.eqb (ROIMatcher.seat_id s) seat_id then (rest, true)
      else let '(rest', found) := remove_seat seat_id rest in
           (s :: rest', found)
  end.
End SeatList.

(** *** [utils/detection_logger.py]: sequences of calls *)

Module LoggerRuns.
Import DetectionLogger.

(** What a caller can make the logger do with an event it has built:
    queue it ([log_frame_detection] with frame logging on), send it at
    once ([log_status_change]), or [flush]. *)
Inductive operation : Type :=
| queue (e : event)
| send (e : event)
| flush_now.

Definition perform (env : environment) (op : operation) : io state unit :=
  match op with
  | queue e => _add_to_batch env e
  | send e => _insert_single env e
  | flush_now => flush env
  end.

(** A sequence of calls, each in its own surroundings.  No call raises,
    so the next one always runs. *)
Fixpoint perform_all (ops : list (environment * operation)) (s : state)
  : state :=
  match ops with
  | [] => s
  | (env, op) :: ops' => perform_all ops' (fst (perform env op s))
  end.

(** The events of the bulk inserts, and of the single inserts, among the
    requests. *)
Definition bulk_rows (cs : list db_call) : list event :=
  flat_map (fun c => match c with insert rows => rows | _ => [] end) cs.

Definition single_rows (cs : list db_call) : list event :=
  flat_map (fun c => match c with
                     | log_detection_event e => [e]
                     | _ => []
                     end) cs.

Definition queued (ops : list (environment * operation)) : list event :=
  flat_map (fun o => match snd o with queue e => [e] | _ => [] end) ops.

Definition sent (ops : list (environment * operation)) : list event :=
  flat_map (fun o => match snd o with send e => [e] | _ => [] end) ops.

(** What the counters should read after the requests [cs], when the
    database answers [answer]. *)
Definition rows_of_call (c : db_call) : Z :=
  match c with
  | insert rows => Z.of_nat (length rows)
  | log_detection_event _ => 1
  end.

Definition succeeded (answer : db_call -> result unit) (c : db_call)
  : bool :=
  match answer c with Ok _ => true | Raise _ => false end.

Definition is_insert (c : db_call) : bool :=
  match c with insert _ => true | _ => false end.

Definition account (answer : db_call -> result unit) (cs : list db_call)
  : statistics :=
  Statistics
    (fold_right Z.add 0%Z
       (map rows_of_call (List.filter (succeeded answer) cs)))
    (Z.of_nat (length (List.filter
                         (fun c => succeeded answer c && is_insert c) cs)))
    (Z.of_nat (length (List.filter
                         (fun c => negb (succeeded answer c)) cs))).
(** The queue is shorter than [batch_size], or empty. *)
Definition within_bound (s : state) : Prop :=
  (Z.of_nat (length (_batch (self s)))
   <= Z.max 0 (batch_size (self s) - 1))%Z.

End LoggerRuns.

(** *** [database/seat_repository.py]: [invalidate_cache] *)

Module CacheControl.
Import SeatRepository.

(** [invalidate_cache(store_id, channel_id)].  [if store_id] is false for
    [None] and for the empty string alike. *)
Definition invalidate_cache (store_id : option string)
    (channel_id : option Z) (s : state) : state :=
  match store_id with
  | Some (String c rest) =>
      let store_id := String c rest in
      match channel_id with
      | Some channel_id =>
          State (delete (cache_key store_id channel_id) (_cache s))
                (files s) (queries s)
      | None =>
          State (filter (fun kv => String.prefix (String.append store_id ":")
                                                 (fst kv) = false)
                        (_cache s))
                (files s) (queries s)
      end
  | _ => State ∅ (files s) (queries s)
  end.

(** The three ways of invalidating that cover a key. *)
Inductive covers (store_id : string) (channel_id : Z)
  : option string -> option Z -> Prop :=
| covers_key : store_id <> "" ->
               covers store_id channel_id (Some store_id) (Some channel_id)
| covers_store : store_id <> "" ->
                 covers store_id channel_id (Some store_id) None
| covers_all (ch : option Z) : covers store_id channel_id None ch
| covers_empty (ch : option Z) : covers store_id channel_id (Some "") ch.

End CacheControl.

(** *** [workers/detection_worker.py]: one pass over a seat, in pieces *)

Module SeatPass.
Import ROIMatcher ChannelWorker Occupancy.

(** The updates among the calls: [(seat_id, status_data)]. *)
Definition updates (cs : list call) : list (string * status_update) :=
  flat_map (fun c => match c with
                     | update_seat_status sid u => [(sid, u)]
                     | _ => []
                     end) cs.

(** The seats whose status was read from the database. *)
Definition reads (cs : list call) : list string :=
  flat_map (fun c => match c with
                     | get_seat_status sid => [sid]
                     | _ => []
                     end) cs.

(** The seat a call is about. *)
Definition seat_of (c : call) : string :=
  match c with
  | log_frame_detection sid _ _ _ _ _ _ => sid
  | get_seat_status sid => sid
  | update_seat_status sid _ => sid
  | log_status_change sid _ _ _ _ _ _ _ _ _ => sid
  end.

(** The pieces of one pass over a seat, named. *)
Definition person_detected_of (info : entry) : bool :=
  String.eqb (status info) "occupied".

Definition confidence_of (info : entry) : Q :=
  if person_detected_of info then max_iou info else 0%Q.

Definition bboxes_of (info : entry) : option (list box) :=
  match person_detected_of info, matched_detection info with
  | true, Some det => Some [bbox det]
  | _, _ => None
  end.

Definition person_count_of (info : entry) : Z :=
  match person_detected_of info, matched_detection info with
  | true, Some _ => 1%Z
  | _, _ => 0%Z
  end.

Definition person_confidence_of (info : entry) : option Q :=
  if person_detected_of info then Some (confidence_of info) else None.

Definition frame_log (w : worker) (b : bool) (ms : Z) (sid : string)
    (info : entry) : list call :=
  if detection_logger w then
    [log_frame_detection sid (person_detected_of info)
       (person_count_of info) (person_confidence_of info) (bboxes_of info)
       b ms]
  else [].

Definition read_log (new_status sid : string) : list call :=
  if String.eqb new_status "empty" then [get_seat_status sid] else [].

(** [(vacant_duration, last_person_seen, last_empty_time)] from what the
    database knows of the seat. *)
Definition vacancy_fields (known : option seat_status_row)
    (new_status : string) (now : Q) : Z * option Q * option Q :=
  if String.eqb new_status "empty" then
    match known with
    | Some (SeatStatusRow (Some t)) =>
        (int_of_float (now - t)%Q, None, Some t)
    | _ => (0%Z, None, Some now)
    end
  else if String.eqb new_status "occupied" then (0%Z, Some now, None)
  else (0%Z, None, None).

Definition update_of (known : option seat_status_row) (w : worker)
    (b : bool) (now : Q) (sid : string) (info : entry) : status_update :=
  let new := new_status_of w b sid info in
  let '(vd, lps, let_) := vacancy_fields known new now in
  StatusUpdate new (person_detected_of info) b (confidence_of info)
               lps let_ vd.

Definition change_log (w : worker) (b : bool) (cnt : nat) (sid : string)
    (info : entry) : list call :=
  let new := new_status_of w b sid info in
  let prev := prev_status_of w sid in
  if negb (String.eqb new prev) && detection_logger w then
    [log_status_change sid (event_type prev new) prev new
       (person_detected_of info) (person_confidence_of info)
       (bboxes_of info) b cnt (max_iou info)]
  else [].

(** What the database knows when the pass reads it; nothing is read
    unless the new status is [empty]. *)
Definition known_of (db : database) (new_status sid : string)
  : result (option seat_status_row) :=
  if String.eqb new_status "empty" then seat_status db sid else Ok None.

(** What a call looks like when no belongings are ever reported. *)
Definition inert (c : call) : Prop :=
  match c with
  | log_frame_detection _ _ _ _ _ b _ => b = false
  | get_seat_status _ => True
  | update_seat_status _ u =>
      (su_status u = "occupied" \/ su_status u = "empty")
      /\ su_object_detected u = false
  | log_status_change _ et _ new _ _ _ b _ _ =>
      (new = "occupied" \/ new = "empty") /\ b = false
      /\ et <> "abandoned_detected"
  end.
End SeatPass.

(** *** [workers/detection_worker.py]: the loop of [run] *)

Module WorkerLoop.
Import ChannelWorker.

(** What one turn of the [while] loop of [run] meets: a frame from
    [capture_frame]; [None] from [capture_frame], with the answer
    [connect_rtsp] gives should the loop ask; or a [KeyboardInterrupt].
    The stop event is set when the turns run out.  [capture_frame] and
    [connect] catch what they raise and the logger catches its database
    errors; logging, the performance monitor, [time.sleep] and
    [disconnect] are taken not to raise and are left out, so that
    [except Exception] is entered from [process_frame] only. *)
Inductive tick : Type :=
| captured (f : frame)
| missed (reconnects : bool)
| interrupted.

(** The locals of [run] and the worker's state; [reconnections] counts
    the calls of [connect_rtsp] made by the loop. *)
Record loop : Type := Loop {
  frame_count : Z;
  error_count : Z;
  worker_state : state;
  reconnections : nat
}.

(** The ways out of the loop: the [while] condition and the three
    [break]s. *)
Inductive exit : Type :=
| stop_event_set
| reconnection_failed
| keyboard_interrupt
| max_errors_reached.

Definition max_errors : Z := 10.

(** The body of the [while] loop; [None] goes round again. *)
Definition iteration (iou_threshold : Q) (t : tick) (l : loop)
  : loop * option exit :=
  match t with
  | interrupted => (l, Some keyboard_interrupt)
  | missed reconnects =>
      let error_count' := (error_count l + 1)%Z in
      if (max_errors <=? error_count')%Z then
        if reconnects then
          (Loop (frame_count l) 0 (worker_state l) (S (reconnections l)),
           None)
        else
          (Loop (frame_count l) error_count' (worker_state l)
                (S (reconnections l)),
           Some reconnection_failed)
      else
        (Loop (frame_count l) error_count' (worker_state l)
              (reconnections l),
         None)
  | captured f =>
      let error_count' := 0%Z in
      let frame_count' := (frame_count l + 1)%Z in
      match process_frame (fr_db f) iou_threshold (fr_detections f)
                          (fr_time f) (fr_ms f) (worker_state l) with
      | (s', Ok _) =>
          (Loop frame_count' error_count' s' (reconnections l), None)
      | (s', Raise _) =>
          let error_count'' := (error_count' + 1)%Z in
          (Loop frame_count' error_count'' s' (reconnections l),
           if (max_errors <=? error_count'')%Z
           then Some max_errors_reached else None)
      end
  end.

Fixpoint run_loop (iou_threshold : Q) (ticks : list tick) (l : loop)
  : loop * exit :=
  match ticks with
  | [] => (l, stop_event_set)
  | t :: ticks' =>
      match iteration iou_threshold t l with
      | (l', Some e) => (l', e)
      | (l', None) => run_loop iou_threshold ticks' l'
      end
  end.

(** [frame_count = 0], [error_count = 0] before the loop. *)
Definition start (s : state) : loop := Loop 0 0 s 0.


End WorkerLoop.

(** *** [utils/logger.py]: [PerformanceMonitor] *)

Module PerformanceMonitor.
Import ROIMatcher.

Record metrics : Type := Metrics {
  frame_count : Z;
  detection_times_ms : list Q;
  error_count : Z;
  warning_count : Z;
  start_time : Q
}.

(** The keyword arguments of [logger.metric("Performance report", ...)]. *)
Record performance_report : Type := PerformanceReport {
  uptime_hours : Q;
  total_frames : Z;
  fps : Q;
  avg_detection_ms : Q;
  pr_error_count : Z;
  pr_warning_count : Z;
  error_rate : Q
}.

(** [reported] holds the calls of [logger.metric], oldest first. *)
Record monitor : Type := Monitor {
  report_interval : Z;
  self_metrics : metrics;
  last_report : Q;
  reported : list performance_report
}.

(** The dictionary [get_stats] returns. *)
Record stats : Type := Stats {
  st_uptime_seconds : Q;
  st_frame_count : Z;
  st_fps : Q;
  st_avg_detection_ms : Q;
  st_error_count : Z;
  st_warning_count : Z
}.

(** The two readings of the clock in [__init__]. *)
Definition __init__ (report_interval : Z) (now_start now_last : Q)
  : monitor :=
  Monitor report_interval (Metrics 0 [] 0 0 now_start) now_last [].

Definition set_metrics (f : metrics -> metrics) (m : monitor) : monitor :=
  Monitor (report_interval m) (f (self_metrics m)) (last_report m)
          (reported m).

(** [sum(xs)]: from 0, left to right. *)
Definition sum (xs : list Q) : Q := fold_left Qplus xs 0%Q.

Definition len (xs : list Q) : Q := inject_Z (Z.of_nat (length xs)).

(** [sum(times) / len(times) if times else 0]. *)
Definition avg_latency (times : list Q) : result Q :=
  match times with
  | [] => Ok 0%Q
  | _ :: _ => truediv (sum times) (len times)
  end.

Section Round.
(** Python's [round(x, ndigits)]. *)
Variable round : Q -> Z -> Q.

Definition report (now : Q) (m : monitor) : result monitor :=
  let mt := self_metrics m in
  let uptime_seconds := (now - start_time mt)%Q in
  if Qeq_bool uptime_seconds 0 then Ok m
  else
    let* fps := truediv (inject_Z (frame_count mt)) uptime_seconds in
    let* avg_latency := avg_latency (detection_times_ms mt) in
    let* error_rate :=
      if (0 <? frame_count mt)%Z
      then truediv (inject_Z (error_count mt)) (inject_Z (frame_count mt))
      else Ok 0%Q in
    let* uptime_hours := truediv uptime_seconds 3600 in
    Ok (Monitor (report_interval m) mt (last_report m)
          (reported m
           ++ [PerformanceReport (round uptime_hours 2) (frame_count mt)
                 (round fps 2) (round avg_latency 2) (error_count mt)
                 (warning_count mt) (round error_rate 4)])).

(** [now_check] is the clock read by [_check_report], [now_report] the
    one read by [report]. *)
Definition _check_report (now_check now_report : Q) (m : monitor)
  : result monitor :=
  if Qleb (inject_Z (report_interval m)) (now_check - last_report m)%Q then
    let* m' := report now_report m in
    Ok (Monitor (report_interval m') (self_metrics m') now_check
                (reported m'))
  else Ok m.

Definition record_frame (detection_time_ms : Q) (now_check now_report : Q)
    (m : monitor) : result monitor :=
  _check_report now_check now_report
    (set_metrics (fun mt =>
       Metrics (frame_count mt + 1)
               (detection_times_ms mt ++ [detection_time_ms])
               (error_count mt) (warning_count mt) (start_time mt)) m).

Definition record_error (m : monitor) : monitor :=
  set_metrics (fun mt =>
    Metrics (frame_count mt) (detection_times_ms mt) (error_count mt + 1)
            (warning_count mt) (start_time mt)) m.

Definition record_warning (m : monitor) : monitor :=
  set_metrics (fun mt =>
    Metrics (frame_count mt) (detection_times_ms mt) (error_count mt)
            (warning_count mt + 1) (start_time mt)) m.

(** A call of one of the three recording methods. *)
Inductive recording : Type :=
| frame (detection_time_ms : Q) (now_check now_report : Q)
| error
| warning.

Definition record (r : recording) (m : monitor) : result monitor :=
  match r with
  | frame ms now_check now_report => record_frame ms now_check now_report m
  | error => Ok (record_error m)
  | warning => Ok (record_warning m)
  end.

Fixpoint record_all (rs : list recording) (m : monitor) : result monitor :=
  match rs with
  | [] => Ok m
  | r :: rs' => let* m' := record r m in record_all rs' m'
  end.

End Round.

Definition get_stats (now : Q) (m : monitor) : result stats :=
  let mt := self_metrics m in
  let uptime_seconds := (now - start_time mt)%Q in
  let* fps :=
    if Qltb 0 uptime_seconds
    then truediv (inject_Z (frame_count mt)) uptime_seconds
    else Ok 0%Q in
  let* avg_latency := avg_latency (detection_times_ms mt) in
  Ok (Stats uptime_seconds (frame_count mt) fps avg_latency
            (error_count mt) (warning_count mt)).


End PerformanceMonitor.

(** ** Facts about the Python layer *)

Module PyFacts.

Lemma Qltb_lt a b : Qltb a b = true <-> (a < b)%Q.
Proof.
  unfold Qltb. rewrite negb_true_iff. split.
  - intros H. apply Qnot_le_lt. intros Hle.
    apply Qle_bool_iff in Hle. congruence.
  - intros H. destruct (Qle_bool b a) eqn:E; [|reflexivity].
    apply Qle_bool_iff in E. exfalso. exact (Qlt_not_le _ _ H E).
Qed.

Lemma Qltb_ge a b : Qltb a b = false <-> (b <= a)%Q.
Proof. unfold Qltb. rewrite negb_false_iff. apply Qle_bool_iff. Qed.

Lemma Qleb_le a b : Qleb a b = true <-> (a <= b)%Q.
Proof. apply Qle_bool_iff. Qed.

Lemma Qltb_spec a b : reflect (a < b)%Q (Qltb a b).
Proof.
  destruct (Qltb a b) eqn:E; constructor.
  - now apply Qltb_lt.
  - apply Qltb_ge in E. now apply Qle_not_lt.
Qed.

Lemma inject_Z_nonzero z : z <> 0%Z -> Qeq_bool (inject_Z z) 0 = false.
Proof.
  intros Hz. destruct (Qeq_bool (inject_Z z) 0) eqn:E; [|reflexivity].
  apply Qeq_bool_iff in E. unfold Qeq in E. simpl in E. lia.
Qed.

End PyFacts.

Module OrderedDictFacts.
Import OrderedDict.
Section Dict.
Context {V : Type}.
Implicit Types (d : list (string * V)) (k : string) (v : V).

Lemma get_set_eq k v d : get k (set k v d) = Some v.
Proof.
  induction d as [|[k' v'] d IH]; simpl.
  - now rewrite String.eqb_refl.
  - destruct (String.eqb k k') eqn:E; simpl; rewrite E; auto.
Qed.

Lemma get_set_ne k k' v d : k <> k' -> get k' (set k v d) = get k' d.
Proof.
  intros Hne. induction d as [|[k0 v0] d IH]; simpl.
  - destruct (String.eqb k' k) eqn:E; [|reflexivity].
    apply String.eqb_eq in E. congruence.
  - destruct (String.eqb k k0) eqn:E; simpl.
    + apply String.eqb_eq in E. subst k0.
      destruct (String.eqb k' k) eqn:E'; [|reflexivity].
      apply String.eqb_eq in E'. congruence.
    + now rewrite IH.
Qed.

Lemma get_set k k' v d :
  get k' (set k v d) = if String.eqb k k' then Some v else get k' d.
Proof.
  destruct (String.eqb k k') eqn:E.
  - apply String.eqb_eq in E. subst. apply get_set_eq.
  - apply String.eqb_neq in E. now apply get_set_ne.
Qed.
Lemma keys_set k v d :
  map fst (set k v d)
  = if existsb (String.eqb k) (map fst d) then map fst d
    else map fst d ++ [k].
Proof.
  induction d as [|[k' v'] d IH]; simpl; [reflexivity|].
  destruct (String.eqb k k') eqn:E; simpl; [reflexivity|].
  rewrite IH. now destruct (existsb _ _).
Qed.

Lemma keys_set_NoDup k v d :
  NoDup (map fst d) -> NoDup (map fst (set k v d)).
Proof.
  intros Hd. rewrite keys_set.
  destruct (existsb (String.eqb k) (map fst d)) eqn:E; [assumption|].
  apply NoDup_app. split; [assumption|]. split.
  - intros x Hx Hx'. apply list_elem_of_singleton in Hx'. subst x.
    assert (existsb (String.eqb k) (map fst d) = true); [|congruence].
    apply existsb_exists. exists k. split.
    + now apply list_elem_of_In.
    + apply String.eqb_refl.
  - apply NoDup_singleton.
Qed.

Lemma get_In_NoDup k v d :
  NoDup (map fst d) -> In (k, v) d -> get k d = Some v.
Proof.
  induction d as [|[k' v'] d IH]; simpl; [intros _ []|].
  intros Hnd [Heq|Hin].
  - injection Heq as -> ->. now rewrite String.eqb_refl.
  - apply NoDup_cons in Hnd. destruct Hnd as [Hk' Hnd].
    destruct (String.eqb_spec k k') as [->|Hne]; [|now apply IH].
    exfalso. apply Hk'. apply list_elem_of_In.
    change k' with (fst (k', v)). now apply in_map.
Qed.
End Dict.
End OrderedDictFacts.

(** ** [calculate_iou] and [point_in_polygon] *)

Module ROIMatcherFacts.
Import ROIMatcher Geometry PyFacts.

Lemma iou_zero_intersection (u : Z) : (inject_Z 0 / inject_Z u == 0)%Q.
Proof. unfold Qdiv. apply Qmult_0_l. Qed.

Lemma iou_self (b : box) :
  valid_box b -> (0 < area b)%Z -> (calculate_iou b b == 1)%Q.
Proof.
  destruct b as [[[x1 y1] x2] y2]. unfold valid_box, area, calculate_iou.
  intros [Hx Hy] Ha.
  rewrite !Z.max_id, !Z.min_id.
  destruct (Z.ltb_spec x2 x1); [lia|].
  destruct (Z.ltb_spec y2 y1); [lia|]. simpl.
  replace ((x2 - x1) * (y2 - y1) + (x2 - x1) * (y2 - y1)
           - (x2 - x1) * (y2 - y1))%Z
    with ((x2 - x1) * (y2 - y1))%Z by lia.
  destruct (Z.eqb_spec ((x2 - x1) * (y2 - y1)) 0); [lia|].
  apply Qmult_inv_r. unfold Qeq. simpl. lia.
Qed.

(** Whenever the intersection rectangle is flat along x or along y,
    the function answers zero, by the early return or by a zero
    numerator. *)
Lemma iou_flat (b1 b2 : box) :
  (let '(x1_1, y1_1, x2_1, y2_1) := b1 in
   let '(x1_2, y1_2, x2_2, y2_2) := b2 in
   (Z.min x2_1 x2_2 <= Z.max x1_1 x1_2
    \/ Z.min y2_1 y2_2 <= Z.max y1_1 y1_2)%Z) ->
  (calculate_iou b1 b2 == 0)%Q.
Proof.
  destruct b1 as [[[x1_1 y1_1] x2_1] y2_1].
  destruct b2 as [[[x1_2 y1_2] x2_2] y2_2].
  unfold calculate_iou. intros H.
  destruct (Z.ltb_spec (Z.min x2_1 x2_2) (Z.max x1_1 x1_2));
    [reflexivity|].
  destruct (Z.ltb_spec (Z.min y2_1 y2_2) (Z.max y1_1 y1_2));
    [reflexivity|]. simpl.
  match goal with |- context [Z.eqb ?u 0] => destruct (Z.eqb u 0) end;
    [reflexivity|].
  replace ((Z.min x2_1 x2_2 - Z.max x1_1 x1_2)
           * (Z.min y2_1 y2_2 - Z.max y1_1 y1_2))%Z with 0%Z by nia.
  apply iou_zero_intersection.
Qed.

Lemma iou_disjoint (b1 b2 : box) :
  disjoint b1 b2 -> (calculate_iou b1 b2 == 0)%Q.
Proof.
  intros H. apply iou_flat.
  destruct b1 as [[[x1_1 y1_1] x2_1] y2_1].
  destruct b2 as [[[x1_2 y1_2] x2_2] y2_2].
  unfold disjoint in H. lia.
Qed.

Lemma iou_degenerate_l (b1 b2 : box) :
  area b1 = 0%Z -> (calculate_iou b1 b2 == 0)%Q.
Proof.
  intros H. apply iou_flat.
  destruct b1 as [[[x1_1 y1_1] x2_1] y2_1].
  destruct b2 as [[[x1_2 y1_2] x2_2] y2_2].
  unfold area in H. apply Z.mul_eq_0 in H. lia.
Qed.

Lemma iou_degenerate_r (b1 b2 : box) :
  area b2 = 0%Z -> (calculate_iou b1 b2 == 0)%Q.
Proof.
  intros H. apply iou_flat.
  destruct b1 as [[[x1_1 y1_1] x2_1] y2_1].
  destruct b2 as [[[x1_2 y1_2] x2_2] y2_2].
  unfold area in H. apply Z.mul_eq_0 in H. lia.
Qed.

(** C8.  [calculate_iou] on the spec's cases: a box with positive area
    has IoU 1 with itself; boxes that an axis-parallel line separates,
    such as (0,0,100,100) and (200,200,300,300), have IoU 0;
    (0,0,100,100) and (50,50,150,150) have IoU 2500/17500 = 1/7, which
    lies between 0.1428 and 0.1429; a rectangle of area zero has IoU 0
    with every box, on either side. *)
Theorem calculate_iou_cases :
  (forall b, valid_box b -> (0 < area b)%Z ->
             (calculate_iou b b == 1)%Q)
  /\ (forall b1 b2, disjoint b1 b2 -> (calculate_iou b1 b2 == 0)%Q)
  /\ calculate_iou (0, 0, 100, 100)%Z (200, 200, 300, 300)%Z = 0%Q
  /\ calculate_iou (0, 0, 100, 100)%Z (50, 50, 150, 150)%Z
     = (2500 # 17500)%Q
  /\ (calculate_iou (0, 0, 100, 100)%Z (50, 50, 150, 150)%Z == 1 # 7)%Q
  /\ (1428 # 10000
      < calculate_iou (0, 0, 100, 100)%Z (50, 50, 150, 150)%Z
      < 1429 # 10000)%Q
  /\ (forall b1 b2, area b1 = 0%Z ->
        (calculate_iou b1 b2 == 0)%Q /\ (calculate_iou b2 b1 == 0)%Q).
Proof.
  split; [exact iou_self|].
  split; [exact iou_disjoint|].
  split; [reflexivity|].
  split; [reflexivity|].
  split; [reflexivity|].
  split; [split; reflexivity|].
  intros b1 b2 H. split.
  - now apply iou_degenerate_l.
  - now apply iou_degenerate_r.
Qed.

Lemma calculate_iou_cases_witness :
  (calculate_iou (100, 100, 200, 200)%Z (100, 100, 200, 200)%Z == 1)%Q
  /\ (calculate_iou (0, 0, 10, 10)%Z (10, 0, 20, 10)%Z == 0)%Q
  /\ (calculate_iou (5, 5, 5, 50)%Z (0, 0, 10, 10)%Z == 0)%Q.
Proof.
  destruct calculate_iou_cases as (Hself & Hdisj & _ & _ & _ & _ & Hdeg).
  split; [|split].
  - apply Hself; simpl; lia.
  - apply Hdisj; simpl; lia.
  - apply (Hdeg (5, 5, 5, 50)%Z (0, 0, 10, 10)%Z). simpl. lia.
Defined.

(** *** [point_in_polygon] always answers *)

Lemma index_in_range (polygon : list (Z * Z)) (i : nat) :
  polygon <> [] ->
  exists p, index polygon (i mod length polygon) = Ok p.
Proof.
  intros Hne. unfold index.
  assert (Hlt : (i mod length polygon < length polygon)%nat).
  { apply Nat.mod_upper_bound. destruct polygon; simpl; congruence. }
  apply lookup_lt_is_Some in Hlt. destruct Hlt as [p Hp].
  exists p. now rewrite Hp.
Qed.

(** An edge whose endpoints have the same y is never crossed: the two
    outer tests cannot both pass. *)
Lemma horizontal_edge_skipped (y : Q) (py : Z) :
  Qltb (inject_Z (Z.min py py)) y = true ->
  Qleb y (inject_Z (Z.max py py)) = true -> False.
Proof.
  rewrite Z.min_id, Z.max_id. intros H1 H2.
  apply Qltb_lt in H1. apply Qleb_le in H2.
  exact (Qlt_not_le _ _ H1 H2).
Qed.

Lemma pip_body_returns (x y : Q) (polygon : list (Z * Z))
    (st : pip_locals) (i : nat) :
  polygon <> [] ->
  exists st', pip_body x y polygon (length polygon) st i = Ok st'.
Proof.
  intros Hne. unfold pip_body.
  destruct (index_in_range polygon i Hne) as [[p2x p2y] ->]. simpl.
  destruct (Qltb (inject_Z (Z.min (p1y st) p2y)) y) eqn:E1;
    [|simpl; eauto].
  destruct (Qleb y (inject_Z (Z.max (p1y st) p2y))) eqn:E2;
    [|simpl; eauto].
  destruct (Qleb x (inject_Z (Z.max (p1x st) p2x))) eqn:E3;
    [|simpl; eauto].
  destruct (Z.eqb_spec (p1y st) p2y) as [Heq|Hneq]; simpl.
  - exfalso. rewrite <- Heq in E1, E2.
    exact (horizontal_edge_skipped _ _ E1 E2).
  - unfold truediv. rewrite inject_Z_nonzero by lia. simpl.
    destruct (p1x st =? p2x)%Z; simpl; eauto.
Qed.

Lemma pip_loop_returns (x y : Q) (polygon : list (Z * Z))
    (range : list nat) :
  polygon <> [] ->
  forall st,
    exists st', pip_loop x y polygon (length polygon) st range = Ok st'.
Proof.
  intros Hne. induction range as [|i range IH]; intros st; simpl.
  - eauto.
  - destruct (pip_body_returns x y polygon st i Hne) as [st1 ->].
    simpl. apply IH.
Qed.

Lemma point_in_polygon_returns (point : Q * Q) (polygon : list (Z * Z)) :
  polygon <> [] -> returns (point_in_polygon point polygon).
Proof.
  intros Hne. destruct point as [x y]. unfold point_in_polygon.
  destruct polygon as [|[p1x0 p1y0] rest] eqn:Ep; [congruence|].
  rewrite <- Ep in *. assert (H0 : index polygon 0 = Ok (p1x0, p1y0)).
  { subst polygon. reflexivity. }
  rewrite H0. simpl.
  destruct (pip_loop_returns x y polygon (seq 1 (length polygon)) Hne
              (PipLocals false None p1x0 p1y0)) as [st ->].
  simpl. eexists. reflexivity.
Qed.

(** An edge whose endpoints have the same y changes neither [inside]
    nor [xinters]: the loop only moves on to the next vertex. *)
Lemma pip_body_horizontal (x y : Q) (polygon : list (Z * Z)) (n : nat)
    (st : pip_locals) (i : nat) (p2x : Z) :
  index polygon (i mod n) = Ok (p2x, p1y st) ->
  pip_body x y polygon n st i
  = Ok (PipLocals (inside st) (xinters st) p2x (p1y st)).
Proof.
  intros Hidx. unfold pip_body. rewrite Hidx. simpl.
  destruct (Qltb (inject_Z (Z.min (p1y st) (p1y st))) y) eqn:E1;
    [|reflexivity].
  destruct (Qleb y (inject_Z (Z.max (p1y st) (p1y st)))) eqn:E2;
    [|reflexivity].
  exfalso. exact (horizontal_edge_skipped _ _ E1 E2).
Qed.

(** C10.  On a polygon with at least one vertex [point_in_polygon]
    returns a boolean for every point: no index is out of range, no
    division is by zero and [xinters] is not read before it is
    assigned.  Every iteration of the loop completes, in whatever state
    the previous ones left the locals; and an edge whose endpoints have
    the same y fails one of the two outer tests, so that the branch that
    divides and compares is entered only with [p1y != p2y], where
    [xinters] has just been assigned, or skips the comparison with
    [p1x == p2x]. *)
Theorem point_in_polygon_total (point : Q * Q)
    (polygon : list (Z * Z)) :
  polygon <> [] ->
  (exists inside : bool, point_in_polygon point polygon = Ok inside)
  /\ (forall (st : pip_locals) (i : nat),
        exists st',
          pip_body (fst point) (snd point) polygon (length polygon) st i
          = Ok st')
  /\ (forall (st : pip_locals) (i : nat) (p2x : Z),
        index polygon (i mod length polygon) = Ok (p2x, p1y st) ->
        pip_body (fst point) (snd point) polygon (length polygon) st i
        = Ok (PipLocals (inside st) (xinters st) p2x (p1y st))).
Proof.
  intros Hne. split; [|split].
  - exact (point_in_polygon_returns point polygon Hne).
  - intros st i. now apply pip_body_returns.
  - intros st i p2x Hidx. now apply pip_body_horizontal.
Qed.

Lemma point_in_polygon_total_witness :
  exists inside : bool,
    point_in_polygon (50 # 1, 50 # 1)%Q
      [(0, 0); (100, 0); (100, 100); (0, 100)]%Z = Ok inside.
Proof.
  apply (point_in_polygon_total (50 # 1, 50 # 1)%Q
           [(0, 0); (100, 0); (100, 100); (0, 100)]%Z).
  discriminate.
Defined.

End ROIMatcherFacts.

(** ** [check_occupancy] *)

Module CheckOccupancy.
Import ROIMatcher Geometry PyFacts ROIMatcherFacts.
Import OrderedDict OrderedDictFacts.

(** *** The first loop against the second *)

Lemma polygon_scan_correct (polygon : list (Z * Z)) (thr : Q)
    (dets : list detection) (occupied : bool) (m : Q) :
  polygon_scan polygon dets = Ok (occupied, m) ->
  if occupied then
    m = 1%Q
    /\ exists d, find_matched (Polygon polygon) thr dets = Ok (Some d)
                 /\ earliest (satisfies (Polygon polygon) thr) dets d
  else
    m = 0%Q
    /\ Forall (fun d => ~ satisfies (Polygon polygon) thr d) dets.
Proof.
  revert occupied m. induction dets as [|d dets IH]; intros occ m; simpl.
  - intros [= <- <-]. split; [reflexivity|constructor].
  - destruct (point_in_polygon (person_bottom_center d) polygon)
      as [[|]|e] eqn:Hpip; simpl; [| |discriminate].
    + intros [= <- <-]. split; [reflexivity|].
      exists d. split; [reflexivity|].
      exists [], dets. repeat split; [constructor|exact Hpip].
    + intros Hscan. specialize (IH occ m Hscan).
      assert (Hd : ~ satisfies (Polygon polygon) thr d).
      { simpl. rewrite Hpip. discriminate. }
      destruct occ.
      * destruct IH as (Hm & d' & Hfind & pre & post & -> & Hpre & Hsat).
        split; [exact Hm|]. exists d'. split; [exact Hfind|].
        exists (d :: pre), post. repeat split; [|exact Hsat].
        now constructor.
      * destruct IH as [Hm Hall]. split; [exact Hm|]. now constructor.
Qed.

Lemma rectangle_scan_correct (seat_box : box) (thr : Q)
    (dets : list detection) :
  forall (m0 : Q) (occupied : bool) (m : Q),
    rectangle_scan seat_box thr m0 dets = (occupied, m) ->
    if occupied then
      exists d, find_matched (Rectangle seat_box) thr dets = Ok (Some d)
                /\ earliest (satisfies (Rectangle seat_box) thr) dets d
    else Forall (fun d => ~ satisfies (Rectangle seat_box) thr d) dets.
Proof.
  induction dets as [|d dets IH]; intros m0 occ m; simpl.
  - intros [= <- <-]. constructor.
  - destruct (Qltb_spec thr (calculate_iou (bbox d) seat_box))
      as [Hhit|Hmiss].
    + intros [= <- <-]. exists d. split; [reflexivity|].
      exists [], dets. repeat split; [constructor|exact Hhit].
    + intros Hscan. specialize (IH _ occ m Hscan). destruct occ.
      * destruct IH as (d' & Hfind & pre & post & -> & Hpre & Hsat).
        exists d'. split; [exact Hfind|].
        exists (d :: pre), post. repeat split; [|exact Hsat].
        now constructor.
      * now constructor.
Qed.

Lemma earliest_nonempty {A} (P : A -> Prop) (l : list A) (d : A) :
  earliest P l d -> Nat.eqb (length l) 0 = false.
Proof.
  intros (pre & post & -> & _). rewrite length_app. simpl.
  apply Nat.eqb_neq. lia.
Qed.

Lemma check_seat_invariant (s : seat) (dets : list detection) (thr : Q)
    (e : entry) :
  check_seat dets thr s = Ok e -> entry_invariant s dets thr e.
Proof.
  unfold check_seat, entry_invariant.
  destruct (seat_roi s) as [seat_box|polygon] eqn:Hroi; simpl.
  - destruct (rectangle_scan seat_box thr 0 dets) as [occ m] eqn:Hscan.
    pose proof (rectangle_scan_correct _ _ _ _ _ _ Hscan) as H.
    destruct occ; simpl.
    + destruct H as (d & Hfind & Hearly).
      rewrite (earliest_nonempty _ _ _ Hearly). simpl.
      rewrite Hfind. simpl. intros [= <-]. simpl.
      repeat split; try discriminate; auto.
      intros d' [= <-]. exact Hearly.
    + intros [= <-]. simpl.
      repeat split; try discriminate; try congruence; auto.
  - destruct (polygon_scan polygon dets) as [[occ m]|err] eqn:Hscan;
      simpl; [|discriminate].
    pose proof (polygon_scan_correct _ thr _ _ _ Hscan) as H.
    destruct occ; simpl.
    + destruct H as (_ & d & Hfind & Hearly).
      rewrite (earliest_nonempty _ _ _ Hearly). simpl.
      rewrite Hfind. simpl. intros [= <-]. simpl.
      repeat split; try discriminate; auto.
      intros d' [= <-]. exact Hearly.
    + destruct H as [_ Hall]. intros [= <-]. simpl.
      repeat split; try discriminate; try congruence; auto.
Qed.

(** *** When [check_seat] returns *)

Lemma polygon_scan_returns (polygon : list (Z * Z))
    (dets : list detection) :
  polygon <> [] -> returns (polygon_scan polygon dets).
Proof.
  intros Hne. induction dets as [|d dets IH]; simpl.
  - eexists; reflexivity.
  - destruct (point_in_polygon_returns (person_bottom_center d) polygon Hne)
      as [[|] ->]; simpl; [eexists; reflexivity|exact IH].
Qed.

Lemma find_matched_returns (r : roi) (thr : Q) (dets : list detection) :
  match r with Polygon polygon => polygon <> [] | Rectangle _ => True end ->
  returns (find_matched r thr dets).
Proof.
  intros Hne. induction dets as [|d dets IH]; simpl.
  - eexists; reflexivity.
  - destruct r as [seat_box|polygon].
    + destruct (Qltb thr _); [eexists; reflexivity|exact IH].
    + destruct (point_in_polygon_returns (person_bottom_center d) polygon Hne)
        as [[|] ->]; simpl; [eexists; reflexivity|exact IH].
Qed.

Lemma check_seat_returns (s : seat) (dets : list detection) (thr : Q) :
  match seat_roi s with
  | Polygon polygon => polygon <> []
  | Rectangle _ => True
  end ->
  returns (check_seat dets thr s).
Proof.
  intros Hne. unfold check_seat.
  assert (Hfirst : exists occ m,
             match seat_roi s with
             | Rectangle seat_box =>
                 Ok (rectangle_scan seat_box thr 0 dets)
             | Polygon polygon => polygon_scan polygon dets
             end = Ok (occ, m)).
  { destruct (seat_roi s) as [seat_box|polygon].
    - destruct (rectangle_scan seat_box thr 0 dets) as [occ m]. eauto.
    - destruct (polygon_scan_returns polygon dets Hne) as [[occ m] ->].
      eauto. }
  destruct Hfirst as (occ & m & ->). simpl.
  destruct (occ && negb (Nat.eqb (length dets) 0)); simpl.
  - destruct (find_matched_returns (seat_roi s) thr dets Hne) as [o ->].
    simpl. eexists; reflexivity.
  - eexists; reflexivity.
Qed.

(** *** From the seats to the dictionary *)

Lemma check_loop_returns (dets : list detection) (thr : Q)
    (seats : list seat) :
  Forall (fun s => returns (check_seat dets thr s)) seats ->
  forall acc, returns (check_loop dets thr seats acc).
Proof.
  induction 1 as [|s seats [e He] _ IH]; intros acc; simpl.
  - eexists; reflexivity.
  - rewrite He. simpl. apply IH.
Qed.

Lemma check_loop_entries (dets : list detection) (thr : Q)
    (seats : list seat) :
  forall acc results,
    check_loop dets thr seats acc = Ok results ->
    forall k e,
      get k results = Some e ->
      (exists s, In s seats /\ seat_id s = k
                 /\ check_seat dets thr s = Ok e)
      \/ get k acc = Some e.
Proof.
  induction seats as [|s seats IH]; intros acc results; simpl.
  - intros [= <-] k e Hk. now right.
  - destruct (check_seat dets thr s) as [e0|err] eqn:Hs; simpl;
      [|discriminate].
    intros Hloop k e Hk.
    destruct (IH _ _ Hloop k e Hk) as [(s' & Hin & Hid & Hs')|Hacc].
    + left. exists s'. auto.
    + rewrite get_set in Hacc.
      destruct (String.eqb (seat_id s) k) eqn:E.
      * apply String.eqb_eq in E. injection Hacc as <-.
        left. exists s. auto.
      * now right.
Qed.

Lemma check_loop_keys (dets : list detection) (thr : Q)
    (seats : list seat) :
  forall acc results,
    check_loop dets thr seats acc = Ok results ->
    forall k,
      (In k (map seat_id seats) \/ get k acc <> None) ->
      get k results <> None.
Proof.
  induction seats as [|s seats IH]; intros acc results; simpl.
  - intros [= <-] k [[]|H]. exact H.
  - destruct (check_seat dets thr s) as [e0|err] eqn:Hs; simpl;
      [|discriminate].
    intros Hloop k Hk. apply (IH _ _ Hloop k).
    destruct Hk as [[<-|Hin]|Hacc].
    + right. rewrite get_set_eq. discriminate.
    + now left.
    + right. rewrite get_set.
      destruct (String.eqb _ _); [discriminate|exact Hacc].
Qed.

(** *** No detections, no seats *)

Lemma check_seat_no_detections (thr : Q) (s : seat) :
  exists l, check_seat [] thr s = Ok (Entry "empty" 0 l None).
Proof.
  unfold check_seat. destruct (seat_roi s); simpl; eexists; reflexivity.
Qed.

(** C4.  With an empty detection list [check_occupancy] returns, and
    every configured seat has an entry whose status is [empty], whose
    score is 0.0 and which has no matched detection; the result holds
    nothing else.  With an empty seat list the result is the empty
    dictionary, whatever the detections. *)
Theorem check_occupancy_empty_inputs :
  (forall (seats : list seat) (thr : Q),
      exists results,
        check_occupancy seats [] thr = Ok results
        /\ (forall s, In s seats ->
              exists e, get (seat_id s) results = Some e
                        /\ status e = "empty"
                        /\ max_iou e = 0%Q
                        /\ matched_detection e = None)
        /\ (forall k e, get k results = Some e ->
              In k (map seat_id seats)
              /\ status e = "empty"
              /\ max_iou e = 0%Q
              /\ matched_detection e = None))
  /\ (forall (dets : list detection) (thr : Q),
        check_occupancy [] dets thr = Ok []).
Proof.
  split; [|reflexivity].
  intros seats thr. unfold check_occupancy.
  assert (Hret : returns (check_loop [] thr seats [])).
  { apply check_loop_returns. apply Forall_forall. intros s _.
    destruct (check_seat_no_detections thr s) as [l Hl].
    eexists; exact Hl. }
  destruct Hret as [results Hres]. exists results.
  split; [exact Hres|].
  assert (Hall : forall k e, get k results = Some e ->
                   In k (map seat_id seats)
                   /\ status e = "empty" /\ max_iou e = 0%Q
                   /\ matched_detection e = None).
  { intros k e Hk.
    destruct (check_loop_entries _ _ _ _ _ Hres k e Hk)
      as [(s & Hin & Hid & Hs)|Hacc]; [|discriminate].
    destruct (check_seat_no_detections thr s) as [l Hl].
    rewrite Hl in Hs. injection Hs as <-. subst k.
    split; [now apply in_map|]. auto. }
  split; [|exact Hall].
  intros s Hin.
  destruct (get (seat_id s) results) as [e|] eqn:Hget.
  - exists e. split; [reflexivity|]. now apply (Hall _ _ Hget).
  - exfalso. apply (check_loop_keys _ _ _ _ _ Hres (seat_id s));
      [|exact Hget].
    left. now apply in_map.
Qed.

Lemma check_occupancy_empty_inputs_witness :
  exists results,
    check_occupancy
      [Seat "A-01" None (Rectangle (100, 100, 200, 200)%Z);
       Seat "A-02" (Some "window")
            (Polygon [(300, 100); (400, 100); (400, 200); (300, 200)]%Z)]
      [] (3 # 10) = Ok results
    /\ exists e, get "A-02" results = Some e
                 /\ status e = "empty"
                 /\ max_iou e = 0%Q
                 /\ matched_detection e = None.
Proof.
  destruct check_occupancy_empty_inputs as [H _].
  destruct (H [Seat "A-01" None (Rectangle (100, 100, 200, 200)%Z);
               Seat "A-02" (Some "window")
                 (Polygon [(300, 100); (400, 100); (400, 200);
                           (300, 200)]%Z)] (3 # 10)%Q)
    as (results & Hres & Hseats & _).
  exists results. split; [exact Hres|].
  apply (Hseats (Seat "A-02" (Some "window")
                   (Polygon [(300, 100); (400, 100); (400, 200);
                             (300, 200)]%Z))).
  simpl. auto.
Defined.

(** *** The rectangle loop stops at the first hit *)

Lemma running_max_step (m0 q : Q) :
  let m1 := if Qltb m0 q then q else m0 in
  (m0 <= m1)%Q /\ (q <= m1)%Q /\ (m1 = m0 \/ m1 = q).
Proof.
  simpl. destruct (Qltb_spec m0 q) as [Hlt|Hge].
  - repeat split; [now apply Qlt_le_weak|apply Qle_refl|now right].
  - repeat split; [apply Qle_refl|now apply Qnot_lt_le|now left].
Qed.

Lemma rectangle_scan_first_hit (seat_box : box) (thr : Q)
    (pre : list detection) (d : detection) (post : list detection) :
  Forall (fun d' => (iou_with seat_box d' <= thr)%Q) pre ->
  (thr < iou_with seat_box d)%Q ->
  forall m0,
  exists m,
    rectangle_scan seat_box thr m0 (pre ++ d :: post) = (true, m)
    /\ rectangle_scan seat_box thr m0 (pre ++ [d]) = (true, m)
    /\ (m0 <= m)%Q
    /\ Forall (fun d' => (iou_with seat_box d' <= m)%Q) (pre ++ [d])
    /\ (m = m0
        \/ Exists (fun d' => m = iou_with seat_box d') (pre ++ [d])).
Proof.
  intros Hpre Hd. induction Hpre as [|d0 pre Hd0 Hpre IH]; intros m0.
  - simpl. fold (iou_with seat_box d).
    apply Qltb_lt in Hd. rewrite Hd.
    destruct (running_max_step m0 (iou_with seat_box d))
      as (H1 & H2 & H3).
    eexists. repeat split; [exact H1| |].
    + constructor; [exact H2|constructor].
    + destruct H3 as [H3|H3]; [now left|right].
      constructor. exact H3.
  - simpl. fold (iou_with seat_box d0).
    apply Qltb_ge in Hd0. rewrite Hd0.
    destruct (running_max_step m0 (iou_with seat_box d0))
      as (H1 & H2 & H3).
    destruct (IH (if Qltb m0 (iou_with seat_box d0)
                  then iou_with seat_box d0 else m0))
      as (m & E1 & E2 & Hle & Hall & Hatt).
    exists m. rewrite E1, E2. repeat split.
    + exact (Qle_trans _ _ _ H1 Hle).
    + constructor; [exact (Qle_trans _ _ _ H2 Hle)|exact Hall].
    + destruct Hatt as [Hm|Hex].
      * rewrite Hm. destruct H3 as [H3|H3]; [now left|right].
        constructor. exact H3.
      * right. now apply Exists_cons_tl.
Qed.

Lemma find_matched_first_hit (seat_box : box) (thr : Q)
    (pre : list detection) (d : detection) (post : list detection) :
  Forall (fun d' => (iou_with seat_box d' <= thr)%Q) pre ->
  (thr < iou_with seat_box d)%Q ->
  find_matched (Rectangle seat_box) thr (pre ++ d :: post) = Ok (Some d).
Proof.
  intros Hpre Hd. induction Hpre as [|d0 pre Hd0 Hpre IH]; simpl.
  - fold (iou_with seat_box d). apply Qltb_lt in Hd. now rewrite Hd.
  - fold (iou_with seat_box d0). apply Qltb_ge in Hd0. now rewrite Hd0.
Qed.

Lemma rectangle_scan_no_hit (seat_box : box) (thr : Q)
    (dets : list detection) :
  Forall (fun d' => (iou_with seat_box d' <= thr)%Q) dets ->
  forall m0, fst (rectangle_scan seat_box thr m0 dets) = false.
Proof.
  induction 1 as [|d0 dets Hd0 _ IH]; intros m0; simpl; [reflexivity|].
  fold (iou_with seat_box d0). apply Qltb_ge in Hd0. rewrite Hd0.
  apply IH.
Qed.

Lemma nonempty_app_cons {A} (pre : list A) (d : A) (post : list A) :
  Nat.eqb (length (pre ++ d :: post)) 0 = false.
Proof. rewrite length_app. simpl. apply Nat.eqb_neq. lia. Qed.

(** C5.  On a rectangle seat the loop runs in detector order and stops
    at the first detection whose IoU with the seat is strictly above
    the threshold: the seat is then occupied, that detection is the
    matched one, and what follows it changes nothing.  The score is
    then at least the IoU of every detection up to and including that
    one, and (the threshold not being negative) it is the IoU of one of
    them.  When no IoU is above the threshold the seat is empty.  The
    score can be below the IoU of a later detection. *)
Theorem rectangle_score_stops_at_first_hit :
  (forall (sid : string) (lbl : option string) (seat_box : box)
          (thr : Q) (pre : list detection) (d : detection)
          (post : list detection),
      Forall (fun d' => (iou_with seat_box d' <= thr)%Q) pre ->
      (thr < iou_with seat_box d)%Q ->
      exists e,
        check_seat (pre ++ d :: post) thr
                   (Seat sid lbl (Rectangle seat_box)) = Ok e
        /\ check_seat (pre ++ [d]) thr
                      (Seat sid lbl (Rectangle seat_box)) = Ok e
        /\ status e = "occupied"
        /\ matched_detection e = Some d
        /\ Forall (fun d' => (iou_with seat_box d' <= max_iou e)%Q)
                  (pre ++ [d])
        /\ ((0 <= thr)%Q ->
            Exists (fun d' => max_iou e = iou_with seat_box d')
                   (pre ++ [d])))
  /\ (forall (sid : string) (lbl : option string) (seat_box : box)
             (thr : Q) (dets : list detection),
         Forall (fun d' => (iou_with seat_box d' <= thr)%Q) dets ->
         exists e,
           check_seat dets thr (Seat sid lbl (Rectangle seat_box)) = Ok e
           /\ status e = "empty")
  /\ (exists e d',
         check_seat [(0, 0, 100, 50, 9 # 10)%Z; (0, 0, 100, 100, 8 # 10)%Z]
                    (3 # 10)
                    (Seat "A-01" None (Rectangle (0, 0, 100, 100)%Z))
         = Ok e
         /\ In d' [(0, 0, 100, 50, 9 # 10)%Z; (0, 0, 100, 100, 8 # 10)%Z]
         /\ (max_iou e < iou_with (0, 0, 100, 100)%Z d')%Q).
Proof.
  split; [|split].
  - intros sid lbl seat_box thr pre d post Hpre Hd.
    destruct (rectangle_scan_first_hit seat_box thr pre d post Hpre Hd 0%Q)
      as (m & E1 & E2 & Hle & Hall & Hatt).
    unfold check_seat. simpl. rewrite E1, E2. simpl.
    rewrite !nonempty_app_cons. simpl.
    rewrite (find_matched_first_hit seat_box thr pre d post Hpre Hd).
    rewrite (find_matched_first_hit seat_box thr pre d [] Hpre Hd).
    simpl. eexists. repeat split; simpl; [exact Hall|].
    intros Hthr. destruct Hatt as [Hm|Hex]; [|exact Hex].
    exfalso. subst m.
    assert (Hd' : (iou_with seat_box d <= 0)%Q).
    { rewrite List.Forall_forall in Hall. apply Hall.
      apply in_or_app. right. now left. }
    apply (Qlt_irrefl 0).
    apply (Qle_lt_trans _ thr); [exact Hthr|].
    apply (Qlt_le_trans _ (iou_with seat_box d)); assumption.
  - intros sid lbl seat_box thr dets Hall.
    pose proof (rectangle_scan_no_hit seat_box thr dets Hall 0%Q) as Hno.
    unfold check_seat. simpl.
    destruct (rectangle_scan seat_box thr 0 dets) as [occ m].
    simpl in Hno. subst occ. simpl. eexists. split; reflexivity.
  - eexists. exists (0, 0, 100, 100, 8 # 10)%Z.
    split; [vm_compute; reflexivity|].
    split; [right; left; reflexivity|].
    vm_compute. reflexivity.
Qed.

Lemma rectangle_score_stops_at_first_hit_witness :
  exists e,
    check_seat ([(300, 300, 400, 400, 7 # 10)%Z]
                ++ (0, 0, 100, 50, 9 # 10)%Z
                :: [(0, 0, 100, 100, 8 # 10)%Z])
               (3 # 10)
               (Seat "A-01" None (Rectangle (0, 0, 100, 100)%Z)) = Ok e
    /\ status e = "occupied"
    /\ matched_detection e = Some (0, 0, 100, 50, 9 # 10)%Z
    /\ Exists (fun d' => max_iou e = iou_with (0, 0, 100, 100)%Z d')
              ([(300, 300, 400, 400, 7 # 10)%Z]
               ++ [(0, 0, 100, 50, 9 # 10)%Z]).
Proof.
  destruct rectangle_score_stops_at_first_hit as [H _].
  destruct (H "A-01" None (0, 0, 100, 100)%Z (3 # 10)%Q
              [(300, 300, 400, 400, 7 # 10)%Z]
              (0, 0, 100, 50, 9 # 10)%Z
              [(0, 0, 100, 100, 8 # 10)%Z])
    as (e & He & _ & Hst & Hm & _ & Hatt).
  - constructor; [|constructor]. vm_compute. discriminate.
  - vm_compute. reflexivity.
  - exists e. repeat split; try assumption.
    apply Hatt. vm_compute. discriminate.
Defined.

(** *** The matched detection *)

(** C9.  Every entry of a [check_occupancy] result belongs to a
    configured seat, its status is [occupied] exactly when its matched
    detection is not [None], and a matched detection is the earliest
    one, in detector order, that satisfies the seat's criterion: its
    bottom-center lies in the polygon, or its IoU with the rectangle is
    strictly above the threshold.  With no matched detection no
    detection satisfies the criterion.  The call returns whenever no
    polygon seat has an empty vertex list. *)
Theorem check_occupancy_matched_detection
    (seats : list seat) (dets : list detection) (thr : Q) :
  (nonempty_polygons seats ->
   returns (check_occupancy seats dets thr))
  /\ (forall results,
        check_occupancy seats dets thr = Ok results ->
        forall k e,
          get k results = Some e ->
          exists s,
            In s seats /\ seat_id s = k
            /\ (status e = "occupied" <-> matched_detection e <> None)
            /\ (forall d, matched_detection e = Some d ->
                   earliest (satisfies (seat_roi s) thr) dets d)
            /\ (matched_detection e = None ->
                Forall (fun d => ~ satisfies (seat_roi s) thr d) dets)).
Proof.
  split.
  - intros Hne. apply check_loop_returns.
    unfold nonempty_polygons in Hne. rewrite Forall_forall in *.
    intros s Hs. apply check_seat_returns. exact (Hne s Hs).
  - intros results Hres k e Hk.
    destruct (check_loop_entries _ _ _ _ _ Hres k e Hk)
      as [(s & Hin & Hid & Hs)|Hacc]; [|discriminate].
    exists s. split; [exact Hin|]. split; [exact Hid|].
    destruct (check_seat_invariant _ _ _ _ Hs) as (H1 & _ & H3 & H4).
    auto.
Qed.

Lemma check_occupancy_matched_detection_witness :
  returns
    (check_occupancy
       [Seat "A-01" None
          (Polygon [(100, 100); (200, 100); (200, 200); (100, 200)]%Z);
        Seat "A-02" None (Rectangle (300, 100, 400, 200)%Z)]
       [(500, 300, 600, 500, 87 # 100)%Z;
        (120, 80, 180, 200, 95 # 100)%Z;
        (130, 90, 170, 190, 90 # 100)%Z]
       (3 # 10))
  /\ exists s,
       In s [Seat "A-01" None
               (Polygon [(100, 100); (200, 100); (200, 200);
                         (100, 200)]%Z);
             Seat "A-02" None (Rectangle (300, 100, 400, 200)%Z)]
       /\ seat_id s = "A-01"
       /\ earliest (satisfies (seat_roi s) (3 # 10))
                   [(500, 300, 600, 500, 87 # 100)%Z;
                    (120, 80, 180, 200, 95 # 100)%Z;
                    (130, 90, 170, 190, 90 # 100)%Z]
                   (120, 80, 180, 200, 95 # 100)%Z.
Proof.
  destruct (check_occupancy_matched_detection
              [Seat "A-01" None
                 (Polygon [(100, 100); (200, 100); (200, 200);
                           (100, 200)]%Z);
               Seat "A-02" None (Rectangle (300, 100, 400, 200)%Z)]
              [(500, 300, 600, 500, 87 # 100)%Z;
               (120, 80, 180, 200, 95 # 100)%Z;
               (130, 90, 170, 190, 90 # 100)%Z]
              (3 # 10)%Q) as [Hret Hinv].
  split.
  - apply Hret. repeat constructor; simpl; discriminate.
  - destruct (Hinv _ eq_refl "A-01"
                (Entry "occupied" 1 "Seat A-01"
                       (Some (120, 80, 180, 200, 95 # 100)%Z))
                eq_refl)
      as (s & Hin & Hid & _ & Hearly & _).
    exists s. repeat split; [exact Hin|exact Hid|].
    apply Hearly. reflexivity.
Defined.

End CheckOccupancy.

(** ** [process_frame] *)

Module ChannelWorkerFacts.
Import ROIMatcher ChannelWorker Occupancy PyFacts.

Lemma status_changes_app (a b : list call) :
  status_changes (a ++ b) = status_changes a ++ status_changes b.
Proof. apply flat_map_app. Qed.

Ltac run_io :=
  unfold process_seat, vacancy, io_bind, io_try, io_get, io_ret, io_lift,
    emit, update_self, io_modify; simpl.

Lemma process_seat_outcome (db : database) (b : bool) (cnt : nat)
    (now : Q) (ms : Z) (sid : string) (info : entry) (s0 : state) :
  seat_outcome db b sid info s0
    (fst (process_seat db b cnt now ms sid info s0))
    (snd (process_seat db b cnt now ms sid info s0)).
Proof.
  unfold new_status_of, prev_status_of.
  run_io.
  destruct (abandoned_logic (self s0) sid (status info)
              (String.eqb (status info) "occupied") b) as [new timer]
    eqn:Hlogic.
  simpl.
  assert (Hnew : new = fst (abandoned_logic (self s0) sid (status info)
                              (String.eqb (status info) "occupied") b))
    by now rewrite Hlogic.
  destruct (String.eqb new "empty") eqn:Hempty;
    [apply String.eqb_eq in Hempty;
     destruct (seat_status db sid) as [[[ [t|] ]|]|e] eqn:Hdb
    |apply String.eqb_neq in Hempty;
     destruct (String.eqb new "occupied")];
    simpl;
    destruct (detection_logger (self s0)) eqn:Hlog; simpl;
    try (destruct (upsert db sid _); simpl);
    try (destruct (String.eqb new _) eqn:Hch; simpl);
    (constructor; simpl;
     unfold new_status_of, prev_status_of;
     rewrite ?Hlogic; simpl; rewrite ?Hlog; try rewrite Hch;
     try rewrite Hdb; simpl;
     rewrite ?status_changes_app; simpl;
     rewrite ?app_nil_r, <- ?app_assoc; simpl;
     first [ reflexivity
           | left; assumption
           | right; eexists; reflexivity
           | split; [assumption|reflexivity] ]).
Qed.

Lemma process_seat_returns (db : database) (b : bool) (cnt : nat)
    (now : Q) (ms : Z) (sid : string) (info : entry) (s0 : state) :
  new_status_of (self s0) b sid info <> "empty"
  \/ returns (seat_status db sid) ->
  snd (process_seat db b cnt now ms sid info s0) = Ok tt.
Proof.
  intros H.
  pose proof (so_result _ _ _ _ _ _ _
                (process_seat_outcome db b cnt now ms sid info s0)) as Hr.
  destruct (snd (process_seat db b cnt now ms sid info s0)) as [[]|e];
    [reflexivity|].
  destruct Hr as [Hempty Hraise]. destruct H as [H|[row Hrow]];
    congruence.
Qed.

(** *** The transition table *)

Lemma event_type_default (prev new : string) :
  ~ In (prev, new) transition_table ->
  event_type prev new = "status_change".
Proof.
  intros Hnot. unfold event_type, event_type_map.
  rewrite (proj1 (not_elem_of_list_to_map _ _)); [reflexivity|].
  intros Hin. apply Hnot. apply list_elem_of_In in Hin. exact Hin.
Qed.


(** C1.  The event type of a status change is read off the transition
    table: the six documented pairs give their documented type and
    every other pair gives [status_change].  When the status computed
    for a seat differs from its previous status, the pass over the seat
    logs exactly one status change, whose type is the table's for
    (previous, new). *)
Theorem event_type_follows_transition_table :
  event_type "empty" "occupied" = "person_enter"
  /\ event_type "occupied" "empty" = "person_leave"
  /\ event_type "empty" "abandoned" = "abandoned_detected"
  /\ event_type "occupied" "abandoned" = "abandoned_detected"
  /\ event_type "abandoned" "occupied" = "person_enter"
  /\ event_type "abandoned" "empty" = "item_removed"
  /\ (forall prev new,
        ~ In (prev, new) transition_table ->
        event_type prev new = "status_change")
  /\ (forall (db : database) (b : bool) (cnt : nat) (now : Q) (ms : Z)
             (sid : string) (info : entry) (s0 : state),
        new_status_of (self s0) b sid info <> prev_status_of (self s0) sid ->
        detection_logger (self s0) = true ->
        (new_status_of (self s0) b sid info <> "empty"
         \/ returns (seat_status db sid)) ->
        snd (process_seat db b cnt now ms sid info s0) = Ok tt
        /\ status_changes
             (calls (fst (process_seat db b cnt now ms sid info s0)))
           = status_changes (calls s0)
             ++ [(sid,
                  event_type (prev_status_of (self s0) sid)
                             (new_status_of (self s0) b sid info),
                  prev_status_of (self s0) sid,
                  new_status_of (self s0) b sid info)]).
Proof.
  repeat (split; [vm_compute; reflexivity|]).
  split; [exact event_type_default|].
  intros db b cnt now ms sid info s0 Hne Hlog Hdb.
  pose proof (process_seat_returns db b cnt now ms sid info s0 Hdb) as Hr.
  split; [exact Hr|].
  rewrite (so_changes _ _ _ _ _ _ _
             (process_seat_outcome db b cnt now ms sid info s0)).
  rewrite Hr, Hlog. apply String.eqb_neq in Hne. rewrite Hne.
  reflexivity.
Qed.

Lemma event_type_follows_transition_table_witness :
  event_type "occupied" "occupied" = "status_change"
  /\ status_changes
       (calls (fst (process_seat sample_db false 0 (100 # 1) 12 "A-01"
                      (Entry "empty" 0 "Seat A-01" None) sample_state)))
     = [("A-01", "person_leave", "occupied", "empty")].
Proof.
  destruct event_type_follows_transition_table
    as (_ & _ & _ & _ & _ & _ & Hother & Hseat).
  split.
  - apply Hother. vm_compute. intuition discriminate.
  - destruct (Hseat sample_db false 0%nat (100 # 1)%Q 12%Z "A-01"
                (Entry "empty" 0 "Seat A-01" None) sample_state)
      as [_ H].
    + vm_compute. discriminate.
    + reflexivity.
    + right. eexists. reflexivity.
    + exact H.
Defined.


(** *** The abandoned timer *)

Lemma timer_after_seat (db : database) (b : bool) (cnt : nat) (now : Q)
    (ms : Z) (sid : string) (info : entry) (s0 : state) :
  abandoned_timer (self (fst (process_seat db b cnt now ms sid info s0)))
                  sid
  = snd (abandoned_logic (self s0) sid (status info)
           (String.eqb (status info) "occupied") b).
Proof.
  unfold abandoned_timer at 1.
  rewrite (so_timer _ _ _ _ _ _ _
             (process_seat_outcome db b cnt now ms sid info s0)).
  now rewrite lookup_insert_eq.
Qed.

Lemma seat_cycles_timer (cnt : nat) (sid : string) (info : entry)
    (cycles : list (database * Q * Z)) :
  status info = "empty" ->
  forall s0,
    let s := seat_cycles true cnt sid info cycles s0 in
    snapshot_interval (self s) = snapshot_interval (self s0)
    /\ abandoned_timer (self s) sid
       = (abandoned_timer (self s0) sid
          + snapshot_interval (self s0) * Z.of_nat (length cycles))%Z.
Proof.
  intros Hst. induction cycles as [|[[db now] ms] cycles IH]; intros s0.
  - simpl. split; [reflexivity|lia].
  - cbn [seat_cycles length].
    destruct (IH (fst (process_seat db true cnt now ms sid info s0)))
      as [Hint Htimer].
    cbv zeta in *. rewrite Hint, Htimer, timer_after_seat.
    rewrite (so_interval _ _ _ _ _ _ _
               (process_seat_outcome db true cnt now ms sid info s0)).
    split; [reflexivity|].
    unfold abandoned_logic. rewrite Hst. simpl. lia.
Qed.

(** C2.  One pass over a seat leaves its abandoned timer at 0 when a
    person is detected; when no person but an object is detected the
    timer grows by the polling interval, and the new status is
    [abandoned] exactly when the grown timer is at least 600, and the
    matcher's [empty] otherwise; when neither is detected the timer is
    0 and the new status is [empty].  With a 3-second interval and a
    timer starting from 0, the status computed in the k-th consecutive
    cycle with an object and no person is [abandoned] exactly when
    k >= 200. *)
Theorem abandoned_timer_rule :
  (forall (db : database) (b : bool) (cnt : nat) (now : Q) (ms : Z)
          (sid : string) (info : entry) (s0 : state),
      let s1 := fst (process_seat db b cnt now ms sid info s0) in
      let new := new_status_of (self s0) b sid info in
      (status info = "occupied" ->
       abandoned_timer (self s1) sid = 0%Z /\ new = "occupied")
      /\ (status info = "empty" -> b = true ->
          abandoned_timer (self s1) sid
          = (abandoned_timer (self s0) sid
             + snapshot_interval (self s0))%Z
          /\ (new = "abandoned"
              <-> (600 <= abandoned_timer (self s1) sid)%Z)
          /\ (new = "empty"
              <-> (abandoned_timer (self s1) sid < 600)%Z))
      /\ (status info = "empty" -> b = false ->
          abandoned_timer (self s1) sid = 0%Z /\ new = "empty")
      /\ (snd (process_seat db b cnt now ms sid info s0) = Ok tt ->
          prev_status_of (self s1) sid = new))
  /\ (forall (cnt : nat) (sid : string) (info : entry)
             (cycles : list (database * Q * Z)) (s0 : state),
        status info = "empty" ->
        snapshot_interval (self s0) = 3%Z ->
        abandoned_timer (self s0) sid = 0%Z ->
        let s := seat_cycles true cnt sid info cycles s0 in
        let k := S (length cycles) in
        abandoned_timer (self s) sid = (3 * Z.of_nat (length cycles))%Z
        /\ (new_status_of (self s) true sid info = "abandoned"
            <-> (200 <= k)%nat)).
Proof.
  split.
  - intros db b cnt now ms sid info s0 s1 new. subst s1 new.
    rewrite timer_after_seat. unfold new_status_of, abandoned_logic.
    split; [|split; [|split]].
    + intros H. rewrite H. split; reflexivity.
    + intros H ->. rewrite H. simpl.
      destruct (Z.leb_spec 600
                  (abandoned_timer (self s0) sid
                   + snapshot_interval (self s0))); simpl;
        (split; [reflexivity|]); split; split; intros;
        try discriminate; try reflexivity; lia.
    + intros H ->. rewrite H. split; reflexivity.
    + intros Hr. unfold prev_status_of.
      rewrite (so_previous _ _ _ _ _ _ _
                 (process_seat_outcome db b cnt now ms sid info s0)).
      rewrite Hr, lookup_insert_eq. reflexivity.
  - intros cnt sid info cycles s0 Hst Hint Ht0 s k. subst s k.
    destruct (seat_cycles_timer cnt sid info cycles Hst s0)
      as [Hint' Htimer].
    cbv zeta in *. rewrite Ht0, Hint in Htimer. rewrite Hint in Hint'.
    split; [rewrite Htimer; lia|].
    unfold new_status_of, abandoned_logic. rewrite Hst. simpl.
    rewrite Htimer, Hint'.
    destruct (Z.leb_spec 600 (0 + 3 * Z.of_nat (length cycles) + 3));
      simpl; split; intros; try discriminate; try reflexivity; lia.
Qed.

Lemma abandoned_timer_rule_witness :
  abandoned_timer
    (self (fst (process_seat sample_db true 0 (100 # 1) 12 "A-02"
                  (Entry "empty" 0 "Seat A-02" None) sample_state)))
    "A-02" = 3%Z
  /\ new_status_of
       (self (seat_cycles true 0 "A-02"
                (Entry "empty" 0 "Seat A-02" None)
                (repeat (sample_db, 100 # 1, 12%Z) 199) sample_state))
       true "A-02" (Entry "empty" 0 "Seat A-02" None)
     = "abandoned".
Proof.
  destruct abandoned_timer_rule as [Hone Hrun]. split.
  - destruct (Hone sample_db true 0%nat (100 # 1)%Q 12%Z "A-02"
                (Entry "empty" 0 "Seat A-02" None) sample_state)
      as (_ & Hobj & _).
    destruct (Hobj eq_refl eq_refl) as [Ht _]. exact Ht.
  - destruct (Hrun 0%nat "A-02" (Entry "empty" 0 "Seat A-02" None)
                (repeat (sample_db, 100 # 1, 12%Z) 199) sample_state
                eq_refl eq_refl eq_refl) as [_ Hk].
    apply Hk. rewrite repeat_length. lia.
Defined.


(** *** Repeated observations *)

Lemma changes_of_app (sid : string) (a b : list call) :
  changes_of sid (a ++ b) = changes_of sid a ++ changes_of sid b.
Proof.
  unfold changes_of. rewrite status_changes_app. apply List.filter_app.
Qed.

Lemma new_status_without_belongings (w : worker) (sid : string)
    (info : entry) :
  new_status_of w false sid info = status info.
Proof.
  unfold new_status_of, abandoned_logic.
  now rewrite andb_false_r.
Qed.

Lemma settles_refl (sid st : string) (s : state) : settles sid st s s.
Proof.
  exists []. rewrite app_nil_r. repeat split. simpl. lia.
Qed.

Lemma settles_trans (sid st : string) (s1 s2 s3 : state) :
  settles sid st s1 s2 -> settles sid st s2 s3 -> settles sid st s1 s3.
Proof.
  intros (e1 & H1 & L1 & S1) (e2 & H2 & L2 & S2).
  exists (e1 ++ e2). rewrite H2, H1, <- app_assoc, length_app.
  repeat split; [lia|congruence].
Qed.

Lemma settles_process_seat (sid st : string) (db : database) (cnt : nat)
    (now : Q) (ms : Z) (k : string) (info : entry) (s : state) :
  (k = sid -> status info = st) ->
  settles sid st s (fst (process_seat db false cnt now ms k info s)).
Proof.
  intros Hk.
  pose proof (process_seat_outcome db false cnt now ms k info s) as O.
  destruct O as [Hch _ Hprev _ Hseats _ _].
  rewrite new_status_without_belongings in *.
  unfold settles, changes_of, pending, prev_status_of.
  rewrite Hch, Hprev, List.filter_app, Hseats.
  eexists. split; [reflexivity|]. split; [|reflexivity].
  destruct (snd (process_seat db false cnt now ms k info s)) as [[]|e].
  - destruct (String.eqb_spec k sid) as [->|Hne].
    + rewrite lookup_insert_eq. simpl. rewrite (Hk eq_refl).
      rewrite String.eqb_refl.
      unfold prev_status_of. rewrite (String.eqb_sym st).
      destruct (String.eqb _ st); simpl.
      * rewrite andb_false_r. simpl. lia.
      * destruct (detection_logger (self s)); simpl;
          rewrite ?String.eqb_refl; simpl; lia.
    + rewrite lookup_insert_ne by exact Hne.
      assert (Hf : String.eqb k sid = false) by now apply String.eqb_neq.
      destruct (detection_logger (self s) && _); simpl;
        rewrite ?Hf; simpl; lia.
  - simpl. lia.
Qed.

Lemma settles_process_items (sid st : string) (db : database)
    (cnt : nat) (now : Q) (ms : Z) (occupancy : list (string * entry)) :
  (forall info, In (sid, info) occupancy -> status info = st) ->
  forall s,
    settles sid st s
      (fst (process_items db false cnt now ms occupancy s)).
Proof.
  induction occupancy as [|[k info] rest IH]; intros Hocc s.
  - apply settles_refl.
  - cbn [process_items]. unfold io_bind.
    pose proof (settles_process_seat sid st db cnt now ms k info s) as H1.
    destruct (process_seat db false cnt now ms k info s) as [s1 [[]|e]].
    + apply (settles_trans _ _ _ s1).
      * apply H1. intros ->. apply Hocc. now left.
      * apply IH. intros i Hi. apply Hocc. now right.
    + apply H1. intros ->. apply Hocc. now left.
Qed.


Lemma settles_process_frame (sid st : string) (db : database) (thr : Q)
    (dets : list detection) (now : Q) (ms : Z) (s : state) :
  (forall occupancy info,
      check_occupancy (seats (self s)) dets thr = Ok occupancy ->
      In (sid, info) occupancy -> status info = st) ->
  settles sid st s (fst (process_frame db thr dets now ms s)).
Proof.
  intros Hocc. unfold process_frame, io_bind, io_get, io_lift.
  destruct (check_occupancy (seats (self s)) dets thr) as [occ|e].
  - apply settles_process_items. intros info. now apply Hocc.
  - apply settles_refl.
Qed.

Lemma settles_run_frames (sid st : string) (thr : Q)
    (dets : list detection) (frames : list frame) :
  Forall (fun f => fr_detections f = dets) frames ->
  forall s,
    (forall occupancy info,
        check_occupancy (seats (self s)) dets thr = Ok occupancy ->
        In (sid, info) occupancy -> status info = st) ->
    settles sid st s (run_frames thr frames s).
Proof.
  induction 1 as [|f frames Hf _ IH]; intros s Hocc.
  - apply settles_refl.
  - cbn [run_frames]. rewrite Hf.
    pose proof (settles_process_frame sid st (fr_db f) thr dets
                  (fr_time f) (fr_ms f) s Hocc) as H1.
    apply (settles_trans _ _ _ _ _ H1). apply IH.
    destruct H1 as (_ & _ & _ & Hseats). rewrite Hseats. exact Hocc.
Qed.

(** The result of [check_occupancy] is a dictionary: one entry per
    key. *)
Lemma check_loop_NoDup (dets : list detection) (thr : Q)
    (seats : list seat) :
  forall acc results,
    NoDup (map fst acc) ->
    check_loop dets thr seats acc = Ok results ->
    NoDup (map fst results).
Proof.
  induction seats as [|s seats IH]; intros acc results Hacc; simpl.
  - now intros [= <-].
  - destruct (check_seat dets thr s) as [e|err]; simpl; [|discriminate].
    apply IH. now apply OrderedDictFacts.keys_set_NoDup.
Qed.

Lemma one_status_per_seat (seats : list seat) (dets : list detection)
    (thr : Q) (sid : string) (occupancy : list (string * entry))
    (info : entry) :
  check_occupancy seats dets thr = Ok occupancy ->
  In (sid, info) occupancy ->
  OrderedDict.get sid occupancy = Some info.
Proof.
  intros Hocc Hin. apply OrderedDictFacts.get_In_NoDup; [|exact Hin].
  apply (check_loop_NoDup dets thr seats [] occupancy);
    [constructor|exact Hocc].
Qed.

(** C7.  A pass over a seat whose computed status equals its previous
    status logs no status change, and any pass logs at most one.  Over
    any number of consecutive frames with the same detections (hence
    the same matcher result), a seat logs at most one status change,
    and none when the matcher's status for it already is its previous
    status. *)
Theorem repeated_observation_logs_one_change :
  (forall (db : database) (b : bool) (cnt : nat) (now : Q) (ms : Z)
          (sid : string) (info : entry) (s0 : state),
      new_status_of (self s0) b sid info = prev_status_of (self s0) sid ->
      status_changes
        (calls (fst (process_seat db b cnt now ms sid info s0)))
      = status_changes (calls s0))
  /\ (forall (db : database) (b : bool) (cnt : nat) (now : Q) (ms : Z)
             (sid : string) (info : entry) (s0 : state),
        (length (status_changes
                   (calls (fst (process_seat db b cnt now ms sid info
                                             s0))))
         <= length (status_changes (calls s0)) + 1)%nat)
  /\ (forall (thr : Q) (dets : list detection) (frames : list frame)
             (s0 : state) (sid : string),
        Forall (fun f => fr_detections f = dets) frames ->
        (length (changes_of sid (calls (run_frames thr frames s0)))
         <= length (changes_of sid (calls s0)) + 1)%nat)
  /\ (forall (thr : Q) (dets : list detection) (frames : list frame)
             (s0 : state) (sid : string)
             (occupancy : list (string * entry)) (info : entry),
        Forall (fun f => fr_detections f = dets) frames ->
        check_occupancy (seats (self s0)) dets thr = Ok occupancy ->
        OrderedDict.get sid occupancy = Some info ->
        status info = prev_status_of (self s0) sid ->
        changes_of sid (calls (run_frames thr frames s0))
        = changes_of sid (calls s0)).
Proof.
  split; [|split; [|split]].
  - intros db b cnt now ms sid info s0 Hsame.
    rewrite (so_changes _ _ _ _ _ _ _
               (process_seat_outcome db b cnt now ms sid info s0)).
    rewrite Hsame, String.eqb_refl, andb_false_r.
    destruct (snd _); apply app_nil_r.
  - intros db b cnt now ms sid info s0.
    rewrite (so_changes _ _ _ _ _ _ _
               (process_seat_outcome db b cnt now ms sid info s0)).
    rewrite length_app.
    destruct (snd _); [destruct (_ && _)|]; simpl; lia.
  - intros thr dets frames s0 sid Hframes.
    set (st := match check_occupancy (seats (self s0)) dets thr with
               | Ok occupancy =>
                   match OrderedDict.get sid occupancy with
                   | Some info => status info
                   | None => ""
                   end
               | Raise _ => ""
               end).
    destruct (settles_run_frames sid st thr dets frames Hframes s0)
      as (extra & Hch & Hlen & _).
    + intros occupancy info Hocc Hin. subst st. rewrite Hocc.
      now rewrite (one_status_per_seat _ _ _ _ _ _ Hocc Hin).
    + rewrite Hch, length_app. unfold pending in Hlen.
      destruct (String.eqb _ _), (String.eqb _ _); lia.
  - intros thr dets frames s0 sid occupancy info Hframes Hocc Hget Hsame.
    destruct (settles_run_frames sid (status info) thr dets frames
                Hframes s0) as (extra & Hch & Hlen & _).
    + intros occupancy' info' Hocc' Hin.
      rewrite Hocc in Hocc'. injection Hocc' as <-.
      rewrite (one_status_per_seat _ _ _ _ _ _ Hocc Hin) in Hget.
      now injection Hget as ->.
    + rewrite Hch. unfold pending in Hlen at 2.
      rewrite <- Hsame, String.eqb_refl in Hlen.
      destruct extra; [apply app_nil_r|simpl in Hlen; lia].
Qed.

Lemma repeated_observation_logs_one_change_witness :
  status_changes
    (calls (fst (process_seat sample_db false 1 (100 # 1) 12 "A-01"
                   (Entry "occupied" 1 "Seat A-01" None) sample_state)))
  = []
  /\ changes_of "A-01"
       (calls (run_frames (3 # 10)
                 [sample_frame; sample_frame; sample_frame]
                 sample_running))
     = [].
Proof.
  destruct repeated_observation_logs_one_change
    as (Hsame & _ & _ & Hrun).
  split.
  - apply (Hsame sample_db false 1%nat (100 # 1)%Q 12%Z "A-01"
             (Entry "occupied" 1 "Seat A-01" None) sample_state).
    reflexivity.
  - apply (Hrun (3 # 10)%Q sample_detections
             [sample_frame; sample_frame; sample_frame] sample_running
             "A-01"
             [("A-01", Entry "occupied" 1 "Seat A-01"
                         (Some (120, 80, 180, 200, 95 # 100)%Z))]
             (Entry "occupied" 1 "Seat A-01"
                    (Some (120, 80, 180, 200, 95 # 100)%Z))).
    + repeat constructor.
    + reflexivity.
    + reflexivity.
    + reflexivity.
Defined.

End ChannelWorkerFacts.

(** ** The event logger *)

Module DetectionLoggerFacts.
Import DetectionLogger Batching PyFacts.

Lemma should_flush_due (env : environment) (l : logger) (e : event) :
  should_flush env (set_batch (_batch l ++ [e]) l) = true
  <-> flush_due env l.
Proof.
  unfold should_flush, flush_due. simpl.
  rewrite orb_true_iff, Z.leb_le, Qleb_le, length_app. simpl.
  rewrite Nat2Z.inj_add. simpl. tauto.
Qed.

Lemma classic_due (env : environment) (l : logger) :
  flush_due env l \/ ~ flush_due env l.
Proof.
  unfold flush_due.
  destruct (Z.le_gt_cases (batch_size l)
              (Z.of_nat (length (_batch l)) + 1)) as [H|H];
    [now left; left|].
  destruct (Qlt_le_dec (now_at_check env - _last_flush l)
                       (flush_interval l)) as [H'|H'];
    [|now left; right].
  right. intros [H1|H2]; [lia|]. exact (Qlt_not_le _ _ H' H2).
Qed.

Ltac run_io :=
  unfold _add_to_batch, _flush_batch, _insert_single, log_status_change,
    log_frame_detection, request, update_self,
    io_bind, io_try, io_get, io_ret, io_modify; simpl.

Lemma add_to_batch_flushes (env : environment) (e : event) (s : state) :
  flush_due env (self s) ->
  let queue := _batch (self s) ++ [e] in
  _add_to_batch env e s
  = (State
       (match db_answer env (insert queue) with
        | Ok _ => count_batch_insert
                    (count_logged (Z.of_nat (length queue))
                       (set_last_flush (now_at_flush env)
                          (set_batch [] (self s))))
        | Raise _ => count_error
                       (set_last_flush (now_at_flush env)
                          (set_batch [] (self s)))
        end)
       (db_calls s ++ [insert queue]),
     Ok tt).
Proof.
  intros Hdue queue. subst queue. run_io.
  apply (should_flush_due env (self s) e) in Hdue. rewrite Hdue.
  destruct (_batch (self s) ++ [e]) eqn:Hq.
  - apply app_eq_nil in Hq. destruct Hq; discriminate.
  - rewrite <- Hq. simpl. rewrite Hq.
    destruct (db_answer env (insert (e0 :: l))) as [[]|err]; reflexivity.
Qed.

Lemma add_to_batch_waits (env : environment) (e : event) (s : state) :
  ~ flush_due env (self s) ->
  _add_to_batch env e s
  = (State (set_batch (_batch (self s) ++ [e]) (self s)) (db_calls s),
     Ok tt).
Proof.
  intros Hdue. run_io.
  destruct (should_flush env _) eqn:E; [|reflexivity].
  exfalso. apply Hdue. now apply (should_flush_due env (self s) e).
Qed.

Lemma insert_single_outcome (env : environment) (e : event) (s : state) :
  _insert_single env e s
  = (State
       (match db_answer env (log_detection_event e) with
        | Ok _ => count_logged 1 (self s)
        | Raise _ => count_error (self s)
        end)
       (db_calls s ++ [log_detection_event e]),
     Ok tt).
Proof.
  run_io. destruct (db_answer env (log_detection_event e)) as [[]|err];
    reflexivity.
Qed.

(** C6.  Appending a telemetry event never raises.  It flushes exactly
    when the queue, the new event included, has reached [batch_size]
    or [flush_interval] seconds have passed since the last flush (10
    events and 5.0 seconds as the worker creates its logger).  A flush
    sends the whole queue in one [insert] and leaves the queue empty;
    when that insert fails the events are gone, [errors] grows by one
    and the other counters stay; when it succeeds [total_logged] grows
    by the queue's length and [batch_inserts] by one.  Without a flush
    nothing is sent and the event waits in the queue.  A status change
    is sent on its own at once by [log_detection_event], does not touch
    the queue, and does not raise either. *)
Theorem batch_flush_and_immediate_status_change :
  (forall (env : environment) (e : event) (s : state),
      let queue := _batch (self s) ++ [e] in
      let s' := fst (_add_to_batch env e s) in
      snd (_add_to_batch env e s) = Ok tt
      /\ (flush_due env (self s) ->
          db_calls s' = db_calls s ++ [insert queue]
          /\ _batch (self s') = []
          /\ _last_flush (self s') = now_at_flush env
          /\ match db_answer env (insert queue) with
             | Ok _ =>
                 total_logged (stats (self s'))
                 = (total_logged (stats (self s))
                    + Z.of_nat (length queue))%Z
                 /\ batch_inserts (stats (self s'))
                    = (batch_inserts (stats (self s)) + 1)%Z
                 /\ errors (stats (self s')) = errors (stats (self s))
             | Raise _ =>
                 errors (stats (self s'))
                 = (errors (stats (self s)) + 1)%Z
                 /\ total_logged (stats (self s'))
                    = total_logged (stats (self s))
                 /\ batch_inserts (stats (self s'))
                    = batch_inserts (stats (self s))
             end)
      /\ (~ flush_due env (self s) ->
          db_calls s' = db_calls s
          /\ _batch (self s') = queue
          /\ _last_flush (self s') = _last_flush (self s)
          /\ stats (self s') = stats (self s)))
  /\ (forall (now : Q) (store : string) (channel : Z) (enable : bool)
             (env : environment),
        let l := create_detection_logger now store channel enable in
        flush_due env l
        <-> (10 <= Z.of_nat (length (_batch l)) + 1)%Z
            \/ (5 <= now_at_check env - _last_flush l)%Q)
  /\ (forall (env : environment) (s : state) (seat_id : string)
             (person_detected : bool) (person_count : Z)
             (person_confidence : option Q)
             (person_bboxes : option (list ROIMatcher.box))
             (belongings_detected : bool)
             (belongings_confidence : option Q)
             (belongings_bboxes : option (list ROIMatcher.box))
             (model_version : string) (processing_time_ms : option Z),
        enable_frame_logging (self s) = true ->
        log_frame_detection env seat_id person_detected person_count
          person_confidence person_bboxes belongings_detected
          belongings_confidence belongings_bboxes model_version
          processing_time_ms s
        = _add_to_batch env
            (_build_event (self s) seat_id "detection_frame"
               person_detected person_count person_confidence
               person_bboxes belongings_detected belongings_confidence
               belongings_bboxes None None model_version
               processing_time_ms None) s)
  /\ (forall (env : environment) (s : state)
             (seat_id event_type previous_status new_status : string)
             (person_detected : bool) (person_confidence : option Q)
             (person_bboxes : option (list ROIMatcher.box))
             (belongings_detected : bool)
             (belongings_confidence : option Q)
             (metadata : option (gmap string Q)),
        let ev :=
          _build_event (self s) seat_id event_type person_detected 0
            person_confidence person_bboxes belongings_detected
            belongings_confidence None (Some previous_status)
            (Some new_status) "yolov8n" None metadata in
        let out :=
          log_status_change env seat_id event_type previous_status
            new_status person_detected person_confidence person_bboxes
            belongings_detected belongings_confidence metadata s in
        snd out = Ok tt
        /\ db_calls (fst out) = db_calls s ++ [log_detection_event ev]
        /\ _batch (self (fst out)) = _batch (self s)
        /\ _last_flush (self (fst out)) = _last_flush (self s)
        /\ match db_answer env (log_detection_event ev) with
           | Ok _ =>
               total_logged (stats (self (fst out)))
               = (total_logged (stats (self s)) + 1)%Z
               /\ errors (stats (self (fst out)))
                  = errors (stats (self s))
           | Raise _ =>
               errors (stats (self (fst out)))
               = (errors (stats (self s)) + 1)%Z
               /\ total_logged (stats (self (fst out)))
                  = total_logged (stats (self s))
           end).
Proof.
  split; [|split; [|split]].
  - intros env e s queue s'. subst queue s'.
    destruct (classic_due env (self s)) as [Hdue|Hdue].
    + rewrite (add_to_batch_flushes env e s Hdue). simpl.
      split; [reflexivity|]. split; [|tauto].
      intros _.
      destruct (db_answer env (insert (_batch (self s) ++ [e])));
        simpl; repeat split; reflexivity.
    + rewrite (add_to_batch_waits env e s Hdue). simpl.
      split; [reflexivity|]. split; [tauto|].
      intros _. repeat split; reflexivity.
  - intros now store channel enable env l. subst l. reflexivity.
  - intros env s seat_id pd pc pconf pb bd bconf bb mv ms Hen.
    unfold log_frame_detection, io_bind, io_get. simpl.
    now rewrite Hen.
  - intros env s seat_id et prev new pd pconf pb bd bconf md ev out.
    subst out. unfold log_status_change, io_bind, io_get. simpl.
    fold ev. rewrite insert_single_outcome. simpl.
    destruct (db_answer env (log_detection_event ev));
      simpl; repeat split; reflexivity.
Qed.

Lemma batch_flush_and_immediate_status_change_witness :
  db_calls (fst (_add_to_batch db_refuses sample_event nine_waiting))
  = [insert (repeat sample_event 10)]
  /\ _batch (self (fst (_add_to_batch db_refuses sample_event
                          nine_waiting))) = []
  /\ errors (stats (self (fst (_add_to_batch db_refuses sample_event
                                 nine_waiting)))) = 1%Z.
Proof.
  destruct batch_flush_and_immediate_status_change as [Hadd _].
  destruct (Hadd db_refuses sample_event nine_waiting)
    as (_ & Hflush & _).
  destruct Hflush as (Hcalls & Hbatch & _ & Herr & _).
  - left. vm_compute. discriminate.
  - split; [exact Hcalls|split; [exact Hbatch|exact Herr]].
Defined.
End DetectionLoggerFacts.

(** ** The seat repository *)

Module SeatRepositoryFacts.
Import SeatRepository Tiers PyFacts.

Lemma fresh_entry_hit (env : environment) (key : string) (s : state)
    (entry : cache_entry) :
  fresh env key s entry -> fresh_entry env key s = Some (data entry).
Proof.
  intros [Hc Hage]. unfold fresh_entry. rewrite Hc.
  apply Qltb_lt in Hage. now rewrite Hage.
Qed.

Lemma fresh_entry_miss (env : environment) (key : string) (s : state) :
  no_fresh_entry env key s <-> fresh_entry env key s = None.
Proof.
  unfold no_fresh_entry, fresh, fresh_entry. split.
  - intros Hno. destruct (_cache s !! key) as [entry|] eqn:Hc;
      [|reflexivity].
    destruct (Qltb_spec (time_at_check env - timestamp entry) _cache_ttl)
      as [Hlt|Hge]; [|reflexivity].
    exfalso. apply (Hno entry). auto.
  - intros Hnone entry [Hc Hage]. rewrite Hc in Hnone.
    apply Qltb_lt in Hage. rewrite Hage in Hnone. discriminate.
Qed.

Lemma fresh_entry_cases (env : environment) (key : string) (s : state) :
  (exists entry, fresh env key s entry
                 /\ fresh_entry env key s = Some (data entry))
  \/ (no_fresh_entry env key s /\ fresh_entry env key s = None).
Proof.
  destruct (fresh_entry env key s) as [d|] eqn:E.
  - left. unfold fresh_entry in E.
    destruct (_cache s !! key) as [entry|] eqn:Hc; [|discriminate].
    destruct (Qltb_spec (time_at_check env - timestamp entry) _cache_ttl)
      as [Hlt|Hge]; [|discriminate].
    injection E as <-. exists entry. repeat split; assumption.
  - right. split; [|reflexivity]. now apply fresh_entry_miss.
Qed.

Lemma save_fallback_returns (env : environment) (key : string)
    (d : list seat_row) (s : state) :
  snd (_save_fallback env key d s) = Ok tt
  /\ _cache (fst (_save_fallback env key d s)) = _cache s
  /\ queries (fst (_save_fallback env key d s)) = queries s.
Proof.
  unfold _save_fallback, io_try, io_bind, io_lift, io_modify, io_ret.
  destruct (write_file env (fallback_path key)) as [[]|e]; simpl; auto.
Qed.

Lemma load_fallback_snapshot (key : string) (s : state) :
  _load_fallback key s = (s, Ok (snapshot s key)).
Proof.
  unfold _load_fallback, snapshot, io_try, io_bind, io_lift, io_get,
    io_ret, json_load.
  destruct (files s !! fallback_path key) as [[d|]|]; reflexivity.
Qed.

Ltac run_io :=
  unfold get_seats_by_channel, io_try, io_bind, io_lift, io_get,
    io_modify, io_ret; simpl.

Lemma get_fresh (env : environment) (store_id : string) (channel_id : Z)
    (s : state) (entry : cache_entry) :
  fresh env (cache_key store_id channel_id) s entry ->
  get_seats_by_channel env store_id channel_id s = (s, Ok (data entry)).
Proof.
  intros Hf. run_io. now rewrite (fresh_entry_hit _ _ _ _ Hf).
Qed.

Lemma get_fetch_fails (env : environment) (store_id : string)
    (channel_id : Z) (s : state) :
  no_fresh_entry env (cache_key store_id channel_id) s ->
  fetch_fails env store_id channel_id ->
  get_seats_by_channel env store_id channel_id s
  = (record_query store_id channel_id s,
     Ok (match _cache s !! cache_key store_id channel_id with
         | Some entry => data entry
         | None => snapshot s (cache_key store_id channel_id)
         end)).
Proof.
  intros Hno [e He]. run_io.
  apply fresh_entry_miss in Hno. rewrite Hno, He. simpl.
  destruct (_cache s !! cache_key store_id channel_id); [reflexivity|].
  now rewrite load_fallback_snapshot.
Qed.

Lemma get_fetch_succeeds (env : environment) (store_id : string)
    (channel_id : Z) (s : state) (response : option (list seat_row)) :
  no_fresh_entry env (cache_key store_id channel_id) s ->
  execute env store_id channel_id = Ok response ->
  let out := get_seats_by_channel env store_id channel_id s in
  snd out = Ok (rows_of response)
  /\ _cache (fst out)
     = <[cache_key store_id channel_id
         := CacheEntry (rows_of response) (time_at_update env)]>
         (_cache s)
  /\ queries (fst out) = queries s ++ [(store_id, channel_id)].
Proof.
  intros Hno He. run_io.
  apply fresh_entry_miss in Hno. rewrite Hno, He. simpl.
  destruct response as [[|r rows]|]; simpl; auto.
  match goal with
  | |- context [_save_fallback ?e ?k ?d ?st] =>
      destruct (save_fallback_returns e k d st) as (Hr & Hc & Hq);
      destruct (_save_fallback e k d st) as [st' r']
  end.
  simpl in *. subst r'. simpl. rewrite Hc, Hq. auto.
Qed.

(** C3, as the code has it.  [get_seats_by_channel] never raises and
    follows the tier order: an entry younger than the 60 s TTL is
    returned and nothing else happens, in particular no query is sent;
    otherwise exactly one query is sent; when it succeeds its rows are
    returned and cached; when it fails an existing cache entry, even an
    expired one, is returned as it is; when it fails and there is no
    cache entry the contents of the local snapshot are returned,
    nothing if the file is absent or unreadable.  An empty list comes
    back only when the tier that answers holds none: a fresh entry with
    no seats, a fetch that succeeded with no rows, a failed fetch with a
    cached empty list, or all tiers exhausted. *)
Theorem tiered_lookup (env : environment) (store_id : string)
    (channel_id : Z) (s : state) :
  let key := cache_key store_id channel_id in
  let out := get_seats_by_channel env store_id channel_id s in
  returns (snd out)
  /\ (forall entry,
        fresh env key s entry -> out = (s, Ok (data entry)))
  /\ (no_fresh_entry env key s ->
      queries (fst out) = queries s ++ [(store_id, channel_id)])
  /\ (no_fresh_entry env key s ->
      forall response,
        execute env store_id channel_id = Ok response ->
        snd out = Ok (rows_of response)
        /\ _cache (fst out)
           = <[key := CacheEntry (rows_of response)
                                 (time_at_update env)]> (_cache s))
  /\ (no_fresh_entry env key s ->
      fetch_fails env store_id channel_id ->
      forall entry,
        _cache s !! key = Some entry ->
        snd out = Ok (data entry) /\ _cache (fst out) = _cache s)
  /\ (fetch_fails env store_id channel_id ->
      _cache s !! key = None ->
      snd out = Ok (snapshot s key))
  /\ (snd out = Ok [] ->
      (exists entry, fresh env key s entry /\ data entry = [])
      \/ (no_fresh_entry env key s
          /\ exists response,
               execute env store_id channel_id = Ok response
               /\ rows_of response = [])
      \/ (no_fresh_entry env key s
          /\ fetch_fails env store_id channel_id
          /\ exists entry, _cache s !! key = Some entry
                           /\ data entry = [])
      \/ tiers_exhausted env store_id channel_id s).
Proof.
  intros key out. subst key out.
  destruct (fresh_entry_cases env (cache_key store_id channel_id) s)
    as [(entry & Hf & _)|[Hno _]].
  - rewrite (get_fresh _ _ _ _ _ Hf). simpl.
    assert (Habs : ~ no_fresh_entry env (cache_key store_id channel_id) s)
      by (intros Hno; exact (Hno entry Hf)).
    split; [eexists; reflexivity|].
    split.
    { intros entry' Hf'. destruct Hf as [Hc _], Hf' as [Hc' _].
      rewrite Hc in Hc'. now injection Hc' as <-. }
    split; [tauto|]. split; [tauto|]. split; [tauto|].
    split.
    { intros _ Hnone. destruct Hf as [Hc _]. congruence. }
    intros [= Hd]. left. exists entry. auto.
  - destruct (execute env store_id channel_id) as [response|e] eqn:He.
    + destruct (get_fetch_succeeds env store_id channel_id s response
                  Hno He) as (Hr & Hc & Hq).
      split; [eexists; exact Hr|].
      split; [intros entry Hf; destruct (Hno entry Hf)|].
      split; [intros _; exact Hq|].
      split.
      { intros _ response' [= <-]. auto. }
      split; [intros _ [e' He']; congruence|].
      split; [intros [e' He']; congruence|].
      intros Hempty. right. left. split; [exact Hno|].
      exists response. split; [reflexivity|]. congruence.
    + assert (Hfail : fetch_fails env store_id channel_id)
        by (exists e; exact He).
      rewrite (get_fetch_fails env store_id channel_id s Hno Hfail).
      simpl.
      split; [eexists; reflexivity|].
      split; [intros entry Hf; destruct (Hno entry Hf)|].
      split; [reflexivity|].
      split; [intros _ response [=]|].
      split.
      { intros _ _ entry ->. auto. }
      split.
      { intros _ ->. reflexivity. }
      destruct (_cache s !! cache_key store_id channel_id)
        as [entry|] eqn:Hc; intros [= Hd].
      * right. right. left. repeat split; auto. exists entry. auto.
      * right. right. right. repeat split; auto.
Qed.

Lemma tiered_lookup_witness :
  snd (get_seats_by_channel backend_down "oryudong" 1 stale_cache)
  = Ok [a_seat].
Proof.
  destruct (tiered_lookup backend_down "oryudong" 1 stale_cache)
    as (_ & _ & _ & _ & Hstale & _).
  destruct (Hstale) with (entry := CacheEntry [a_seat] 900) as [H _].
  - apply fresh_entry_miss. vm_compute. reflexivity.
  - eexists. reflexivity.
  - vm_compute. reflexivity.
  - exact H.
Defined.

(** The claim's last clause fails: the fetch succeeds with no rows, the
    empty list is returned, and the snapshot still holds a seat. *)
Lemma empty_result_before_tiers_exhausted :
  snd (get_seats_by_channel no_rows "oryudong" 1 only_snapshot) = Ok []
  /\ ~ tiers_exhausted no_rows "oryudong" 1 only_snapshot.
Proof.
  split; [vm_compute; reflexivity|].
  intros (_ & [e He] & _). discriminate.
Qed.
End SeatRepositoryFacts.

(** * More of the code: facts *)

(** ** [calculate_iou] *)

Module IoUFacts.
Import ROIMatcher Geometry PyFacts.

(** X1.  The IoU of two boxes does not depend on which of them comes
    first. *)
Theorem iou_symmetric (b1 b2 : box) : calculate_iou b1 b2 = calculate_iou b2 b1.
Proof.
  destruct b1 as [[[x1_1 y1_1] x2_1] y2_1].
  destruct b2 as [[[x1_2 y1_2] x2_2] y2_2].
  unfold calculate_iou.
  rewrite (Z.max_comm x1_2 x1_1), (Z.max_comm y1_2 y1_1),
    (Z.min_comm x2_2 x2_1), (Z.min_comm y2_2 y2_1).
  rewrite (Z.add_comm ((x2_2 - x1_2) * (y2_2 - y1_2))).
  reflexivity.
Qed.

(** X2.  The IoU of two boxes whose corners are in order lies between 0
    and 1. *)
Theorem iou_unit_interval (b1 b2 : box) :
  valid_box b1 -> valid_box b2 ->
  (0 <= calculate_iou b1 b2 <= 1)%Q.
Proof.
  destruct b1 as [[[x1_1 y1_1] x2_1] y2_1].
  destruct b2 as [[[x1_2 y1_2] x2_2] y2_2].
  unfold valid_box, calculate_iou. intros [Hx1 Hy1] [Hx2 Hy2].
  destruct (Z.ltb_spec (Z.min x2_1 x2_2) (Z.max x1_1 x1_2));
    [split; [apply Qle_refl|discriminate]|].
  destruct (Z.ltb_spec (Z.min y2_1 y2_2) (Z.max y1_1 y1_2));
    [split; [apply Qle_refl|discriminate]|].
  simpl.
  set (i := ((Z.min x2_1 x2_2 - Z.max x1_1 x1_2)
             * (Z.min y2_1 y2_2 - Z.max y1_1 y1_2))%Z).
  set (a1 := ((x2_1 - x1_1) * (y2_1 - y1_1))%Z).
  set (a2 := ((x2_2 - x1_2) * (y2_2 - y1_2))%Z).
  assert (Hi : (0 <= i)%Z) by (subst i; nia).
  assert (Hi1 : (i <= a1)%Z) by (subst i a1; nia).
  assert (Hi2 : (i <= a2)%Z) by (subst i a2; nia).
  destruct (Z.eqb_spec (a1 + a2 - i) 0) as [_|Hu];
    [split; [apply Qle_refl|discriminate]|].
  assert (Hpos : (0 < inject_Z (a1 + a2 - i))%Q).
  { rewrite <- (Zlt_Qlt 0). lia. }
  split.
  - apply Qle_shift_div_l; [exact Hpos|].
    rewrite Qmult_0_l. rewrite <- (Zle_Qle 0). exact Hi.
  - apply Qle_shift_div_r; [exact Hpos|].
    rewrite Qmult_1_l. rewrite <- Zle_Qle. lia.
Qed.

Lemma iou_unit_interval_witness :
  (0 <= calculate_iou (0, 0, 10, 10)%Z (5, 5, 15, 15)%Z <= 1)%Q.
Proof.
  apply iou_unit_interval; unfold valid_box; simpl; lia.
Defined.
End IoUFacts.

(** ** [point_in_polygon] *)

Module PolygonFacts.
Import ROIMatcher Geometry PyFacts ROIMatcherFacts.

(** An edge with both endpoints at the same x flips [inside] exactly
    when the point's y lies in the edge's half-open span and the point
    is not to the right of it. *)
Lemma pip_body_vertical (x y : Q) (polygon : list (Z * Z)) (n : nat)
    (st : pip_locals) (i : nat) (p2y : Z) :
  index polygon (i mod n) = Ok (p1x st, p2y) ->
  exists xi,
    pip_body x y polygon n st i
    = Ok (PipLocals
            (xorb (inside st)
                  (Qltb (inject_Z (Z.min (p1y st) p2y)) y
                   && Qleb y (inject_Z (Z.max (p1y st) p2y))
                   && Qleb x (inject_Z (p1x st))))
            xi (p1x st) p2y).
Proof.
  intros Hidx. unfold pip_body. rewrite Hidx. simpl.
  rewrite Z.max_id, Z.eqb_refl.
  destruct (Qltb (inject_Z (Z.min (p1y st) p2y)) y) eqn:E1; simpl;
    [|rewrite xorb_false_r; eauto].
  destruct (Qleb y (inject_Z (Z.max (p1y st) p2y))) eqn:E2; simpl;
    [|rewrite xorb_false_r; eauto].
  destruct (Qleb x (inject_Z (p1x st))) eqn:E3; simpl;
    [|rewrite xorb_false_r; eauto].
  destruct (Z.eqb_spec (p1y st) p2y) as [Heq|Hneq]; simpl.
  - exfalso. rewrite <- Heq in E1, E2.
    exact (horizontal_edge_skipped _ _ E1 E2).
  - unfold truediv. rewrite inject_Z_nonzero by lia. simpl.
    rewrite xorb_true_r. eauto.
Qed.

(** X3.  A rectangle drawn as a polygon, corners in the order
    [(x0, y0); (x1, y0); (x1, y1); (x0, y1)]: [point_in_polygon] returns,
    and holds a point inside exactly when [x0 < x <= x1] and
    [y0 < y <= y1].  The sides through [(x0, y0)] are outside, the sides
    through [(x1, y1)] inside. *)
Theorem rectangle_polygon (x y : Q) (x0 y0 x1 y1 : Z) :
  (x0 <= x1)%Z -> (y0 <= y1)%Z ->
  point_in_polygon (x, y) [(x0, y0); (x1, y0); (x1, y1); (x0, y1)]
  = Ok (Qltb (inject_Z y0) y && Qleb y (inject_Z y1)
        && (Qltb (inject_Z x0) x && Qleb x (inject_Z x1))).
Proof.
  intros Hx Hy. unfold point_in_polygon.
  set (polygon := [(x0, y0); (x1, y0); (x1, y1); (x0, y1)]).
  change (index polygon 0) with (Ok (A:=Z * Z) (x0, y0)).
  cbn [bind length polygon seq pip_loop].
  rewrite (pip_body_horizontal x y polygon 4 (PipLocals false None x0 y0)
             1 x1 eq_refl).
  cbn [bind inside xinters p1y].
  destruct (pip_body_vertical x y polygon 4 (PipLocals false None x1 y0)
              2 y1 eq_refl) as [xi1 ->].
  cbn [bind inside xinters p1x p1y].
  match goal with
  | |- context [pip_body x y polygon 4 ?st 3] =>
      rewrite (pip_body_horizontal x y polygon 4 st 3 x0 eq_refl)
  end.
  cbn [bind inside xinters p1x p1y].
  match goal with
  | |- context [pip_body x y polygon 4 ?st 4] =>
      destruct (pip_body_vertical x y polygon 4 st 4 y0 eq_refl)
        as [xi2 ->]
  end.
  cbn [bind inside xinters p1x p1y]. f_equal.
  rewrite (Z.min_l y0 y1), (Z.max_r y0 y1), (Z.min_r y1 y0),
    (Z.max_l y1 y0) by lia.
  simpl xorb.
  destruct (Qltb (inject_Z y0) y && Qleb y (inject_Z y1)); simpl;
    [|reflexivity].
  destruct (Qltb_spec (inject_Z x0) x) as [Hl|Hl]; simpl.
  - assert (E : Qleb x (inject_Z x0) = false).
    { destruct (Qleb x (inject_Z x0)) eqn:E; [|reflexivity].
      apply Qleb_le in E. exfalso. exact (Qlt_not_le _ _ Hl E). }
    rewrite E. now rewrite xorb_false_r.
  - apply Qnot_lt_le in Hl.
    assert (E : Qleb x (inject_Z x0) = true) by now apply Qleb_le.
    assert (E' : Qleb x (inject_Z x1) = true).
    { apply Qleb_le. apply (Qle_trans _ (inject_Z x0)); [exact Hl|].
      now rewrite <- Zle_Qle. }
    rewrite E, E'. reflexivity.
Qed.

Lemma rectangle_polygon_witness :
  point_in_polygon (10%Q, 5%Q) [(0, 0); (10, 0); (10, 10); (0, 10)]%Z = Ok true
  /\ point_in_polygon (0%Q, 5%Q) [(0, 0); (10, 0); (10, 10); (0, 10)]%Z
     = Ok false.
Proof.
  split.
  - exact (rectangle_polygon 10 5 0 0 10 10 ltac:(lia) ltac:(lia)).
  - exact (rectangle_polygon 0 5 0 0 10 10 ltac:(lia) ltac:(lia)).
Defined.
End PolygonFacts.

Module BoundingBox.
Import ROIMatcher Geometry Crossing PyFacts ROIMatcherFacts.

Lemma pip_body_untested (x y : Q) (polygon : list (Z * Z)) (n : nat)
    (st : pip_locals) (i : nat) (p2 : Z * Z) :
  index polygon (i mod n) = Ok p2 ->
  outer_tests x y (p1x st, p1y st) p2 = false ->
  pip_body x y polygon n st i
  = Ok (PipLocals (inside st) (xinters st) (fst p2) (snd p2)).
Proof.
  intros Hidx Ht. unfold pip_body. rewrite Hidx. destruct p2 as [p2x p2y].
  unfold outer_tests in Ht. simpl in *.
  destruct (Qltb _ y); [|reflexivity].
  destruct (Qleb y _); [|reflexivity].
  destruct (Qleb x _); [discriminate|reflexivity].
Qed.

Lemma index_elem (polygon : list (Z * Z)) (i : nat) (p : Z * Z) :
  index polygon i = Ok p -> In p polygon.
Proof.
  unfold index. destruct (polygon !! i) eqn:E; [|discriminate].
  intros [= <-]. apply list_elem_of_In. eapply list_elem_of_lookup_2.
  exact E.
Qed.

Lemma pip_loop_untested (x y : Q) (polygon : list (Z * Z))
    (range : list nat) :
  polygon <> [] ->
  (forall p1 p2, In p1 polygon -> In p2 polygon ->
                 outer_tests x y p1 p2 = false) ->
  forall st,
    In (p1x st, p1y st) polygon ->
    exists st',
      pip_loop x y polygon (length polygon) st range = Ok st'
      /\ inside st' = inside st.
Proof.
  intros Hne Hout. induction range as [|i range IH]; intros st Hst; simpl.
  - eauto.
  - destruct (index_in_range polygon i Hne) as [p2 Hp2].
    rewrite (pip_body_untested x y polygon _ st i p2 Hp2).
    + simpl.
      destruct (IH (PipLocals (inside st) (xinters st) (fst p2) (snd p2)))
        as (st' & Hloop & Hin).
      * simpl. rewrite <- surjective_pairing.
        exact (index_elem _ _ _ Hp2).
      * exists st'. split; [exact Hloop|exact Hin].
    + apply Hout; [exact Hst|exact (index_elem _ _ _ Hp2)].
Qed.

Lemma outside_when_untested (x y : Q) (polygon : list (Z * Z)) :
  polygon <> [] ->
  (forall p1 p2, In p1 polygon -> In p2 polygon ->
                 outer_tests x y p1 p2 = false) ->
  point_in_polygon (x, y) polygon = Ok false.
Proof.
  intros Hne Hout. unfold point_in_polygon.
  destruct polygon as [|[p1x0 p1y0] rest] eqn:Ep; [congruence|].
  rewrite <- Ep in *.
  assert (H0 : index polygon 0 = Ok (p1x0, p1y0)) by now subst polygon.
  rewrite H0. simpl.
  destruct (pip_loop_untested x y polygon (seq 1 (length polygon)) Hne Hout
              (PipLocals false None p1x0 p1y0)) as (st & -> & Hin).
  - simpl. subst polygon. now left.
  - simpl. now rewrite Hin.
Qed.

Lemma Qleb_false (a b : Q) : (b < a)%Q -> Qleb a b = false.
Proof.
  intros H. destruct (Qleb a b) eqn:E; [|reflexivity].
  apply Qleb_le in E. exfalso. exact (Qlt_not_le _ _ H E).
Qed.

Lemma Qltb_false (a b : Q) : (b <= a)%Q -> Qltb a b = false.
Proof. intros H. now apply Qltb_ge. Qed.

(** A point above, below or to the right of every vertex. *)
Lemma outside_three_sides (x y : Q) (polygon : list (Z * Z)) :
  polygon <> [] ->
  (forall p, In p polygon -> (inject_Z (snd p) < y)%Q)
  \/ (forall p, In p polygon -> (y <= inject_Z (snd p))%Q)
  \/ (forall p, In p polygon -> (inject_Z (fst p) < x)%Q) ->
  point_in_polygon (x, y) polygon = Ok false.
Proof.
  intros Hne H. apply outside_when_untested; [exact Hne|].
  intros p1 p2 H1 H2. unfold outer_tests.
  destruct H as [H|[H|H]].
  - assert (E : Qleb y (inject_Z (Z.max (snd p1) (snd p2))) = false).
    { apply Qleb_false.
      destruct (Z.max_spec (snd p1) (snd p2)) as [[_ ->]|[_ ->]]; auto. }
    rewrite E. now rewrite andb_false_r.
  - assert (E : Qltb (inject_Z (Z.min (snd p1) (snd p2))) y = false).
    { apply Qltb_false.
      destruct (Z.min_spec (snd p1) (snd p2)) as [[_ ->]|[_ ->]]; auto. }
    now rewrite E.
  - assert (E : Qleb x (inject_Z (Z.max (fst p1) (fst p2))) = false).
    { apply Qleb_false.
      destruct (Z.max_spec (fst p1) (fst p2)) as [[_ ->]|[_ ->]]; auto. }
    rewrite E. now rewrite andb_false_r.
Qed.

(** *** To the left of every vertex *)

Lemma div_between (X S D P : Q) :
  (0 < D -> 0 <= S <= D -> X <= 0 -> X <= P -> X <= S * P / D)%Q.
Proof.
  intros HD [HS0 HSD] HX0 HXP.
  apply Qle_shift_div_l; [exact HD|].
  destruct (Qlt_le_dec P 0) as [HP|HP]; nra.
Qed.

Lemma div_between_neg (X S D P : Q) :
  (D < 0 -> D <= S <= 0 -> X <= 0 -> X <= P -> X <= S * P / D)%Q.
Proof.
  intros HD [HSD HS0] HX0 HXP.
  assert (E : (S * P / D == (- S) * P / (- D))%Q).
  { field. intros H. rewrite H in HD. exact (Qlt_irrefl _ HD). }
  rewrite E. apply div_between; try assumption; lra.
Qed.

(** The crossing point of a counted edge lies between its endpoints,
    hence not to the left of a point that is left of both. *)
Lemma xinters_not_left (x y : Q) (ax ay bx by_ : Z) :
  ay <> by_ ->
  (inject_Z (Z.min ay by_) < y)%Q ->
  (y <= inject_Z (Z.max ay by_))%Q ->
  (x <= inject_Z ax)%Q -> (x <= inject_Z bx)%Q ->
  (x <= (y - inject_Z ay) * inject_Z (bx - ax) / inject_Z (by_ - ay)
        + inject_Z ax)%Q.
Proof.
  intros Hne Hmin Hmax Hax Hbx.
  assert (HP : (inject_Z (bx - ax) == inject_Z bx - inject_Z ax)%Q).
  { unfold Z.sub. rewrite inject_Z_plus, inject_Z_opp. reflexivity. }
  assert (HD : (inject_Z (by_ - ay) == inject_Z by_ - inject_Z ay)%Q).
  { unfold Z.sub. rewrite inject_Z_plus, inject_Z_opp. reflexivity. }
  assert (Hgoal : (x - inject_Z ax
                   <= (y - inject_Z ay) * inject_Z (bx - ax)
                      / inject_Z (by_ - ay))%Q); [|lra].
  destruct (Z.lt_total ay by_) as [Hlt|[Heq|Hgt]]; [|congruence|].
  - rewrite Z.min_l, Z.max_r in * by lia.
    assert (Hq : (inject_Z ay < inject_Z by_)%Q) by now rewrite <- Zlt_Qlt.
    apply div_between; rewrite ?HD, ?HP; lra.
  - rewrite Z.min_r, Z.max_l in * by lia.
    assert (Hq : (inject_Z by_ < inject_Z ay)%Q) by now rewrite <- Zlt_Qlt.
    apply div_between_neg; rewrite ?HD, ?HP; lra.
Qed.

Lemma span_is_xor (y : Q) (a b : Z) :
  Qltb (inject_Z (Z.min a b)) y && Qleb y (inject_Z (Z.max a b))
  = xorb (below y a) (below y b).
Proof.
  unfold below.
  destruct (Qltb_spec (inject_Z a) y) as [Ha|Ha];
    destruct (Qltb_spec (inject_Z b) y) as [Hb|Hb]; simpl.
  - apply andb_false_iff. right. apply Qleb_false.
    destruct (Z.max_spec a b) as [[_ ->]|[_ ->]]; assumption.
  - apply andb_true_iff. split.
    + apply Qltb_lt.
      destruct (Z.min_spec a b) as [[_ ->]|[Hle ->]]; [assumption|].
      apply (Qle_lt_trans _ (inject_Z a)); [|assumption].
      rewrite <- Zle_Qle. lia.
    + apply Qleb_le.
      destruct (Z.max_spec a b) as [[_ ->]|[Hle ->]];
        [now apply Qnot_lt_le|].
      apply (Qle_trans _ (inject_Z b)); [now apply Qnot_lt_le|].
      rewrite <- Zle_Qle. lia.
  - apply andb_true_iff. split.
    + apply Qltb_lt.
      destruct (Z.min_spec a b) as [[Hlt ->]|[_ ->]]; [|assumption].
      apply (Qle_lt_trans _ (inject_Z b)); [|assumption].
      rewrite <- Zle_Qle. lia.
    + apply Qleb_le.
      destruct (Z.max_spec a b) as [[Hlt ->]|[_ ->]];
        [|now apply Qnot_lt_le].
      apply (Qle_trans _ (inject_Z a)); [now apply Qnot_lt_le|].
      rewrite <- Zle_Qle. lia.
  - apply andb_false_iff. left. apply Qltb_false.
    destruct (Z.min_spec a b) as [[_ ->]|[_ ->]]; now apply Qnot_lt_le.
Qed.

Lemma pip_body_left (x y : Q) (polygon : list (Z * Z)) (n : nat)
    (st : pip_locals) (i : nat) (p2x p2y : Z) :
  index polygon (i mod n) = Ok (p2x, p2y) ->
  (x <= inject_Z (p1x st))%Q -> (x <= inject_Z p2x)%Q ->
  exists xi,
    pip_body x y polygon n st i
    = Ok (PipLocals (xorb (inside st)
                          (xorb (below y (p1y st)) (below y p2y)))
                    xi p2x p2y).
Proof.
  intros Hidx H1 H2. unfold pip_body. rewrite Hidx. simpl.
  rewrite <- (span_is_xor y (p1y st) p2y).
  destruct (Qltb (inject_Z (Z.min (p1y st) p2y)) y) eqn:E1; simpl;
    [|rewrite xorb_false_r; eauto].
  destruct (Qleb y (inject_Z (Z.max (p1y st) p2y))) eqn:E2; simpl;
    [|rewrite xorb_false_r; eauto].
  assert (E3 : Qleb x (inject_Z (Z.max (p1x st) p2x)) = true).
  { apply Qleb_le. apply (Qle_trans _ (inject_Z (p1x st))); [exact H1|].
    rewrite <- Zle_Qle. lia. }
  rewrite E3.
  destruct (Z.eqb_spec (p1y st) p2y) as [Heq|Hneq]; simpl.
  - exfalso. rewrite <- Heq in E1, E2.
    exact (horizontal_edge_skipped _ _ E1 E2).
  - unfold truediv. rewrite inject_Z_nonzero by lia. simpl.
    rewrite xorb_true_r.
    destruct (p1x st =? p2x)%Z; simpl; [eauto|].
    assert (E4 : Qleb x
                   ((y - inject_Z (p1y st)) * inject_Z (p2x - p1x st)
                    / inject_Z (p2y - p1y st) + inject_Z (p1x st))
                 = true).
    { apply Qleb_le. apply xinters_not_left; try assumption.
      - now apply Qltb_lt.
      - now apply Qleb_le. }
    rewrite E4. eauto.
Qed.

Lemma pip_loop_left (x y : Q) (polygon : list (Z * Z))
    (range : list nat) :
  polygon <> [] ->
  (forall p, In p polygon -> (x <= inject_Z (fst p))%Q) ->
  forall st,
    (x <= inject_Z (p1x st))%Q ->
    exists st',
      pip_loop x y polygon (length polygon) st range = Ok st'
      /\ inside st'
         = xorb (inside st) (xorb (below y (p1y st)) (below y (p1y st')))
      /\ index polygon
           (match last range with
            | Some i => i mod length polygon
            | None => 0
            end)
         = (match last range with
            | Some _ => Ok (p1x st', p1y st')
            | None => index polygon 0
            end).
Proof.
  intros Hne Hleft. induction range as [|i range IH]; intros st Hst.
  - simpl. exists st. split; [reflexivity|]. split; [|reflexivity].
    now rewrite xorb_nilpotent, xorb_false_r.
  - cbn [pip_loop].
    destruct (index_in_range polygon i Hne) as [[p2x p2y] Hp2].
    assert (H2 : (x <= inject_Z p2x)%Q)
      by exact (Hleft _ (index_elem _ _ _ Hp2)).
    destruct (pip_body_left x y polygon _ st i p2x p2y Hp2 Hst H2)
      as [xi ->].
    cbn [bind].
    destruct (IH (PipLocals (xorb (inside st)
                               (xorb (below y (p1y st)) (below y p2y)))
                            xi p2x p2y) H2)
      as (st' & Hloop & Hin & Hlast).
    exists st'. split; [exact Hloop|]. split.
    + rewrite Hin. cbn [inside p1y].
      destruct (inside st), (below y (p1y st)), (below y p2y),
        (below y (p1y st')); reflexivity.
    + destruct range as [|j range']; [|exact Hlast].
      simpl in Hloop. injection Hloop as <-. exact Hp2.
Qed.

Lemma last_seq (n : nat) : last (seq 1 (S n)) = Some (S n).
Proof.
  rewrite seq_S. rewrite last_snoc. reflexivity.
Qed.

Lemma outside_left (x y : Q) (polygon : list (Z * Z)) :
  polygon <> [] ->
  (forall p, In p polygon -> (x <= inject_Z (fst p))%Q) ->
  point_in_polygon (x, y) polygon = Ok false.
Proof.
  intros Hne Hleft. unfold point_in_polygon.
  destruct polygon as [|[p1x0 p1y0] rest] eqn:Ep; [congruence|].
  rewrite <- Ep in *.
  assert (H0 : index polygon 0 = Ok (p1x0, p1y0)) by now subst polygon.
  rewrite H0. cbn [bind].
  assert (Hlen : length polygon = S (length rest)) by now subst polygon.
  destruct (pip_loop_left x y polygon (seq 1 (length polygon)) Hne Hleft
              (PipLocals false None p1x0 p1y0)) as (st & -> & Hin & Hlast).
  - simpl. apply (Hleft (p1x0, p1y0)). subst polygon. now left.
  - cbn [bind]. rewrite Hin. cbn [inside p1y].
    rewrite Hlen, last_seq in Hlast. rewrite <- Hlen in Hlast.
    rewrite Nat.Div0.mod_same in Hlast. rewrite H0 in Hlast.
    injection Hlast as _ <-. now rewrite xorb_nilpotent.
Qed.

(** X4.  A point outside the bounding box of the vertices is outside
    the polygon: when every vertex is to its right or at its [x], or
    every vertex strictly to its left, or every vertex at its [y] or
    beyond, or every vertex strictly before its [y],
    [point_in_polygon] returns [False], whatever the order and the
    number of the vertices. *)
Theorem outside_bounding_box (x y : Q) (polygon : list (Z * Z)) :
  polygon <> [] ->
  (forall p, In p polygon -> (x <= inject_Z (fst p))%Q)
  \/ (forall p, In p polygon -> (inject_Z (fst p) < x)%Q)
  \/ (forall p, In p polygon -> (y <= inject_Z (snd p))%Q)
  \/ (forall p, In p polygon -> (inject_Z (snd p) < y)%Q) ->
  point_in_polygon (x, y) polygon = Ok false.
Proof.
  intros Hne [H|[H|[H|H]]].
  - now apply outside_left.
  - apply outside_three_sides; auto.
  - apply outside_three_sides; auto.
  - apply outside_three_sides; auto.
Qed.

Lemma outside_bounding_box_witness :
  point_in_polygon ((-5)%Q, 5%Q) [(0, 0); (10, 0); (5, 10)]%Z = Ok false.
Proof.
  apply outside_bounding_box; [intros H; discriminate H|].
  left. intros p Hp. simpl in Hp.
  destruct Hp as [<-|[<-|[<-|[]]]]; unfold Qle; simpl; lia.
Defined.
End BoundingBox.

(** ** [check_occupancy] *)

Module Zones.
Import ROIMatcher Geometry PyFacts ROIMatcherFacts CheckOccupancy.
Import OrderedDict OrderedDictFacts.

Lemma set_fresh {V} (k : string) (v : V) (d : list (string * V)) :
  ~ In k (map fst d) -> set k v d = d ++ [(k, v)].
Proof.
  induction d as [|[k' v'] d IH]; simpl; intros Hk; [reflexivity|].
  destruct (String.eqb_spec k k') as [->|Hne]; [tauto|].
  rewrite IH; [reflexivity|tauto].
Qed.

Lemma check_loop_distinct (dets : list detection) (thr : Q)
    (seats : list seat) :
  forall acc results,
    List.NoDup (map fst acc ++ map seat_id seats) ->
    check_loop dets thr seats acc = Ok results ->
    exists entries,
      results = acc ++ entries
      /\ Forall2 (fun s ke => fst ke = seat_id s
                              /\ check_seat dets thr s = Ok (snd ke))
                 seats entries.
Proof.
  induction seats as [|s seats IH]; intros acc results Hnd; simpl.
  - intros [= <-]. exists []. rewrite app_nil_r. split; constructor.
  - destruct (check_seat dets thr s) as [e|err] eqn:Hs; simpl;
      [|discriminate].
    intros Hloop.
    assert (Hfresh : ~ In (seat_id s) (map fst acc)).
    { intros Hin. apply NoDup_remove_2 in Hnd. apply Hnd.
      apply in_or_app. now left. }
    rewrite (set_fresh _ _ _ Hfresh) in Hloop.
    assert (Hnd' : List.NoDup (map fst (acc ++ [(seat_id s, e)])
                               ++ map seat_id seats)).
    { rewrite map_app, <- app_assoc. exact Hnd. }
    destruct (IH _ _ Hnd' Hloop) as (entries & -> & Hall).
    exists ((seat_id s, e) :: entries). rewrite <- app_assoc.
    split; [reflexivity|]. constructor; [split; [reflexivity|exact Hs]|].
    exact Hall.
Qed.

(** X5.  With seat ids that are all different, [check_occupancy] gives
    one entry for each seat, in the order of the seats, and the entry of
    a seat is what that seat alone yields: no seat's result depends on
    the other seats. *)
Theorem one_entry_per_seat (seats : list seat) (dets : list detection)
    (thr : Q) (results : list (string * entry)) :
  List.NoDup (map seat_id seats) ->
  check_occupancy seats dets thr = Ok results ->
  map fst results = map seat_id seats
  /\ Forall2 (fun s ke => fst ke = seat_id s
                          /\ check_seat dets thr s = Ok (snd ke))
             seats results.
Proof.
  intros Hnd Hres.
  destruct (check_loop_distinct dets thr seats [] results Hnd Hres)
    as (entries & -> & Hall).
  split; [|exact Hall]. simpl.
  clear Hres Hnd. induction Hall as [|s [k e] seats entries [Hk _] _ IH];
    simpl; [reflexivity|]. simpl in Hk. now rewrite Hk, IH.
Qed.

Lemma one_entry_per_seat_witness :
  exists results,
    check_occupancy
      [Seat "A-01" None
          (Polygon [(100, 100); (200, 100); (200, 200); (100, 200)]%Z);
        Seat "A-02" None (Rectangle (300, 100, 400, 200)%Z)]
      [(120, 80, 180, 200, 95 # 100)%Z] (3 # 10)
    = Ok results
    /\ map fst results = ["A-01"; "A-02"].
Proof.
  destruct (check_occupancy
      [Seat "A-01" None
          (Polygon [(100, 100); (200, 100); (200, 200); (100, 200)]%Z);
        Seat "A-02" None (Rectangle (300, 100, 400, 200)%Z)]
      [(120, 80, 180, 200, 95 # 100)%Z] (3 # 10))
    as [results|err] eqn:E; [|vm_compute in E; discriminate E].
  exists results. split; [reflexivity|].
  refine (proj1 (one_entry_per_seat _ _ _ results _ E)).
  simpl. constructor; [intros [H|[]]; discriminate H|].
  constructor; [intros []|constructor].
Defined.

(** The first loop in terms of the criterion. *)
Lemma status_iff_exists (s : seat) (dets : list detection) (thr : Q)
    (e : entry) :
  check_seat dets thr s = Ok e ->
  (status e = "occupied" <-> Exists (satisfies (seat_roi s) thr) dets)
  /\ (status e = "empty" <-> ~ Exists (satisfies (seat_roi s) thr) dets).
Proof.
  intros Hs. destruct (check_seat_invariant _ _ _ _ Hs)
    as (Hocc & Hst & Hsome & Hnone).
  assert (Hex : status e = "occupied"
                <-> Exists (satisfies (seat_roi s) thr) dets).
  { split.
    - intros H. apply Hocc in H.
      destruct (matched_detection e) as [d|] eqn:Hm; [|congruence].
      destruct (Hsome d eq_refl) as (pre & post & -> & _ & Hd).
      apply List.Exists_exists. exists d. split; [|exact Hd].
      apply in_or_app. right. now left.
    - intros Hex. apply Hocc. intros Hm. specialize (Hnone Hm).
      apply List.Exists_exists in Hex. destruct Hex as (d & Hin & Hd).
      rewrite List.Forall_forall in Hnone. exact (Hnone d Hin Hd). }
  split; [exact Hex|]. rewrite <- Hex.
  destruct Hst as [H|H]; rewrite H.
  - split; [discriminate|]. intros Hn. exfalso. now apply Hn.
  - split; [|reflexivity]. intros _ Hn. discriminate Hn.
Qed.

Lemma no_vertices (point : Q * Q) :
  point_in_polygon point [] = Raise IndexError.
Proof. now destruct point. Qed.

Lemma check_seat_no_vertices (s : seat) (d : detection)
    (dets : list detection) (thr : Q) :
  seat_roi s = Polygon [] ->
  check_seat (d :: dets) thr s = Raise IndexError.
Proof.
  intros Hs. unfold check_seat. rewrite Hs. simpl.
  now rewrite no_vertices.
Qed.

(** X6.  Whether a seat is occupied does not depend on the order of the
    detections: if a seat yields an entry for some detections, it yields
    one with the same status for the same detections in any other
    order. *)
Theorem status_ignores_detection_order (s : seat)
    (dets dets' : list detection) (thr : Q) (e : entry) :
  Permutation dets dets' ->
  check_seat dets thr s = Ok e ->
  exists e', check_seat dets' thr s = Ok e' /\ status e' = status e.
Proof.
  intros Hperm Hs.
  assert (Hret : returns (check_seat dets' thr s)).
  { destruct (seat_roi s) as [seat_box|polygon] eqn:Hroi.
    - apply check_seat_returns. now rewrite Hroi.
    - destruct polygon as [|p polygon].
      + destruct dets as [|d dets].
        * apply Permutation_nil in Hperm. subst dets'.
          destruct (check_seat_no_detections thr s) as [l Hl].
          eexists. exact Hl.
        * rewrite (check_seat_no_vertices s d dets thr Hroi) in Hs.
          discriminate.
      + apply check_seat_returns. now rewrite Hroi. }
  destruct Hret as [e' He']. exists e'. split; [exact He'|].
  destruct (status_iff_exists _ _ _ _ Hs) as [Ho He].
  destruct (status_iff_exists _ _ _ _ He') as [Ho' He''].
  destruct (check_seat_invariant _ _ _ _ Hs) as (_ & [H|H] & _).
  - rewrite H. apply Ho'. apply Ho in H.
    apply List.Exists_exists in H. destruct H as (d & Hin & Hd).
    apply List.Exists_exists. exists d. split; [|exact Hd].
    now apply (Permutation_in _ Hperm).
  - rewrite H. apply He''. apply He in H. intros Hex. apply H.
    apply List.Exists_exists in Hex. destruct Hex as (d & Hin & Hd).
    apply List.Exists_exists. exists d. split; [|exact Hd].
    now apply (Permutation_in _ (Permutation_sym Hperm)).
Qed.

Lemma status_ignores_detection_order_witness :
  exists e e',
    check_seat [(310, 110, 390, 190, 9 # 10)%Z;
                (500, 300, 600, 500, 8 # 10)%Z] (3 # 10)
               (Seat "A-02" None (Rectangle (300, 100, 400, 200)%Z)) = Ok e
    /\ check_seat [(500, 300, 600, 500, 8 # 10)%Z;
                   (310, 110, 390, 190, 9 # 10)%Z] (3 # 10)
                  (Seat "A-02" None (Rectangle (300, 100, 400, 200)%Z)) = Ok e'
    /\ status e' = status e.
Proof.
  destruct (check_seat [(310, 110, 390, 190, 9 # 10)%Z;
                        (500, 300, 600, 500, 8 # 10)%Z] (3 # 10)
                       (Seat "A-02" None (Rectangle (300, 100, 400, 200)%Z)))
    as [e|err] eqn:E; [|vm_compute in E; discriminate E].
  destruct (status_ignores_detection_order _ _
              [(500, 300, 600, 500, 8 # 10)%Z;
               (310, 110, 390, 190, 9 # 10)%Z] _ _
              (perm_swap _ _ _) E) as (e' & He' & Hs).
  exists e, e'. split; [reflexivity|]. split; [exact He'|exact Hs].
Defined.

(** A polygon seat without vertices. *)
Lemma check_loop_raises (dets : list detection) (thr : Q)
    (seats : list seat) (err : exn) :
  Forall (fun s => returns (check_seat dets thr s)
                   \/ check_seat dets thr s = Raise err) seats ->
  Exists (fun s => check_seat dets thr s = Raise err) seats ->
  forall acc, check_loop dets thr seats acc = Raise err.
Proof.
  induction 1 as [|s seats Hs _ IH]; intros Hex acc.
  - inversion Hex.
  - simpl. destruct Hs as [[e He]|He].
    + rewrite He. simpl. apply IH. inversion Hex; subst; [congruence|].
      assumption.
    + now rewrite He.
Qed.

(** X7.  One polygon seat without vertices makes the whole call fail:
    with at least one detection, [check_occupancy] raises [IndexError]
    and gives no result for any seat. *)
Theorem empty_polygon_fails_whole_call (seats : list seat)
    (dets : list detection) (thr : Q) :
  dets <> [] ->
  Exists (fun s => seat_roi s = Polygon []) seats ->
  check_occupancy seats dets thr = Raise IndexError.
Proof.
  intros Hdets Hex. unfold check_occupancy.
  assert (Hbad : forall s, seat_roi s = Polygon [] ->
                           check_seat dets thr s = Raise IndexError).
  { intros s Hs. destruct dets as [|d dets]; [congruence|].
    now apply check_seat_no_vertices. }
  apply check_loop_raises.
  - apply List.Forall_forall. intros s _.
    destruct (seat_roi s) as [b|[|p polygon]] eqn:Hroi.
    + left. apply check_seat_returns. now rewrite Hroi.
    + right. now apply Hbad.
    + left. apply check_seat_returns. now rewrite Hroi.
  - apply List.Exists_exists. apply List.Exists_exists in Hex.
    destruct Hex as (s & Hin & Hs). exists s. split; [exact Hin|].
    now apply Hbad.
Qed.

Lemma empty_polygon_fails_whole_call_witness :
  check_occupancy
    [Seat "A-02" None (Rectangle (300, 100, 400, 200)%Z);
     Seat "A-03" None (Polygon [])]
    [(310, 110, 390, 190, 9 # 10)%Z] (3 # 10)
  = Raise IndexError.
Proof.
  apply empty_polygon_fails_whole_call; [intros H; discriminate H|].
  apply Exists_cons_tl. apply Exists_cons_hd. reflexivity.
Defined.
End Zones.

(** ** [add_seat], [remove_seat] *)

Module SeatListFacts.
Import ROIMatcher SeatList.

Lemma remove_seat_absent (seat_id : string) (seats : list seat) :
  ~ In seat_id (map ROIMatcher.seat_id seats) ->
  remove_seat seat_id seats = (seats, false).
Proof.
  induction seats as [|s seats IH]; simpl; intros Hk; [reflexivity|].
  destruct (String.eqb_spec (ROIMatcher.seat_id s) seat_id) as [E|E];
    [tauto|].
  rewrite IH; [reflexivity|tauto].
Qed.

Lemma remove_seat_first (seat_id : string) (pre : list seat) (s : seat)
    (post : list seat) :
  ~ In seat_id (map ROIMatcher.seat_id pre) ->
  ROIMatcher.seat_id s = seat_id ->
  remove_seat seat_id (pre ++ s :: post) = (pre ++ post, true).
Proof.
  intros Hpre Hs. induction pre as [|p pre IH]; simpl.
  - rewrite Hs, String.eqb_refl. reflexivity.
  - simpl in Hpre.
    destruct (String.eqb_spec (ROIMatcher.seat_id p) seat_id) as [E|E];
      [tauto|].
    rewrite IH; [reflexivity|tauto].
Qed.

(** X8.  [remove_seat] takes out the first seat with the given id and
    only that one, keeping the others in order and returning [True]; it
    returns [True] exactly when the id is among the seats, and otherwise
    leaves the list as it was.  Removing an id that was absent before
    [add_seat] added it gives back the list from before. *)
Theorem remove_seat_spec (seat_id : string) (seats : list seat) :
  (forall pre s post,
      seats = pre ++ s :: post ->
      ~ In seat_id (map ROIMatcher.seat_id pre) ->
      ROIMatcher.seat_id s = seat_id ->
      remove_seat seat_id seats = (pre ++ post, true))
  /\ (~ In seat_id (map ROIMatcher.seat_id seats) ->
      remove_seat seat_id seats = (seats, false)
      /\ forall roi label,
           remove_seat seat_id (add_seat seat_id roi label seats)
           = (seats, true))
  /\ (snd (remove_seat seat_id seats) = true
      <-> In seat_id (map ROIMatcher.seat_id seats)).
Proof.
  split; [|split].
  - intros pre s post -> Hpre Hs. now apply remove_seat_first.
  - intros Habs. split; [now apply remove_seat_absent|].
    intros roi label. unfold add_seat.
    rewrite (remove_seat_first seat_id seats
               (Seat seat_id (Some (label_or_default seat_id label))
                     (Rectangle roi)) [] Habs eq_refl).
    now rewrite app_nil_r.
  - induction seats as [|s seats IH]; simpl.
    + split; [discriminate|tauto].
    + destruct (String.eqb_spec (ROIMatcher.seat_id s) seat_id) as [E|E];
        simpl.
      * split; auto.
      * destruct (remove_seat seat_id seats) as [rest found]. simpl in *.
        rewrite IH. split; [auto|]. intros [H|H]; [contradiction|exact H].
Qed.

Lemma remove_seat_spec_witness :
  remove_seat "A-02"
    (add_seat "A-02" (300, 100, 400, 200)%Z None
       [Seat "A-01" None (Rectangle (0, 0, 10, 10)%Z)])
  = ([Seat "A-01" None (Rectangle (0, 0, 10, 10)%Z)], true).
Proof.
  destruct (remove_seat_spec "A-02"
              [Seat "A-01" None (Rectangle (0, 0, 10, 10)%Z)])
    as (_ & H & _).
  destruct H as [_ H].
  - simpl. intros [H|[]]. discriminate H.
  - exact (H (300, 100, 400, 200)%Z None).
Defined.
End SeatListFacts.

(** ** [DetectionLogger] over sequences of calls *)

Module LoggerRunsFacts.
Import DetectionLogger Batching LoggerRuns DetectionLoggerFacts PyFacts.

Lemma flush_outcome (env : environment) (s : state) :
  flush env s
  = match _batch (self s) with
    | [] => (s, Ok tt)
    | _ :: _ =>
        (State
           (match db_answer env (insert (_batch (self s))) with
            | Ok _ => count_batch_insert
                        (count_logged (Z.of_nat (length (_batch (self s))))
                           (set_last_flush (now_at_flush env)
                              (set_batch [] (self s))))
            | Raise _ => count_error
                           (set_last_flush (now_at_flush env)
                              (set_batch [] (self s)))
            end)
           (db_calls s ++ [insert (_batch (self s))]),
         Ok tt)
    end.
Proof.
  unfold flush, _flush_batch, request, update_self, io_bind, io_try,
    io_get, io_ret, io_modify. simpl.
  destruct (_batch (self s)) as [|e q] eqn:Hq; [reflexivity|].
  simpl. destruct (db_answer env (insert (e :: q))) as [[]|err];
    reflexivity.
Qed.

Lemma add_outcome (env : environment) (e : event) (s : state) :
  _add_to_batch env e s
  = if should_flush env (set_batch (_batch (self s) ++ [e]) (self s))
    then
      (State
         (match db_answer env (insert (_batch (self s) ++ [e])) with
          | Ok _ => count_batch_insert
                      (count_logged
                         (Z.of_nat (length (_batch (self s) ++ [e])))
                         (set_last_flush (now_at_flush env)
                            (set_batch [] (self s))))
          | Raise _ => count_error
                         (set_last_flush (now_at_flush env)
                            (set_batch [] (self s)))
          end)
         (db_calls s ++ [insert (_batch (self s) ++ [e])]),
       Ok tt)
    else
      (State (set_batch (_batch (self s) ++ [e]) (self s)) (db_calls s),
       Ok tt).
Proof.
  destruct (should_flush env _) eqn:E.
  - apply add_to_batch_flushes. now apply (should_flush_due env (self s) e).
  - apply add_to_batch_waits. intros H.
    apply (should_flush_due env (self s) e) in H. congruence.
Qed.

Lemma insert_single_state (env : environment) (e : event) (s : state) :
  fst (_insert_single env e s)
  = State (match db_answer env (log_detection_event e) with
           | Ok _ => count_logged 1 (self s)
           | Raise _ => count_error (self s)
           end)
          (db_calls s ++ [log_detection_event e]).
Proof. now rewrite insert_single_outcome. Qed.

Lemma bulk_rows_app (a b : list db_call) :
  bulk_rows (a ++ b) = bulk_rows a ++ bulk_rows b.
Proof. apply flat_map_app. Qed.

Lemma single_rows_app (a b : list db_call) :
  single_rows (a ++ b) = single_rows a ++ single_rows b.
Proof. apply flat_map_app. Qed.

Lemma perform_rows (env : environment) (op : operation) (s : state) :
  let s' := fst (perform env op s) in
  bulk_rows (db_calls s') ++ _batch (self s')
  = bulk_rows (db_calls s) ++ _batch (self s) ++ queued [(env, op)]
  /\ single_rows (db_calls s')
     = single_rows (db_calls s) ++ sent [(env, op)].
Proof.
  destruct op as [e|e|]; cbn [perform queued sent flat_map snd app].
  - rewrite add_outcome.
    destruct (should_flush env _); cbn [fst db_calls self].
    + rewrite bulk_rows_app, single_rows_app.
      destruct (db_answer env _); simpl; rewrite !app_nil_r;
        split; try reflexivity; now rewrite <- app_assoc.
    + simpl. rewrite !app_nil_r. split; reflexivity.
  - rewrite insert_single_state. cbn [db_calls self].
    rewrite bulk_rows_app, single_rows_app.
    destruct (db_answer env _); simpl; rewrite !app_nil_r;
      split; reflexivity.
  - rewrite flush_outcome.
    destruct (_batch (self s)) as [|e q] eqn:Hq; cbn [fst db_calls self].
    + rewrite Hq, !app_nil_r. split; reflexivity.
    + rewrite bulk_rows_app, single_rows_app.
      destruct (db_answer env _); simpl; rewrite !app_nil_r;
        split; reflexivity.
Qed.

(** X9.  Every telemetry event handed to the logger is, at any moment,
    in exactly one place: in one of the bulk inserts requested so far or
    in the pending queue, and the events keep the order in which they
    were handed over.  Every status change is requested once, by a
    single insert. *)
Theorem telemetry_requested_exactly_once
    (ops : list (environment * operation)) (s : state) :
  bulk_rows (db_calls (perform_all ops s))
  ++ _batch (self (perform_all ops s))
  = bulk_rows (db_calls s) ++ _batch (self s) ++ queued ops
  /\ single_rows (db_calls (perform_all ops s))
     = single_rows (db_calls s) ++ sent ops.
Proof.
  revert s. induction ops as [|[env op] ops IH]; intros s.
  - simpl. rewrite !app_nil_r. split; reflexivity.
  - cbn [perform_all]. destruct (IH (fst (perform env op s))) as [IH1 IH2].
    destruct (perform_rows env op s) as [H1 H2]. cbv zeta in H1, H2.
    rewrite IH1, IH2. split.
    + rewrite app_assoc, H1.
      replace (queued ((env, op) :: ops))
        with (queued [(env, op)] ++ queued ops)
        by (symmetry; apply (flat_map_app _ [(env, op)] ops)).
      now rewrite <- !app_assoc.
    + rewrite H2.
      replace (sent ((env, op) :: ops))
        with (sent [(env, op)] ++ sent ops)
        by (symmetry; apply (flat_map_app _ [(env, op)] ops)).
      now rewrite <- app_assoc.
Qed.

(** *** The queue stays short *)

Lemma perform_bound (env : environment) (op : operation) (s : state) :
  batch_size (self (fst (perform env op s))) = batch_size (self s)
  /\ (within_bound s \/ (exists e, op = queue e) ->
      within_bound (fst (perform env op s))).
Proof.
  unfold within_bound. destruct op as [e|e|]; cbn [perform].
  - rewrite add_outcome.
    destruct (should_flush env _) eqn:E; cbn [fst self].
    + destruct (db_answer env _); simpl; split; try reflexivity; lia.
    + simpl. split; [reflexivity|]. intros _.
      unfold should_flush in E. simpl in E.
      apply orb_false_iff in E. destruct E as [E _].
      apply Z.leb_gt in E. lia.
  - rewrite insert_single_state. cbn [self].
    destruct (db_answer env _); simpl; split; try reflexivity;
      (intros [H|[e' H]]; [exact H|discriminate]).
  - rewrite flush_outcome.
    destruct (_batch (self s)) as [|e q] eqn:Hq; cbn [fst self].
    + rewrite Hq. split; [reflexivity|].
      intros [H|[e' H]]; [exact H|discriminate].
    + destruct (db_answer env _); simpl; split; try reflexivity; lia.
Qed.

(** X10.  The pending queue never grows to [batch_size]: after an event is
    queued, whatever the queue held before, fewer than [batch_size]
    events are pending (none when [batch_size] is below 1); and a logger
    that starts within that bound stays within it through any sequence of
    calls, which leave [batch_size] as it was. *)
Theorem pending_below_batch_size :
  (forall (env : environment) (e : event) (s : state),
      (Z.of_nat (pending_batch (self (fst (_add_to_batch env e s))))
       <= Z.max 0 (batch_size (self s) - 1))%Z)
  /\ (forall (ops : list (environment * operation)) (s : state),
        (Z.of_nat (pending_batch (self s))
         <= Z.max 0 (batch_size (self s) - 1))%Z ->
        batch_size (self (perform_all ops s)) = batch_size (self s)
        /\ (Z.of_nat (pending_batch (self (perform_all ops s)))
            <= Z.max 0 (batch_size (self s) - 1))%Z).
Proof.
  split.
  - intros env e s.
    destruct (perform_bound env (queue e) s) as [Hsize Hbound].
    unfold within_bound in Hbound. cbn [perform] in *.
    rewrite <- Hsize. apply Hbound. right. eauto.
  - intros ops. induction ops as [|[env op] ops IH]; intros s Hs.
    + split; [reflexivity|exact Hs].
    + cbn [perform_all].
      destruct (perform_bound env op s) as [Hsize Hbound].
      destruct (IH (fst (perform env op s))) as [IH1 IH2].
      * apply Hbound. now left.
      * rewrite IH1, Hsize. split; [reflexivity|].
        rewrite <- Hsize. exact IH2.
Qed.

Lemma pending_below_batch_size_witness :
  (Z.of_nat (pending_batch
               (self (perform_all
                        [(db_refuses, queue sample_event);
                         (db_refuses, send sample_event);
                         (db_refuses, queue sample_event)]
                        (State sample_logger []))))
   <= 9)%Z.
Proof.
  destruct pending_below_batch_size as [_ H].
  apply (H [(db_refuses, queue sample_event);
            (db_refuses, send sample_event);
            (db_refuses, queue sample_event)] (State sample_logger [])).
  vm_compute. discriminate.
Defined.

(** X11.  [flush] never raises and always leaves the queue empty; what was
    pending goes out in one insert, and is gone even when that insert
    fails.  With nothing pending it does nothing at all, so a second
    [flush] changes nothing. *)
Theorem flush_empties_queue (env : environment) (s : state) :
  snd (flush env s) = Ok tt
  /\ _batch (self (fst (flush env s))) = []
  /\ db_calls (fst (flush env s))
     = db_calls s
       ++ match _batch (self s) with
          | [] => []
          | pending => [insert pending]
          end
  /\ (_batch (self s) = [] -> fst (flush env s) = s)
  /\ (forall env', flush env' (fst (flush env s))
                   = (fst (flush env s), Ok tt)).
Proof.
  assert (Hempty : forall env0 s0, _batch (self s0) = [] ->
                                   flush env0 s0 = (s0, Ok tt)).
  { intros env0 s0 H. rewrite flush_outcome. now rewrite H. }
  assert (Hbatch : _batch (self (fst (flush env s))) = []).
  { rewrite flush_outcome.
    destruct (_batch (self s)) as [|e q] eqn:Hq; [exact Hq|].
    cbn [fst self]. now destruct (db_answer env _). }
  split; [|split; [exact Hbatch|split; [|split]]].
  - rewrite flush_outcome. now destruct (_batch (self s)).
  - rewrite flush_outcome.
    destruct (_batch (self s)); [now rewrite app_nil_r|reflexivity].
  - intros H. now rewrite (Hempty env s H).
  - intros env'. now apply Hempty.
Qed.

Lemma flush_empties_queue_witness :
  fst (flush db_refuses (State sample_logger [])) = State sample_logger [].
Proof.
  destruct (flush_empties_queue db_refuses (State sample_logger []))
    as (_ & _ & _ & H & _).
  apply H. reflexivity.
Defined.

(** *** The counters against the request log *)

Lemma account_snoc (answer : db_call -> result unit) (cs : list db_call)
    (c : db_call) :
  account answer (cs ++ [c])
  = match answer c with
    | Ok _ =>
        Statistics
          (total_logged (account answer cs) + rows_of_call c)
          (batch_inserts (account answer cs)
           + (if is_insert c then 1 else 0))
          (errors (account answer cs))
    | Raise _ =>
        Statistics (total_logged (account answer cs))
                   (batch_inserts (account answer cs))
                   (errors (account answer cs) + 1)
    end.
Proof.
  unfold account. rewrite !List.filter_app, !map_app, !length_app.
  cbn [List.filter]. unfold succeeded at 2 4 6.
  assert (Hsum : forall l x,
             fold_right Z.add 0%Z (l ++ [x])
             = (fold_right Z.add 0 l + x)%Z).
  { induction l as [|a l IHl]; intros x; simpl; [lia|].
    rewrite IHl. lia. }
  destruct (answer c); simpl.
  - rewrite Hsum, Nat.add_0_r. f_equal.
    destruct (is_insert c); simpl; lia.
  - rewrite app_nil_r, Nat.add_0_r. f_equal. lia.
Qed.

Lemma perform_account (answer : db_call -> result unit)
    (env : environment) (op : operation) (s : state) :
  (forall c, db_answer env c = answer c) ->
  stats (self s) = account answer (db_calls s) ->
  stats (self (fst (perform env op s)))
  = account answer (db_calls (fst (perform env op s))).
Proof.
  intros Hans Hs. destruct op as [e|e|]; cbn [perform].
  - rewrite add_outcome.
    destruct (should_flush env _); cbn [fst self db_calls];
      [|exact Hs].
    rewrite account_snoc, <- Hans, <- Hs.
    destruct (db_answer env _); simpl; [|reflexivity].
    reflexivity.
  - rewrite insert_single_state. cbn [self db_calls].
    rewrite account_snoc, <- Hans, <- Hs.
    destruct (db_answer env _); simpl; [|reflexivity].
    now rewrite Z.add_0_r.
  - rewrite flush_outcome.
    destruct (_batch (self s)) as [|e q] eqn:Hq; cbn [fst self db_calls];
      [exact Hs|].
    rewrite account_snoc, <- Hans, <- Hs.
    destruct (db_answer env _); simpl; reflexivity.
Qed.

(** X12.  The counters of [get_stats] are an exact account of the
    requests: against a database that answers each request the same way
    whenever it is made, [total_logged] is the number of rows in the
    requests that succeeded, [batch_inserts] the number of bulk inserts
    that succeeded and [errors] the number of requests that failed, from
    the logger's creation on and after any sequence of calls. *)
Theorem stats_account_for_requests
    (answer : db_call -> result unit)
    (ops : list (environment * operation)) (s : state) :
  Forall (fun o => forall c, db_answer (fst o) c = answer c) ops ->
  stats (self s) = account answer (db_calls s) ->
  stats (self (perform_all ops s))
  = account answer (db_calls (perform_all ops s)).
Proof.
  intros Hans. revert s.
  induction Hans as [|[env op] ops Henv _ IH]; intros s Hs.
  - exact Hs.
  - cbn [perform_all]. apply IH.
    now apply (perform_account answer env op s Henv).
Qed.

Lemma stats_account_for_requests_witness :
  stats (self (perform_all
                 [(db_refuses, queue sample_event);
                  (db_refuses, send sample_event);
                  (db_refuses, flush_now)]
                 (State sample_logger [])))
  = Statistics 0 0 2.
Proof.
  rewrite (stats_account_for_requests (db_answer db_refuses)
             [(db_refuses, queue sample_event);
              (db_refuses, send sample_event);
              (db_refuses, flush_now)] (State sample_logger [])).
  - reflexivity.
  - repeat constructor.
  - reflexivity.
Defined.
End LoggerRunsFacts.

(** ** [SeatRepository]: invalidation and the snapshot file *)

Module SeatRepositoryRuns.
Import SeatRepository Tiers CacheControl SeatRepositoryFacts PyFacts.

Lemma append_cons (c : ascii) (a b : string) :
  String.append (String c a) b = String c (String.append a b).
Proof. reflexivity. Qed.

Lemma prefix_append (a b : string) :
  String.prefix a (String.append a b) = true.
Proof.
  induction a as [|c a IH]; [now destruct b|].
  rewrite append_cons. simpl.
  destruct (ascii_dec c c) as [_|Hne]; [exact IH|congruence].
Qed.

Lemma append_assoc (a b c : string) :
  String.append (String.append a b) c = String.append a (String.append b c).
Proof.
  induction a as [|x a IH]; [reflexivity|].
  rewrite !append_cons. now rewrite IH.
Qed.

Lemma store_prefix (store_id : string) (channel_id : Z) :
  String.prefix (String.append store_id ":")
                (cache_key store_id channel_id) = true.
Proof.
  unfold cache_key. rewrite <- (append_assoc store_id ":" (pretty channel_id)).
  apply prefix_append.
Qed.

Lemma invalidated_key_gone (store_id : string) (channel_id : Z)
    (sid : option string) (ch : option Z) (s : state) :
  covers store_id channel_id sid ch ->
  _cache (invalidate_cache sid ch s) !! cache_key store_id channel_id
  = None.
Proof.
  intros Hc. destruct Hc as [Hne|Hne|ch|ch].
  - destruct store_id as [|c r]; [congruence|]. simpl.
    apply lookup_delete_eq.
  - destruct store_id as [|c r]; [congruence|]. simpl.
    apply map_lookup_filter_None. right. intros x _ Hp.
    pose proof (store_prefix (String c r) channel_id) as Ht.
    cbv beta iota delta [fst] in Hp. congruence.
  - simpl. apply lookup_empty.
  - simpl. apply lookup_empty.
Qed.

Lemma no_entry_no_fresh (env : environment) (key : string) (s : state) :
  _cache s !! key = None -> no_fresh_entry env key s.
Proof. intros H entry [Hc _]. congruence. Qed.

Lemma query_sent (env : environment) (store_id : string) (channel_id : Z)
    (s : state) :
  no_fresh_entry env (cache_key store_id channel_id) s ->
  queries (fst (get_seats_by_channel env store_id channel_id s))
  = queries s ++ [(store_id, channel_id)].
Proof.
  intros Hno.
  destruct (execute env store_id channel_id) as [response|e] eqn:He.
  - now destruct (get_fetch_succeeds env store_id channel_id s response
                    Hno He) as (_ & _ & Hq).
  - rewrite (get_fetch_fails env store_id channel_id s Hno);
      [reflexivity|]. now exists e.
Qed.

(** X13.  Invalidating a key, by itself, with its whole store or with
    everything, makes the next lookup of that key ask the backend,
    whatever the entry's age was; the snapshot files are not touched.
    Invalidating one key leaves every other key in place, invalidating a
    store leaves the keys that do not start with the store's id and a
    colon.  An empty store id counts as no store id: everything is
    cleared, even when a channel is given. *)
Theorem invalidation_forces_query :
  (forall (env : environment) (store_id : string) (channel_id : Z)
          (sid : option string) (ch : option Z) (s : state),
      covers store_id channel_id sid ch ->
      queries (fst (get_seats_by_channel env store_id channel_id
                      (invalidate_cache sid ch s)))
      = queries s ++ [(store_id, channel_id)]
      /\ files (invalidate_cache sid ch s) = files s)
  /\ (forall (store_id : string) (channel_id : Z) (s : state) (k : string),
        store_id <> "" ->
        k <> cache_key store_id channel_id ->
        _cache (invalidate_cache (Some store_id) (Some channel_id) s) !! k
        = _cache s !! k)
  /\ (forall (store_id : string) (s : state) (k : string),
        store_id <> "" ->
        String.prefix (String.append store_id ":") k = false ->
        _cache (invalidate_cache (Some store_id) None s) !! k
        = _cache s !! k)
  /\ (forall (ch : option Z) (s : state),
        _cache (invalidate_cache (Some "") ch s) = ∅
        /\ _cache (invalidate_cache None ch s) = ∅).
Proof.
  split; [|split; [|split]].
  - intros env store_id channel_id sid ch s Hc. split.
    + rewrite query_sent.
      * now destruct sid as [[|c r]|], ch.
      * apply no_entry_no_fresh. now apply invalidated_key_gone.
    + now destruct sid as [[|c r]|], ch.
  - intros store_id channel_id s k Hne Hk.
    destruct store_id as [|c r]; [congruence|]. simpl.
    now apply lookup_delete_ne.
  - intros store_id s k Hne Hk.
    destruct store_id as [|c r]; [congruence|]. simpl.
    destruct (_cache s !! k) as [entry|] eqn:E.
    + apply map_lookup_filter_Some. split; [exact E|exact Hk].
    + apply map_lookup_filter_None. now left.
  - intros ch s. split; reflexivity.
Qed.

Lemma invalidation_forces_query_witness :
  queries (fst (get_seats_by_channel backend_down "oryudong" 1
                  (invalidate_cache (Some "oryudong") None stale_cache)))
  = [("oryudong", 1%Z)].
Proof.
  destruct invalidation_forces_query as [H _].
  destruct (H backend_down "oryudong" 1%Z (Some "oryudong") None
              stale_cache) as [Hq _].
  - apply covers_store. discriminate.
  - exact Hq.
Defined.

(** *** After a successful fetch *)

Lemma cached_after_fetch (env : environment) (store_id : string)
    (channel_id : Z) (s : state) (response : option (list seat_row)) :
  no_fresh_entry env (cache_key store_id channel_id) s ->
  execute env store_id channel_id = Ok response ->
  _cache (fst (get_seats_by_channel env store_id channel_id s))
  !! cache_key store_id channel_id
  = Some (CacheEntry (rows_of response) (time_at_update env)).
Proof.
  intros Hno He.
  destruct (get_fetch_succeeds env store_id channel_id s response Hno He)
    as (_ & Hc & _).
  rewrite Hc. apply lookup_insert_eq.
Qed.

(** X14.  What a successful fetch returned stays available: a later lookup
    of the same key returns the same rows, without asking the backend
    and without changing anything, when it comes less than 60 seconds
    after the fetch; and it returns the same rows, however late it
    comes, when the backend then fails. *)
Theorem fetched_rows_stay_available
    (env1 env2 : environment) (store_id : string) (channel_id : Z)
    (s : state) (response : option (list seat_row)) :
  no_fresh_entry env1 (cache_key store_id channel_id) s ->
  execute env1 store_id channel_id = Ok response ->
  let s1 := fst (get_seats_by_channel env1 store_id channel_id s) in
  ((time_at_check env2 - time_at_update env1 < 60)%Q ->
   get_seats_by_channel env2 store_id channel_id s1
   = (s1, Ok (rows_of response)))
  /\ (fetch_fails env2 store_id channel_id ->
      snd (get_seats_by_channel env2 store_id channel_id s1)
      = Ok (rows_of response)).
Proof.
  intros Hno He s1.
  pose proof (cached_after_fetch env1 store_id channel_id s response Hno He)
    as Hc. fold s1 in Hc.
  split.
  - intros Hage.
    apply (get_fresh env2 store_id channel_id s1
             (CacheEntry (rows_of response) (time_at_update env1))).
    split; [exact Hc|exact Hage].
  - intros Hfail.
    destruct (fresh_entry_cases env2 (cache_key store_id channel_id) s1)
      as [(entry & Hf & _)|[Hno2 _]].
    + rewrite (get_fresh _ _ _ _ _ Hf). destruct Hf as [Hc' _].
      rewrite Hc in Hc'. now injection Hc' as <-.
    + rewrite (get_fetch_fails env2 store_id channel_id s1 Hno2 Hfail).
      now rewrite Hc.
Qed.

Lemma fetched_rows_stay_available_witness :
  snd (get_seats_by_channel backend_down "oryudong" 1
         (fst (get_seats_by_channel
                 (Environment 0 0 (fun _ _ => Ok (Some [a_seat]))
                              (fun _ => Ok tt))
                 "oryudong" 1 (State ∅ ∅ []))))
  = Ok [a_seat].
Proof.
  destruct (fetched_rows_stay_available
              (Environment 0 0 (fun _ _ => Ok (Some [a_seat]))
                           (fun _ => Ok tt))
              backend_down "oryudong" 1%Z (State ∅ ∅ []) (Some [a_seat]))
    as [_ H].
  - apply no_entry_no_fresh. reflexivity.
  - reflexivity.
  - apply H. eexists. reflexivity.
Defined.

(** *** The snapshot file *)

Lemma files_after_lookup (env : environment) (store_id : string)
    (channel_id : Z) (s : state) :
  files (fst (get_seats_by_channel env store_id channel_id s))
  = match fresh_entry env (cache_key store_id channel_id) s,
          execute env store_id channel_id with
    | None, Ok (Some (r :: rows)) =>
        match write_file env (fallback_path
                                (cache_key store_id channel_id)) with
        | Ok _ => <[fallback_path (cache_key store_id channel_id)
                    := Some (r :: rows)]> (files s)
        | Raise _ => files s
        end
    | _, _ => files s
    end.
Proof.
  unfold get_seats_by_channel, _save_fallback, io_try, io_bind, io_lift,
    io_get, io_modify, io_ret. simpl.
  destruct (fresh_entry env (cache_key store_id channel_id) s);
    [reflexivity|].
  destruct (execute env store_id channel_id) as [[[|r rows]|]|e]; simpl;
    try reflexivity.
  - destruct (write_file env _) as [[]|e]; reflexivity.
  - destruct (_cache s !! cache_key store_id channel_id);
      [reflexivity|].
    now rewrite load_fallback_snapshot.
Qed.




(** *** Two stores, one file *)

Lemma replace_colon_append (a b : string) :
  replace_colon (String.append a b)
  = String.append (replace_colon a) (replace_colon b).
Proof.
  induction a as [|c a IH]; [reflexivity|].
  rewrite append_cons. simpl. rewrite append_cons. now rewrite IH.
Qed.

Lemma same_file (store1 store2 : string) (channel_id : Z) :
  replace_colon store1 = replace_colon store2 ->
  fallback_path (cache_key store1 channel_id)
  = fallback_path (cache_key store2 channel_id).
Proof.
  intros H. unfold fallback_path, cache_key.
  now rewrite !replace_colon_append, H.
Qed.

Lemma length_append (a b : string) :
  String.length (String.append a b)
  = (String.length a + String.length b)%nat.
Proof.
  induction a as [|c a IH]; [reflexivity|].
  rewrite append_cons. simpl. now rewrite IH.
Qed.

Lemma append_cancel_r (a b t : string) :
  String.append a t = String.append b t -> a = b.
Proof.
  revert b. induction a as [|c a IH]; intros [|d b] H.
  - reflexivity.
  - apply (f_equal String.length) in H.
    rewrite !length_append in H. simpl in H. lia.
  - apply (f_equal String.length) in H.
    rewrite !length_append in H. simpl in H. lia.
  - rewrite !append_cons in H. injection H as -> H.
    now rewrite (IH b H).
Qed.

Lemma cache_key_store_inj (store1 store2 : string) (channel_id : Z) :
  cache_key store1 channel_id = cache_key store2 channel_id ->
  store1 = store2.
Proof. apply append_cancel_r. Qed.

(** X16.  The snapshot's file name replaces every colon of the key by an
    underscore, so two stores whose ids differ only there share one
    file: rows fetched and written for one store are returned to a
    lookup of the other store, same channel, that has no cache entry
    and finds the backend down. *)
Theorem snapshot_shared_between_stores
    (env1 env2 : environment) (store1 store2 : string) (channel_id : Z)
    (s : state) (r : seat_row) (rows : list seat_row) :
  store1 <> store2 ->
  replace_colon store1 = replace_colon store2 ->
  no_fresh_entry env1 (cache_key store1 channel_id) s ->
  execute env1 store1 channel_id = Ok (Some (r :: rows)) ->
  write_file env1 (fallback_path (cache_key store1 channel_id)) = Ok tt ->
  _cache s !! cache_key store2 channel_id = None ->
  fetch_fails env2 store2 channel_id ->
  snd (get_seats_by_channel env2 store2 channel_id
         (fst (get_seats_by_channel env1 store1 channel_id s)))
  = Ok (r :: rows).
Proof.
  intros Hne Hsame Hno He Hw Hnone Hfail.
  set (s1 := fst (get_seats_by_channel env1 store1 channel_id s)).
  assert (Hc2 : _cache s1 !! cache_key store2 channel_id = None).
  { destruct (get_fetch_succeeds env1 store1 channel_id s _ Hno He)
      as (_ & Hc & _). subst s1. rewrite Hc.
    rewrite lookup_insert_ne; [exact Hnone|].
    intros Hk. apply Hne. now apply (cache_key_store_inj _ _ channel_id). }
  rewrite (get_fetch_fails env2 store2 channel_id s1
             (no_entry_no_fresh _ _ _ Hc2) Hfail).
  rewrite Hc2. simpl. unfold snapshot. subst s1.
  rewrite files_after_lookup.
  apply fresh_entry_miss in Hno. rewrite Hno, He, Hw.
  rewrite <- (same_file store1 store2 channel_id Hsame).
  now rewrite lookup_insert_eq.
Qed.

Lemma snapshot_shared_between_stores_witness :
  snd (get_seats_by_channel backend_down "a_b" 1
         (fst (get_seats_by_channel
                 (Environment 0 0 (fun _ _ => Ok (Some [a_seat]))
                              (fun _ => Ok tt))
                 "a:b" 1 (State ∅ ∅ []))))
  = Ok [a_seat].
Proof.
  apply (snapshot_shared_between_stores
           (Environment 0 0 (fun _ _ => Ok (Some [a_seat]))
                        (fun _ => Ok tt))
           backend_down "a:b" "a_b" 1%Z (State ∅ ∅ []) a_seat []).
  - discriminate.
  - reflexivity.
  - apply no_entry_no_fresh. reflexivity.
  - reflexivity.
  - reflexivity.
  - reflexivity.
  - eexists. reflexivity.
Defined.
End SeatRepositoryRuns.

(** ** [process_frame] *)

Module SeatPassFacts.
Import ROIMatcher ChannelWorker Occupancy SeatPass PyFacts.

Lemma process_seat_eq (db : database) (b : bool) (cnt : nat) (now : Q)
    (ms : Z) (sid : string) (info : entry) (s0 : state) :
  process_seat db b cnt now ms sid info s0
  = let w := self s0 in
    let new := new_status_of w b sid info in
    let w1 :=
      set_abandoned_timer sid
        (snd (abandoned_logic w sid (status info)
                (person_detected_of info) b)) w in
    match known_of db new sid with
    | Raise e =>
        (State w1 (calls s0 ++ frame_log w b ms sid info
                   ++ [get_seat_status sid]),
         Raise e)
    | Ok known =>
        (State (set_previous_occupancy sid new w1)
               (calls s0 ++ frame_log w b ms sid info
                ++ read_log new sid
                ++ [update_seat_status sid
                      (update_of known w b now sid info)]
                ++ change_log w b cnt sid info),
         Ok tt)
    end.
Proof.
  unfold process_seat, vacancy, io_bind, io_try, io_get, io_ret, io_lift,
    emit, update_self, io_modify.
  unfold known_of, update_of, change_log, read_log, frame_log,
    vacancy_fields, new_status_of, prev_status_of, person_confidence_of,
    bboxes_of, person_count_of, confidence_of, person_detected_of.
  cbv zeta. simpl self. simpl calls.
  destruct (abandoned_logic (self s0) sid (status info)
              (String.eqb (status info) "occupied") b) as [new timer].
  cbn [fst snd].
  destruct (String.eqb (status info) "occupied"),
    (matched_detection info) as [det|];
    destruct (detection_logger (self s0));
    (destruct (String.eqb new "empty");
     [destruct (seat_status db sid) as [[[ [t|] ]|]|e]
     |destruct (String.eqb new "occupied")]);
    cbn;
    try (destruct (upsert db sid _); cbn);
    try (destruct (String.eqb new _); cbn);
    rewrite <- ?app_assoc; reflexivity.
Qed.

(** *** [int()] on a duration *)

Lemma int_of_float_nonneg (q : Q) :
  (0 <= q)%Q -> int_of_float q = Qfloor q.
Proof.
  destruct q as [n d]. unfold int_of_float, Qfloor, Qle. simpl.
  intros H. apply Z.quot_div_nonneg; lia.
Qed.

Lemma int_of_float_nonpos (q : Q) :
  (q <= 0)%Q -> int_of_float q = Qceiling q.
Proof.
  destruct q as [n d]. unfold int_of_float, Qceiling, Qfloor, Qle. simpl.
  intros H. rewrite <- (Z.opp_involutive n) at 1.
  rewrite Z.quot_opp_l by lia. f_equal.
  apply Z.quot_div_nonneg; lia.
Qed.

Lemma int_of_float_mono (q q' : Q) :
  (q <= q')%Q -> (int_of_float q <= int_of_float q')%Z.
Proof.
  intros H.
  destruct (Qlt_le_dec q 0) as [Hq|Hq];
    destruct (Qlt_le_dec q' 0) as [Hq'|Hq'].
  - rewrite !int_of_float_nonpos by lra. now apply Qceiling_resp_le.
  - rewrite (int_of_float_nonpos q), (int_of_float_nonneg q') by lra.
    apply Z.le_trans with 0%Z.
    + change 0%Z with (Qceiling 0). apply Qceiling_resp_le. lra.
    + change 0%Z with (Qfloor 0). now apply Qfloor_resp_le.
  - lra.
  - rewrite !int_of_float_nonneg by lra. now apply Qfloor_resp_le.
Qed.

Lemma int_of_float_bounds (q : Q) :
  (0 <= q)%Q ->
  (0 <= int_of_float q)%Z
  /\ (inject_Z (int_of_float q) <= q < inject_Z (int_of_float q) + 1)%Q.
Proof.
  intros H. rewrite (int_of_float_nonneg q H). split; [|split].
  - change 0%Z with (Qfloor 0). now apply Qfloor_resp_le.
  - apply Qfloor_le.
  - rewrite <- (inject_Z_plus _ 1). apply Qlt_floor.
Qed.

Lemma updates_app (a b : list call) :
  updates (a ++ b) = updates a ++ updates b.
Proof. apply flat_map_app. Qed.

Lemma reads_app (a b : list call) : reads (a ++ b) = reads a ++ reads b.
Proof. apply flat_map_app. Qed.

Lemma updates_frame_log w b ms sid info :
  updates (frame_log w b ms sid info) = [].
Proof. unfold frame_log. now destruct (detection_logger w). Qed.

Lemma updates_read_log new sid : updates (read_log new sid) = [].
Proof. unfold read_log. now destruct (String.eqb new "empty"). Qed.

Lemma updates_change_log w b cnt sid info :
  updates (change_log w b cnt sid info) = [].
Proof. unfold change_log. now destruct (_ && _). Qed.

Lemma reads_frame_log w b ms sid info :
  reads (frame_log w b ms sid info) = [].
Proof. unfold frame_log. now destruct (detection_logger w). Qed.

Lemma reads_change_log w b cnt sid info :
  reads (change_log w b cnt sid info) = [].
Proof. unfold change_log. now destruct (_ && _). Qed.

(** X17.  Vacancy accounting of one pass, as the update sent to the
    database shows it.  A seat seen empty whose row holds a
    [last_empty_time] keeps that time and gets as duration the whole
    seconds elapsed since then, truncated toward zero: never negative
    when the time is not in the future, within one second of the elapsed
    time, and never decreasing as the clock advances.  A seat seen empty
    with no row, or a row without that time, starts at the current time
    with duration 0.  A seat seen occupied gets the current time as
    [last_person_seen], duration 0 and no [last_empty_time], and its row
    is not read. *)
Theorem vacancy_accounting :
  (forall (db : database) (cnt : nat) (now : Q) (ms : Z) (sid : string)
          (info : entry) (s0 : state) (known : option seat_status_row),
      status info = "empty" ->
      seat_status db sid = Ok known ->
      let out := process_seat db false cnt now ms sid info s0 in
      snd out = Ok tt
      /\ reads (calls (fst out)) = reads (calls s0) ++ [sid]
      /\ updates (calls (fst out))
         = updates (calls s0)
           ++ [(sid,
                match known with
                | Some (SeatStatusRow (Some t)) =>
                    StatusUpdate "empty" false false 0 None (Some t)
                                 (int_of_float (now - t)%Q)
                | _ =>
                    StatusUpdate "empty" false false 0 None (Some now) 0
                end)])
  /\ (forall (db : database) (cnt : nat) (now : Q) (ms : Z) (sid : string)
             (info : entry) (s0 : state),
        status info = "occupied" ->
        let out := process_seat db false cnt now ms sid info s0 in
        snd out = Ok tt
        /\ reads (calls (fst out)) = reads (calls s0)
        /\ updates (calls (fst out))
           = updates (calls s0)
             ++ [(sid, StatusUpdate "occupied" true false (max_iou info)
                                    (Some now) None 0)])
  /\ (forall (now t : Q),
        (t <= now)%Q ->
        (0 <= int_of_float (now - t))%Z
        /\ (inject_Z (int_of_float (now - t)) <= now - t
            < inject_Z (int_of_float (now - t)) + 1)%Q)
  /\ (forall (now now' t : Q),
        (now <= now')%Q ->
        (int_of_float (now - t) <= int_of_float (now' - t))%Z).
Proof.
  split; [|split; [|split]].
  - intros db cnt now ms sid info s0 known Hst Hdb out. subst out.
    rewrite process_seat_eq. cbv zeta.
    unfold known_of, update_of, new_status_of, abandoned_logic,
      confidence_of, person_detected_of, vacancy_fields.
    rewrite Hst. cbn [String.eqb Ascii.eqb Bool.eqb negb andb fst snd].
    rewrite Hdb. cbn [fst snd calls].
    rewrite !updates_app, !reads_app, updates_frame_log, reads_frame_log,
      updates_change_log, reads_change_log.
    unfold read_log. cbn. rewrite ?app_nil_r.
    repeat split. now destruct known as [[[t|]]|].
  - intros db cnt now ms sid info s0 Hst out. subst out.
    rewrite process_seat_eq. cbv zeta.
    unfold known_of, update_of, new_status_of, abandoned_logic,
      confidence_of, person_detected_of, vacancy_fields.
    rewrite Hst. cbn [String.eqb Ascii.eqb Bool.eqb negb andb fst snd].
    cbn [fst snd calls].
    rewrite !updates_app, !reads_app, updates_frame_log, reads_frame_log,
      updates_change_log, reads_change_log.
    unfold read_log. cbn. rewrite ?app_nil_r.
    repeat split.
  - intros now t H. apply int_of_float_bounds. lra.
  - intros now now' t H. apply int_of_float_mono. lra.
Qed.

Lemma vacancy_accounting_witness :
  updates
    (calls (fst (process_seat
                   (Database
                      (fun _ => Ok (Some (SeatStatusRow (Some (40 # 1)))))
                      (fun _ _ => Ok tt))
                   false 0 (201 # 2) 12 "A-01"
                   (Entry "empty" 0 "Seat A-01" None) sample_state)))
  = [("A-01", StatusUpdate "empty" false false 0 None (Some (40 # 1)) 60)].
Proof.
  destruct vacancy_accounting as [H _].
  destruct (H (Database
                 (fun _ => Ok (Some (SeatStatusRow (Some (40 # 1)))))
                 (fun _ _ => Ok tt))
              0%nat (201 # 2)%Q 12%Z "A-01"
              (Entry "empty" 0 "Seat A-01" None) sample_state
              (Some (SeatStatusRow (Some (40 # 1)))) eq_refl eq_refl)
    as (_ & _ & Hu).
  exact Hu.
Defined.

(** *** A whole frame *)

Lemma process_items_app (db : database) (b : bool) (cnt : nat) (now : Q)
    (ms : Z) (pre post : list (string * entry)) (s : state) :
  process_items db b cnt now ms (pre ++ post) s
  = match process_items db b cnt now ms pre s with
    | (s', Ok _) => process_items db b cnt now ms post s'
    | (s', Raise e) => (s', Raise e)
    end.
Proof.
  revert s. induction pre as [|[k info] pre IH]; intros s.
  - reflexivity.
  - cbn [app process_items]. unfold io_bind.
    destruct (process_seat db b cnt now ms k info s) as [s1 [[]|e]];
      [apply IH|reflexivity].
Qed.




(** X19.  A failing status read ends the pass on the spot.  When the
    seats before it went through, the seat is seen empty and reading its
    row raises, [process_frame]'s loop raises the same exception: the
    seat's frame log and the read are the last calls made, its timer is
    already reset, its previous status is not updated, and no update and
    no status change is sent for it or for any seat after it. *)
Theorem failed_read_ends_pass
    (db : database) (cnt : nat) (now : Q) (ms : Z)
    (pre : list (string * entry)) (k : string) (info : entry)
    (post : list (string * entry)) (s s' : state) (e : exn) :
  process_items db false cnt now ms pre s = (s', Ok tt) ->
  status info = "empty" ->
  seat_status db k = Raise e ->
  process_items db false cnt now ms (pre ++ (k, info) :: post) s
  = (State (set_abandoned_timer k 0 (self s'))
           (calls s' ++ frame_log (self s') false ms k info
            ++ [get_seat_status k]),
     Raise e).
Proof.
  intros Hpre Hst Hdb. rewrite process_items_app, Hpre.
  cbn [process_items]. unfold io_bind. rewrite process_seat_eq. cbv zeta.
  unfold known_of, new_status_of, abandoned_logic, person_detected_of.
  rewrite Hst. cbn [String.eqb Ascii.eqb Bool.eqb negb andb fst snd].
  now rewrite Hdb.
Qed.

Lemma failed_read_ends_pass_witness :
  snd (process_items (Database (fun _ => Raise (OtherError "timeout"))
                               (fun _ _ => Ok tt))
         false 1 (100 # 1) 12
         ([] ++ ("A-01", Entry "empty" 0 "Seat A-01" None)
             :: [("A-02", Entry "occupied" 1 "Seat A-02" None)])
         sample_state)
  = Raise (OtherError "timeout").
Proof.
  rewrite (failed_read_ends_pass
             (Database (fun _ => Raise (OtherError "timeout"))
                       (fun _ _ => Ok tt))
             1 (100 # 1) 12 [] "A-01" (Entry "empty" 0 "Seat A-01" None)
             [("A-02", Entry "occupied" 1 "Seat A-02" None)]
             sample_state sample_state (OtherError "timeout")
             eq_refl eq_refl eq_refl).
  reflexivity.
Defined.

(** *** No belongings, no abandoned seat *)

Lemma event_type_abandoned (prev new : string) :
  event_type prev new = "abandoned_detected" -> new = "abandoned".
Proof.
  unfold event_type. intros H.
  destruct (event_type_map !! (prev, new)) as [et|] eqn:E;
    [|discriminate].
  simpl in H. subst et.
  apply elem_of_list_to_map_2 in E.
  repeat (apply elem_of_cons in E; destruct E as [E|E];
          [injection E as -> ->; try discriminate; reflexivity|]).
  now apply elem_of_nil in E.
Qed.

Lemma process_seat_inert (db : database) (cnt : nat) (now : Q) (ms : Z)
    (sid : string) (info : entry) (s : state) :
  status info = "occupied" \/ status info = "empty" ->
  exists news,
    calls (fst (process_seat db false cnt now ms sid info s))
    = calls s ++ news
    /\ Forall inert news
    /\ Forall (fun c => seat_of c = sid) news
    /\ abandoned_timers (self (fst (process_seat db false cnt now ms sid
                                                 info s)))
       = <[sid := 0%Z]> (abandoned_timers (self s))
    /\ seats (self (fst (process_seat db false cnt now ms sid info s)))
       = seats (self s).
Proof.
  intros Hst. rewrite process_seat_eq. cbv zeta.
  assert (Hnew : new_status_of (self s) false sid info = status info).
  { unfold new_status_of, abandoned_logic. now rewrite andb_false_r. }
  assert (Htimer : snd (abandoned_logic (self s) sid (status info)
                          (person_detected_of info) false) = 0%Z).
  { unfold abandoned_logic. now rewrite andb_false_r. }
  assert (Hframe : Forall inert (frame_log (self s) false ms sid info)
                   /\ Forall (fun c => seat_of c = sid)
                             (frame_log (self s) false ms sid info)).
  { unfold frame_log. destruct (detection_logger (self s));
      split; try (constructor; fail);
      (constructor; [reflexivity|constructor]). }
  assert (Hchange : Forall inert (change_log (self s) false cnt sid info)
                    /\ Forall (fun c => seat_of c = sid)
                              (change_log (self s) false cnt sid info)).
  { unfold change_log. rewrite Hnew.
    destruct (negb _ && _); split; try (constructor; fail).
    - constructor; [|constructor]. simpl.
      split; [exact Hst|]. split; [reflexivity|].
      intros Het. apply event_type_abandoned in Het.
      destruct Hst as [H|H]; rewrite H in Het; discriminate.
    - constructor; [reflexivity|constructor]. }
  assert (Hread : Forall inert (read_log (status info) sid)
                  /\ Forall (fun c => seat_of c = sid)
                            (read_log (status info) sid)).
  { unfold read_log. destruct (String.eqb _ _); split;
      try (constructor; fail);
      (constructor; [exact I || reflexivity|constructor]). }
  rewrite Hnew, Htimer.
  destruct (known_of db (status info) sid) as [known|e]; cbn [fst self calls].
  - eexists. split; [reflexivity|].
    split; [|split; [|split; reflexivity]].
    + repeat (apply Forall_app; split); try tauto.
      constructor; [|constructor]. unfold update_of. rewrite Hnew.
      destruct (vacancy_fields known (status info) now) as [[vd lps] let_].
      simpl. auto.
    + repeat (apply Forall_app; split); try tauto.
      repeat constructor.
  - eexists. split; [reflexivity|].
    split; [|split; [|split; reflexivity]].
    + apply Forall_app; split; [tauto|]. repeat constructor.
    + apply Forall_app; split; [tauto|]. repeat constructor.
Qed.

Lemma process_items_inert (db : database) (cnt : nat) (now : Q) (ms : Z)
    (occupancy : list (string * entry)) :
  Forall (fun ki => status (snd ki) = "occupied"
                    \/ status (snd ki) = "empty") occupancy ->
  forall s,
  exists news,
    calls (fst (process_items db false cnt now ms occupancy s))
    = calls s ++ news
    /\ Forall inert news
    /\ Forall (fun c => In (seat_of c) (map fst occupancy)) news
    /\ (forall k,
          abandoned_timers
            (self (fst (process_items db false cnt now ms occupancy s)))
          !! k = abandoned_timers (self s) !! k
          \/ abandoned_timers
               (self (fst (process_items db false cnt now ms occupancy s)))
             !! k = Some 0%Z).
Proof.
  induction 1 as [|[k info] occ Hk _ IH]; intros s.
  - exists []. rewrite app_nil_r.
    split; [reflexivity|]. split; [constructor|]. split; [constructor|].
    intros k. now left.
  - cbn [process_items]. unfold io_bind.
    destruct (process_seat_inert db cnt now ms k info s Hk)
      as (n1 & Hc1 & Hi1 & Hs1 & Ht1 & _).
    destruct (process_seat db false cnt now ms k info s) as [s1 [[]|e]];
      cbn [fst] in *.
    + destruct (IH s1) as (n2 & Hc2 & Hi2 & Hs2 & Ht2).
      exists (n1 ++ n2). rewrite Hc2, Hc1, <- app_assoc.
      split; [reflexivity|]. split; [now apply Forall_app|]. split.
      * apply Forall_app. split.
        -- eapply List.Forall_impl; [|exact Hs1]. intros c ->. now left.
        -- eapply List.Forall_impl; [|exact Hs2]. intros c Hc. now right.
      * intros k'. destruct (Ht2 k') as [H|H]; [|now right].
        rewrite H, Ht1. destruct (decide (k = k')) as [->|Hne].
        -- right. apply lookup_insert_eq.
        -- left. now apply lookup_insert_ne.
    + exists n1. split; [exact Hc1|]. split; [exact Hi1|]. split.
      * eapply List.Forall_impl; [|exact Hs1]. intros c ->. now left.
      * intros k'. rewrite Ht1. destruct (decide (k = k')) as [->|Hne].
        -- right. apply lookup_insert_eq.
        -- left. now apply lookup_insert_ne.
Qed.

Lemma results_statuses (seats : list seat) (dets : list detection)
    (thr : Q) (occupancy : list (string * entry)) :
  check_occupancy seats dets thr = Ok occupancy ->
  Forall (fun ki => status (snd ki) = "occupied"
                    \/ status (snd ki) = "empty") occupancy.
Proof.
  intros Hocc. apply List.Forall_forall. intros [k info] Hin.
  pose proof (ChannelWorkerFacts.one_status_per_seat _ _ _ _ _ _ Hocc Hin)
    as Hget.
  destruct (CheckOccupancy.check_loop_entries _ _ _ _ _ Hocc k info Hget)
    as [(s & _ & _ & Hs)|Hacc]; [|discriminate].
  now destruct (CheckOccupancy.check_seat_invariant _ _ _ _ Hs)
    as (_ & H & _).
Qed.

(** X20.  With belongings never reported, the abandoned path is dead:
    whatever the frame, the database and the worker's state,
    [process_frame] only adds calls in which no belongings are reported;
    every status it writes is [occupied] or [empty]; no status change it
    logs is an [abandoned_detected] or leads to [abandoned]; every call
    is about a configured seat; and every abandoned timer is left as it
    was or reset to 0. *)
Theorem abandoned_path_inert
    (db : database) (thr : Q) (dets : list detection) (now : Q) (ms : Z)
    (s : state) :
  exists news,
    calls (fst (process_frame db thr dets now ms s)) = calls s ++ news
    /\ Forall inert news
    /\ Forall (fun c => In (seat_of c) (map seat_id (seats (self s)))) news
    /\ (forall k,
          abandoned_timers (self (fst (process_frame db thr dets now ms s)))
          !! k = abandoned_timers (self s) !! k
          \/ abandoned_timers
               (self (fst (process_frame db thr dets now ms s))) !! k
             = Some 0%Z).
Proof.
  unfold process_frame, io_bind, io_get, io_lift.
  destruct (check_occupancy (seats (self s)) dets thr) as [occ|e] eqn:Hocc.
  - destruct (process_items_inert db (length dets) now ms occ
                (results_statuses _ _ _ _ Hocc) s)
      as (news & Hc & Hi & Hs & Ht).
    exists news. split; [exact Hc|]. split; [exact Hi|].
    split; [|exact Ht].
    eapply List.Forall_impl; [|exact Hs]. intros c Hin.
    apply in_map_iff in Hin. destruct Hin as ([k info] & Hk & Hin).
    simpl in Hk. subst k.
    pose proof (ChannelWorkerFacts.one_status_per_seat _ _ _ _ _ _ Hocc Hin)
      as Hget.
    destruct (CheckOccupancy.check_loop_entries _ _ _ _ _ Hocc _ _ Hget)
      as [(st & Hst & Hid & _)|Hacc]; [|discriminate].
    rewrite <- Hid. now apply in_map.
  - exists []. rewrite app_nil_r.
    split; [reflexivity|]. split; [constructor|]. split; [constructor|].
    intros k. now left.
Qed.
End SeatPassFacts.

(** ** The loop of [run] *)

Module WorkerLoopFacts.
Import ChannelWorker Occupancy WorkerLoop.

Lemma iteration_count (thr : Q) (t : tick) (l : loop) :
  (0 <= error_count l < max_errors)%Z ->
  snd (iteration thr t l) <> Some max_errors_reached
  /\ (snd (iteration thr t l) = None ->
      (0 <= error_count (fst (iteration thr t l)) < max_errors)%Z).
Proof.
  unfold max_errors. intros Hc.
  destruct t as [f|[]|]; cbn [iteration]; unfold max_errors.
  - destruct (process_frame _ _ _ _ _ _) as [s' [u|e]];
      cbn [fst snd error_count].
    + split; [intros Hx; discriminate Hx|intros _; lia].
    + change (10 <=? 0 + 1)%Z with false.
      split; [intros Hx; discriminate Hx|intros _; lia].
  - destruct (Z.leb_spec 10 (error_count l + 1)); cbn [fst snd error_count];
      (split; [intros Hx; discriminate Hx|intros _; lia]).
  - destruct (Z.leb_spec 10 (error_count l + 1)); cbn [fst snd error_count];
      (split; [intros Hx; discriminate Hx
              |intros Hx; try discriminate Hx; lia]).
  - split; intros Hx; discriminate Hx.
Qed.

Lemma run_loop_exit (thr : Q) (ticks : list tick) :
  forall l, (0 <= error_count l < max_errors)%Z ->
  snd (run_loop thr ticks l) <> max_errors_reached.
Proof.
  induction ticks as [|t ticks IH]; intros l Hc; [discriminate|].
  cbn [run_loop].
  destruct (iteration_count thr t l Hc) as [Hne Hnext].
  destruct (iteration thr t l) as [l' [e|]]; cbn [fst snd] in *.
  - congruence.
  - apply IH. now apply Hnext.
Qed.

(** X21.  A failure of [process_frame] never ends the worker: the frame
    that was captured has reset the error count, so the [except] branch
    of the loop always counts one error, below [max_errors]; whatever
    the turns of the loop bring, and however many frames in a row fail,
    it never leaves through "Max errors reached". *)
Theorem processing_errors_never_end_the_loop
    (iou_threshold : Q) (ticks : list tick) (s : state) :
  snd (run_loop iou_threshold ticks (start s)) <> max_errors_reached.
Proof.
  apply run_loop_exit. unfold max_errors. simpl. lia.
Qed.






Lemma misses_below (thr : Q) (n : nat) (bs : list bool) :
  forall (rest : list tick) (l : loop),
  length bs = n ->
  (0 <= error_count l)%Z ->
  (error_count l + Z.of_nat n < max_errors)%Z ->
  run_loop thr (map missed bs ++ rest) l
  = run_loop thr rest
      (Loop (frame_count l) (error_count l + Z.of_nat n) (worker_state l)
            (reconnections l)).
Proof.
  revert bs. induction n as [|n IH]; intros [|b bs] rest l Hlen H0 Hlt;
    try discriminate.
  - simpl. rewrite Z.add_0_r. now destruct l.
  - injection Hlen as Hlen. cbn [map app run_loop iteration].
    destruct (Z.leb_spec max_errors (error_count l + 1)); [lia|].
    rewrite (IH bs rest _ Hlen); cbn [error_count frame_count
      worker_state reconnections]; try lia.
    do 2 f_equal. lia.
Qed.

(** X23.  Reconnection comes with the tenth missing frame in a row and
    not before: after a captured frame or a reconnection, nine turns
    without a frame only raise the error count; the tenth calls
    [connect_rtsp], and its answer decides between starting the count
    again and leaving the loop. *)
Theorem reconnects_at_tenth_miss
    (iou_threshold : Q) (bs : list bool) (b : bool) (rest : list tick)
    (l : loop) :
  error_count l = 0%Z ->
  length bs = 9%nat ->
  run_loop iou_threshold (map missed bs ++ missed b :: rest) l
  = if b then
      run_loop iou_threshold rest
        (Loop (frame_count l) 0 (worker_state l) (S (reconnections l)))
    else
      (Loop (frame_count l) 10 (worker_state l) (S (reconnections l)),
       reconnection_failed).
Proof.
  intros H0 Hlen.
  rewrite (misses_below iou_threshold 9 bs _ l Hlen);
    [|lia|unfold max_errors; lia].
  rewrite H0. cbn [run_loop iteration error_count frame_count
    worker_state reconnections].
  now destruct b.
Qed.

Lemma reconnects_at_tenth_miss_witness :
  run_loop (3 # 10)
    (map missed (repeat false 9) ++ missed false
       :: [captured sample_frame])
    (start sample_state)
  = (Loop 0 10 sample_state 1, reconnection_failed).
Proof.
  exact (reconnects_at_tenth_miss (3 # 10) (repeat false 9) false
           [captured sample_frame] (start sample_state)
           eq_refl eq_refl).
Defined.

End WorkerLoopFacts.

(** ** [PerformanceMonitor] *)

Module PerformanceMonitorFacts.
Import ROIMatcher PerformanceMonitor PyFacts.

Lemma truediv_returns (a b : Q) :
  ~ (b == 0)%Q -> truediv a b = Ok (a / b)%Q.
Proof.
  intros Hb. unfold truediv.
  destruct (Qeq_bool b 0) eqn:E; [|reflexivity].
  apply Qeq_bool_iff in E. contradiction.
Qed.

Lemma len_cons_pos (x : Q) (xs : list Q) : (0 < len (x :: xs))%Q.
Proof.
  unfold len. change 0%Q with (inject_Z 0). rewrite <- Zlt_Qlt.
  simpl length. lia.
Qed.

Lemma avg_latency_returns (times : list Q) :
  exists a, avg_latency times = Ok a.
Proof.
  destruct times as [|x xs]; [now exists 0%Q|].
  unfold avg_latency. rewrite truediv_returns; [eauto|].
  pose proof (len_cons_pos x xs). lra.
Qed.

Lemma report_returns (round : Q -> Z -> Q) (now : Q) (m : monitor) :
  exists m', report round now m = Ok m'
             /\ self_metrics m' = self_metrics m
             /\ report_interval m' = report_interval m.
Proof.
  unfold report.
  destruct (Qeq_bool (now - start_time (self_metrics m)) 0) eqn:E;
    [now exists m|].
  apply Qeq_bool_neq in E.
  rewrite (truediv_returns _ _ E). cbn [bind].
  destruct (avg_latency_returns (detection_times_ms (self_metrics m)))
    as [a ->]. cbn [bind].
  rewrite (truediv_returns _ 3600) by (intros H; discriminate H).
  destruct (Z.ltb_spec 0 (frame_count (self_metrics m))) as [Hpos|Hle].
  - rewrite truediv_returns.
    + cbn [bind]. eexists. split; [reflexivity|]. split; reflexivity.
    + change 0%Q with (inject_Z 0). rewrite inject_Z_injective. lia.
  - cbn [bind]. eexists. split; [reflexivity|]. split; reflexivity.
Qed.

Lemma record_returns (round : Q -> Z -> Q) (r : recording) (m : monitor) :
  exists m', record round r m = Ok m'
    /\ frame_count (self_metrics m')
       = (frame_count (self_metrics m)
          + match r with frame _ _ _ => 1 | _ => 0 end)%Z
    /\ detection_times_ms (self_metrics m')
       = detection_times_ms (self_metrics m)
         ++ match r with frame ms _ _ => [ms] | _ => [] end
    /\ error_count (self_metrics m')
       = (error_count (self_metrics m)
          + match r with error => 1 | _ => 0 end)%Z
    /\ warning_count (self_metrics m')
       = (warning_count (self_metrics m)
          + match r with warning => 1 | _ => 0 end)%Z
    /\ start_time (self_metrics m') = start_time (self_metrics m).
Proof.
  destruct r as [ms nc nr| |]; cbn [record].
  - unfold record_frame, _check_report.
    set (m1 := set_metrics _ m).
    destruct (Qleb _ _).
    + destruct (report_returns round nr m1) as (m2 & -> & Hm & _).
      cbn [bind]. eexists. split; [reflexivity|].
      cbn [self_metrics]. rewrite Hm. subst m1. simpl.
      repeat split; lia.
    + eexists. split; [reflexivity|]. subst m1. simpl.
      repeat split; lia.
  - eexists. split; [reflexivity|]. simpl.
    rewrite app_nil_r. repeat split; lia.
  - eexists. split; [reflexivity|]. simpl.
    rewrite app_nil_r. repeat split; lia.
Qed.

Lemma get_stats_returns (now : Q) (m : monitor) :
  exists st, get_stats now m = Ok st
    /\ st_frame_count st = frame_count (self_metrics m)
    /\ st_error_count st = error_count (self_metrics m)
    /\ st_warning_count st = warning_count (self_metrics m)
    /\ avg_latency (detection_times_ms (self_metrics m))
       = Ok (st_avg_detection_ms st).
Proof.
  unfold get_stats.
  destruct (avg_latency_returns (detection_times_ms (self_metrics m)))
    as [a Ha]. rewrite Ha.
  destruct (Qltb_spec 0 (now - start_time (self_metrics m))) as [Hpos|Hle].
  - rewrite truediv_returns by lra. cbn [bind].
    eexists. split; [reflexivity|]. simpl. repeat split.
  - cbn [bind]. eexists. split; [reflexivity|]. simpl. repeat split.
Qed.

(** X24.  The monitor never fails: in whatever state it is, each of
    [record_frame], [record_error], [record_warning], [report] and
    [get_stats] returns; every division they make is guarded. *)
Theorem monitor_never_raises
    (round : Q -> Z -> Q) (rs : list recording) (now : Q) (m : monitor) :
  exists m',
    record_all round rs m = Ok m'
    /\ returns (report round now m')
    /\ returns (get_stats now m').
Proof.
  revert m. induction rs as [|r rs IH]; intros m.
  - exists m. split; [reflexivity|]. split.
    + destruct (report_returns round now m) as (m' & H & _). now exists m'.
    + destruct (get_stats_returns now m) as (st & H & _). now exists st.
  - cbn [record_all].
    destruct (record_returns round r m) as (m1 & -> & _). cbn [bind].
    apply IH.
Qed.





End PerformanceMonitorFacts.
